(** * A/B testing, weighted lead scoring and campaign metrics

    A shallow embedding of the analytics services of the lead-generation
    backend:

    - [abTestingService.ts]: [assignVariant], [trackEvent],
      [getTestResults], [performStatisticalAnalysis],
      [calculateConfidenceInterval], [createAbTest], [startAbTest] and
      [concludeTest];
    - [customScoringService.ts]: [applyAlgorithm], [normalizeFeatureValue],
      [generateReasoning], [extractLeadFeatures] with its scorers,
      [scoreLeadWithAlgorithm] and [batchScoreLeads];
    - [linkedinService.ts] (class [CampaignAnalyticsService]):
      [calculateCampaignMetrics], [getCampaignComparison] and
      [trackEmailEvent].

    Conventions of the embedding.

    - A JavaScript number is a [num]: a finite double, held as the rational
      it is equal to, or one of the three IEEE special values.  Addition,
      subtraction, multiplication and division are those of IEEE 754
      binary64: the exact result rounded to the nearest double, ties to even,
      with gradual underflow and overflow to an infinity ([Js.rnd]); 0/0 is
      NaN, x/0 is an infinity, every comparison with NaN is false.  The sign
      of zero is not modelled.  A Float column or a number of a JSON document
      is a rational field of its row and stands for a finite double; a
      decimal literal of the source is [Js.lit] of the decimal; an Int column
      and the length of an array are integers and are converted exactly.
    - [Math.sqrt], the number formatter and the two functions of the
      statistics package ([cumulativeStdNormalProbability], [probit]) are not
      part of the repository: they are fields of the classes [Numerics] and
      [NumberFormat].
    - The Prisma tables are lists in insertion order, or maps under their
      unique key where a row is only reached by that key; a service method is a
      function from the database to an exception or a value and the next
      database.  [create] appends a row and throws when a foreign key of the
      row refers to no row or an argument is outside its enum; [update] of a
      missing row throws, as does an increment that an Int column (32 bits)
      or a Float column cannot hold.  Logging is not modelled, so a
      [try]/[catch] that logs and rethrows is the identity.
    - [Math.random()] and [new Date()] are arguments of the methods that
      call them. *)

From Stdlib Require Import QArith Qround Qabs Qpower Lqa ZArith Lia Sorted.
From stdpp Require Import gmap strings list fin_maps pretty.

Set Default Proof Using "Type".
Local Open Scope Z_scope.

(* ===================================================================== *)
(** * Rounding to binary64 *)
(* ===================================================================== *)

Module Binary64.

(** floor (log2 a), for a positive rational [a]. *)
Definition ilog2 (a : Q) : Z :=
  let k := Z.log2 (Qnum a) - Z.log2 (Zpos (Qden a)) in
  if Qle_bool (2 ^ k) a then k else k - 1.

(** The exponent of the last place of the double nearest to [a]: 52 below
    the leading bit, and -1074 in the subnormal range. *)
Definition expo (a : Q) : Z := Z.max (ilog2 a - 52) (-1074).

(** Rounding to the nearest integer, ties to even. *)
Definition rne (x : Q) : Z :=
  let f := Qfloor x in
  match (x - inject_Z f ?= 1 # 2)%Q with
  | Lt => f
  | Gt => f + 1
  | Eq => if Z.even f then f else f + 1
  end.

(** A positive rational rounded to 53 significant bits. *)
Definition magnitude (a : Q) : Q :=
  (inject_Z (rne (a / 2 ^ expo a)) * 2 ^ expo a)%Q.

(** Round to nearest, ties to even, before the overflow test. *)
Definition sval (q : Q) : Q :=
  match (q ?= 0)%Q with
  | Eq => 0%Q
  | Gt => magnitude q
  | Lt => (- magnitude (- q))%Q
  end.

(** Rounded values of this size and above are infinite. *)
Definition huge : Q := (2 ^ 1024)%Q.

End Binary64.

(* ===================================================================== *)
(** * JavaScript numbers *)
(* ===================================================================== *)

Module Js.

(** A number is a finite double, held as the rational it is equal to, or
    one of the three special values. *)
Inductive num : Type :=
| Fin (q : Q)
| PosInf
| NegInf
| NaN.

(** A rational in lowest terms, so that equal numbers are equal terms. *)
Definition fin (q : Q) : num := Fin (Qred q).

(** The result of an arithmetic operation whose exact value is [q]: the
    nearest double, ties to even, or an infinity on overflow. *)
Definition rnd (q : Q) : num :=
  let v := Binary64.sval q in
  if Qle_bool Binary64.huge v then PosInf
  else if Qle_bool v (- Binary64.huge) then NegInf
  else Fin (Qred v).

(** The double that a decimal literal, or a number of a JSON document,
    denotes. *)
Definition lit (q : Q) : num := rnd q.

(** The same as a rational, for the fields of a row (0 where the decimal
    is out of range). *)
Definition double (q : Q) : Q :=
  match rnd q with
  | Fin v => v
  | _ => 0%Q
  end.

(** An Int column or the length of an array is an integer below 2^53 and is
    converted without rounding. *)
Definition ofZ (z : Z) : num := Fin (inject_Z z).
Definition ofNat (n : nat) : num := ofZ (Z.of_nat n).

Definition neg (a : num) : num :=
  match a with
  | Fin x => fin (- x)
  | PosInf => NegInf
  | NegInf => PosInf
  | NaN => NaN
  end.

Definition add (a b : num) : num :=
  match a, b with
  | NaN, _ | _, NaN => NaN
  | Fin x, Fin y => rnd (x + y)
  | PosInf, NegInf | NegInf, PosInf => NaN
  | PosInf, _ | _, PosInf => PosInf
  | NegInf, _ | _, NegInf => NegInf
  end.

Definition sub (a b : num) : num := add a (neg b).

(** An infinity with the sign of [c] times the sign of the infinity
    [pos]; zero times infinity is NaN. *)
Definition signedInf (c : comparison) (pos : bool) : num :=
  match c with
  | Eq => NaN
  | Gt => if pos then PosInf else NegInf
  | Lt => if pos then NegInf else PosInf
  end.

Definition mul (a b : num) : num :=
  match a, b with
  | NaN, _ | _, NaN => NaN
  | Fin x, Fin y => rnd (x * y)
  | Fin x, PosInf | PosInf, Fin x => signedInf (x ?= 0)%Q true
  | Fin x, NegInf | NegInf, Fin x => signedInf (x ?= 0)%Q false
  | PosInf, PosInf | NegInf, NegInf => PosInf
  | PosInf, NegInf | NegInf, PosInf => NegInf
  end.

Definition div (a b : num) : num :=
  match a, b with
  | NaN, _ | _, NaN => NaN
  | Fin x, Fin y =>
      if Qeq_bool y 0 then signedInf (x ?= 0)%Q true else rnd (x / y)
  | Fin _, PosInf | Fin _, NegInf => Fin 0
  | PosInf, Fin y => if Qle_bool 0 y then PosInf else NegInf
  | NegInf, Fin y => if Qle_bool 0 y then NegInf else PosInf
  | PosInf, PosInf | PosInf, NegInf | NegInf, PosInf | NegInf, NegInf => NaN
  end.

Definition leb (a b : num) : bool :=
  match a, b with
  | NaN, _ | _, NaN => false
  | Fin x, Fin y => Qle_bool x y
  | NegInf, _ | _, PosInf => true
  | _, _ => false
  end.

Definition ltb (a b : num) : bool :=
  match a, b with
  | NaN, _ | _, NaN => false
  | Fin x, Fin y => negb (Qle_bool y x)
  | PosInf, _ | _, NegInf => false
  | _, _ => true
  end.

Definition geb (a b : num) : bool := leb b a.
Definition gtb (a b : num) : bool := ltb b a.

(** [Math.abs], [Math.min], [Math.max], [Math.round]. *)
Definition Math_abs (a : num) : num :=
  match a with
  | Fin x => fin (Qabs x)
  | PosInf | NegInf => PosInf
  | NaN => NaN
  end.

Definition Math_min (a b : num) : num :=
  match a, b with
  | NaN, _ | _, NaN => NaN
  | _, _ => if leb a b then a else b
  end.

Definition Math_max (a b : num) : num :=
  match a, b with
  | NaN, _ | _, NaN => NaN
  | _, _ => if leb a b then b else a
  end.

(** [Math.round] rounds half up: floor (x + 1/2), computed on the value of
    the double; the result is a double. *)
Definition Math_round (a : num) : num :=
  match a with
  | Fin x => ofZ (Qfloor (x + (1 # 2)))
  | _ => a
  end.

(** The truth value of a number in a condition: 0 and NaN are false. *)
Definition truthy (a : num) : bool :=
  match a with
  | Fin x => negb (Qeq_bool x 0)
  | NaN => false
  | PosInf | NegInf => true
  end.

Definition isFinite (a : num) : bool :=
  match a with Fin _ => true | _ => false end.

(** Equality of numbers: equal rationals, or the same infinity.  NaN is
    related to itself here (this is identity of values, not [===]). *)
Definition eqv (a b : num) : Prop :=
  match a, b with
  | Fin x, Fin y => (x == y)%Q
  | PosInf, PosInf | NegInf, NegInf | NaN, NaN => True
  | _, _ => False
  end.

(** [lo <= a <= hi] for a finite [a]. *)
Definition within (lo hi : Q) (a : num) : Prop :=
  match a with
  | Fin x => (lo <= x /\ x <= hi)%Q
  | _ => False
  end.

(** The functions of the runtime and of the statistics package that the
    services call. *)
Class Numerics : Type := {
  Math_sqrt : num -> num;
  cumulativeStdNormalProbability : num -> num;
  probit : num -> num
}.

(** Template literals format numbers with [Number.prototype.toString]. *)
Class NumberFormat : Type := {
  Number_toString : num -> string
}.

(** A finite table of answers, looked up by the value of the argument;
    an argument outside the table is answered NaN.  It replays a run in
    which the external functions returned the listed values. *)
Fixpoint answer (table : list (Q * Q)) (a : num) : num :=
  match table with
  | [] => NaN
  | (x, y) :: rest =>
      match a with
      | Fin q => if Qeq_bool q x then Fin y else answer rest a
      | _ => NaN
      end
  end.

Definition tableNumerics (sqrtT cdfT probitT : list (Q * Q)) : Numerics :=
  {| Math_sqrt := answer sqrtT;
     cumulativeStdNormalProbability := answer cdfT;
     probit := answer probitT |}.

End Js.

Arguments Js.rnd : simpl never.

Declare Scope num_scope.
Delimit Scope num_scope with num.
Bind Scope num_scope with Js.num.
Infix "+" := Js.add : num_scope.
Infix "-" := Js.sub : num_scope.
Infix "*" := Js.mul : num_scope.
Infix "/" := Js.div : num_scope.
Infix "<=?" := Js.leb : num_scope.
Infix "<?" := Js.ltb : num_scope.
Infix ">=?" := Js.geb : num_scope.
Infix ">?" := Js.gtb : num_scope.

(** Exceptions: a method either throws a message or returns. *)
Inductive Result (A : Type) : Type :=
| Ok (a : A)
| Throw (msg : string).
Arguments Ok {A} a.
Arguments Throw {A} msg.

(* ===================================================================== *)
(** * abTestingService.ts *)
(* ===================================================================== *)

Module AbTest.
Import Js.

Inductive AbTestStatus := DRAFT | RUNNING | PAUSED | COMPLETED | CANCELLED.
Inductive AbTestEvent := ASSIGNED | IMPRESSION | CLICK | CONVERSION | REVENUE.

Definition isRunning (s : AbTestStatus) : bool :=
  match s with RUNNING => true | _ => false end.

Definition isAssigned (e : AbTestEvent) : bool :=
  match e with ASSIGNED => true | _ => false end.

(** The enum check Prisma applies to the string passed as [event]. *)
Definition parseEvent (event : string) : option AbTestEvent :=
  if String.eqb event "ASSIGNED" then Some ASSIGNED
  else if String.eqb event "IMPRESSION" then Some IMPRESSION
  else if String.eqb event "CLICK" then Some CLICK
  else if String.eqb event "CONVERSION" then Some CONVERSION
  else if String.eqb event "REVENUE" then Some REVENUE
  else None.

(** ** Rows of the schema (the JSON payload columns are left out) *)

Module Test.
Record t := {
  id : string;
  name : string;
  status : AbTestStatus;
  confidenceLevel : Q;
  minSampleSize : Z;
  startDate : option Z;
  endDate : option Z
}.
End Test.

Module Variant.
Record t := {
  id : string;
  testId : string;
  name : string;
  trafficPercent : Q;
  impressions : Z;
  clicks : Z;
  conversions : Z;
  revenue : Q
}.
End Variant.

Module Row.
Record t := {
  testId : string;
  variantId : string;
  leadId : string;
  event : AbTestEvent;
  value : option Q
}.
End Row.

Module Activity.
Record t := {
  leadId : string;
  type : string;
  description : string;
  metadata : list (string * string)
}.
End Activity.

(** [lead] and [campaign] hold the ids of the rows of those two tables,
    which the foreign keys of the tables above refer to. *)
Record Db := {
  abTest : list Test.t;
  abTestVariant : list Variant.t;
  abTestResult : list Row.t;
  activity : list Activity.t;
  lead : list string;
  campaign : list string
}.

(** ** Methods: database in, exception or value and database out *)

Definition M (A : Type) : Type := Db -> Result (A * Db).

Definition ret {A} (a : A) : M A := fun db => Ok (a, db).
Definition throw {A} (msg : string) : M A := fun _ => Throw msg.
Definition bind {A B} (c : M A) (k : A -> M B) : M B :=
  fun db => match c db with
            | Ok (a, db') => k a db'
            | Throw msg => Throw msg
            end.

#[global] Instance M_ret : MRet M := @ret.
#[global] Instance M_bind : MBind M := fun A B k c => bind c k.

(** [prisma.abTest.findUnique({ where: { id }, include: { variants } })] *)
Definition findUniqueTest (testId : string) : M (option (Test.t * list Variant.t)) :=
  fun db =>
    match find (fun t => String.eqb (Test.id t) testId) (abTest db) with
    | Some t =>
        Ok (Some (t, filter (fun v => Variant.testId v = testId) (abTestVariant db)), db)
    | None => Ok (None, db)
    end.

Definition assignedTo (testId leadId : string) (r : Row.t) : bool :=
  String.eqb (Row.testId r) testId && String.eqb (Row.leadId r) leadId
  && isAssigned (Row.event r).

(** [prisma.abTestResult.findFirst({ where: { testId, leadId, event: "ASSIGNED" } })] *)
Definition findFirstAssigned (testId leadId : string) : M (option Row.t) :=
  fun db => Ok (find (assignedTo testId leadId) (abTestResult db), db).

Definition hasTest (testId : string) (db : Db) : bool :=
  existsb (fun t => String.eqb (Test.id t) testId) (abTest db).

Definition hasVariant (variantId : string) (db : Db) : bool :=
  existsb (fun v => String.eqb (Variant.id v) variantId) (abTestVariant db).

Definition hasLead (leadId : string) (db : Db) : bool :=
  existsb (String.eqb leadId) (lead db).

(** [prisma.abTestResult.create]: the row refers to an experiment, a
    variant and a lead, and the create throws when one of them is missing. *)
Definition createResult (r : Row.t) : M unit :=
  fun db =>
    if hasTest (Row.testId r) db && hasVariant (Row.variantId r) db
       && hasLead (Row.leadId r) db
    then Ok (tt, {| abTest := abTest db;
                    abTestVariant := abTestVariant db;
                    abTestResult := abTestResult db ++ [r];
                    activity := activity db;
                    lead := lead db;
                    campaign := campaign db |})
    else Throw "Foreign key constraint failed".

(** [prisma.activity.create]: the activity refers to a lead. *)
Definition createActivity (a : Activity.t) : M unit :=
  fun db =>
    if hasLead (Activity.leadId a) db
    then Ok (tt, {| abTest := abTest db;
                    abTestVariant := abTestVariant db;
                    abTestResult := abTestResult db;
                    activity := activity db ++ [a];
                    lead := lead db;
                    campaign := campaign db |})
    else Throw "Foreign key constraint failed".

(** The rows after [data] has been applied to the row with the id (the
    primary key); the database rejects a value its column cannot hold. *)
Fixpoint updateRows (variantId : string) (data : Variant.t -> Result Variant.t)
    (rows : list Variant.t) : Result (list Variant.t) :=
  match rows with
  | [] => Ok []
  | v :: rest =>
      if String.eqb (Variant.id v) variantId
      then match data v with
           | Ok v' => Ok (v' :: rest)
           | Throw msg => Throw msg
           end
      else match updateRows variantId data rest with
           | Ok rest' => Ok (v :: rest')
           | Throw msg => Throw msg
           end
  end.

(** [prisma.abTestVariant.update({ where: { id }, data })]: throws when no
    row has the id. *)
Definition updateVariant (variantId : string) (data : Variant.t -> Result Variant.t)
    : M unit :=
  fun db =>
    if hasVariant variantId db
    then match updateRows variantId data (abTestVariant db) with
         | Ok rows =>
             Ok (tt, {| abTest := abTest db;
                        abTestVariant := rows;
                        abTestResult := abTestResult db;
                        activity := activity db;
                        lead := lead db;
                        campaign := campaign db |})
         | Throw msg => Throw msg
         end
    else Throw "Record to update not found".

(** ** createAbTest: the traffic check *)

(** [config.variants.reduce((sum, v) => sum + v.trafficPercent, 0)] *)
Definition totalTraffic (trafficPercents : list Q) : num :=
  fold_left (fun sum trafficPercent => (sum + Fin trafficPercent)%num)
            trafficPercents (Fin 0).

Definition createAbTest_check (trafficPercents : list Q) : Result unit :=
  if (Math_abs (totalTraffic trafficPercents - Fin 100) >? lit (1 # 100))%num
  then Throw "Variant traffic percentages must add up to 100%"
  else Ok tt.

(** ** assignVariant *)

(** The [for] loop over [test.variants]: [selected] is the value
    [selectedVariant] holds when the loop ends without a [break]. *)
Fixpoint walk (random cumulative : num) (variants : list Variant.t)
    (selected : option Variant.t) : option Variant.t :=
  match variants with
  | [] => selected
  | variant :: rest =>
      let cumulative := (cumulative + Fin (Variant.trafficPercent variant))%num in
      if (random <=? cumulative)%num then Some variant
      else walk random cumulative rest selected
  end.

(** [None] is [undefined], the value of [test.variants[0]] on an empty
    list. *)
Definition selectVariant (random : num) (variants : list Variant.t)
    : option Variant.t :=
  walk random (Fin 0) variants (head variants).

Definition assignVariant (testId leadId : string) (Math_random : Q) : M string :=
  test ← findUniqueTest testId;
  match test with
  | None => throw "Test is not running"
  | Some (t, variants) =>
      if negb (isRunning (Test.status t)) then throw "Test is not running"
      else
        existingAssignment ← findFirstAssigned testId leadId;
        match existingAssignment with
        | Some r => mret (Row.variantId r)
        | None =>
            let random := (Fin Math_random * Fin 100)%num in
            match selectVariant random variants with
            | None => throw "TypeError: Cannot read properties of undefined (reading 'id')"
            | Some selectedVariant =>
                createResult {| Row.testId := testId;
                                Row.variantId := Variant.id selectedVariant;
                                Row.leadId := leadId;
                                Row.event := ASSIGNED;
                                Row.value := None |};;
                createActivity
                  {| Activity.leadId := leadId;
                     Activity.type := "AB_TEST_ASSIGNED";
                     Activity.description :=
                       "Assigned to A/B test variant: " +:+ Variant.name selectedVariant;
                     Activity.metadata :=
                       [("testId", testId);
                        ("variantId", Variant.id selectedVariant);
                        ("variantName", Variant.name selectedVariant)] |};;
                mret (Variant.id selectedVariant)
            end
        end
  end.

(** ** trackEvent *)

(** [value || 0] *)
Definition orZero (value : option Q) : Q :=
  match value with
  | Some v => if Qeq_bool v 0 then 0%Q else v
  | None => 0%Q
  end.

(** An Int column holds 32 bits. *)
Definition maxInt : Z := 2147483647.

(** [{ increment: 1 }] on an Int column. *)
Definition increment (n : Z) : Result Z :=
  if n + 1 <=? maxInt then Ok (n + 1) else Throw "integer out of range".

(** [{ increment: x }] on a Float column: the sum of two doubles; the
    database rejects a sum that overflows. *)
Definition incrementBy (x : Q) (r : Q) : Result Q :=
  match (Fin r + Fin x)%num with
  | Fin r' => Ok r'
  | _ => Throw "value out of range: overflow"
  end.

(** The [switch] that fills [updateData]; [None] is the empty object. *)
Definition updateData (event : AbTestEvent) (value : option Q)
    : option (Variant.t -> Result Variant.t) :=
  match event with
  | IMPRESSION =>
      Some (fun v =>
        match increment (Variant.impressions v) with
        | Ok n =>
            Ok {| Variant.id := Variant.id v; Variant.testId := Variant.testId v;
                  Variant.name := Variant.name v;
                  Variant.trafficPercent := Variant.trafficPercent v;
                  Variant.impressions := n;
                  Variant.clicks := Variant.clicks v;
                  Variant.conversions := Variant.conversions v;
                  Variant.revenue := Variant.revenue v |}
        | Throw msg => Throw msg
        end)
  | CLICK =>
      Some (fun v =>
        match increment (Variant.clicks v) with
        | Ok n =>
            Ok {| Variant.id := Variant.id v; Variant.testId := Variant.testId v;
                  Variant.name := Variant.name v;
                  Variant.trafficPercent := Variant.trafficPercent v;
                  Variant.impressions := Variant.impressions v;
                  Variant.clicks := n;
                  Variant.conversions := Variant.conversions v;
                  Variant.revenue := Variant.revenue v |}
        | Throw msg => Throw msg
        end)
  | CONVERSION =>
      Some (fun v =>
        match increment (Variant.conversions v) with
        | Ok n =>
            Ok {| Variant.id := Variant.id v; Variant.testId := Variant.testId v;
                  Variant.name := Variant.name v;
                  Variant.trafficPercent := Variant.trafficPercent v;
                  Variant.impressions := Variant.impressions v;
                  Variant.clicks := Variant.clicks v;
                  Variant.conversions := n;
                  Variant.revenue := Variant.revenue v |}
        | Throw msg => Throw msg
        end)
  | REVENUE =>
      Some (fun v =>
        match incrementBy (orZero value) (Variant.revenue v) with
        | Ok r =>
            Ok {| Variant.id := Variant.id v; Variant.testId := Variant.testId v;
                  Variant.name := Variant.name v;
                  Variant.trafficPercent := Variant.trafficPercent v;
                  Variant.impressions := Variant.impressions v;
                  Variant.clicks := Variant.clicks v;
                  Variant.conversions := Variant.conversions v;
                  Variant.revenue := r |}
        | Throw msg => Throw msg
        end)
  | ASSIGNED => None
  end.

Definition trackEvent (testId variantId leadId event : string) (value : option Q)
    : M unit :=
  match parseEvent event with
  | None => throw "Invalid value for argument event"
  | Some ev =>
      createResult {| Row.testId := testId; Row.variantId := variantId;
                      Row.leadId := leadId; Row.event := ev; Row.value := value |};;
      match updateData ev value with
      | Some data => updateVariant variantId data
      | None => mret tt
      end
  end.

(** ** getTestResults *)

Record Interval := { lower : num; upper : num }.

Module VariantResult.
Record t := {
  id : string;
  name : string;
  impressions : Z;
  clicks : Z;
  conversions : Z;
  revenue : Q;
  conversionRate : num;
  revenuePerConversion : num;
  confidence : option Interval
}.
End VariantResult.

Record Winner := {
  variantId : string;
  variantName : string;
  improvement : num
}.

Record Analysis := {
  significance : num;
  winner : option Winner;
  recommendation : string
}.

Module Results.
Record t := {
  testId : string;
  status : AbTestStatus;
  variants : list VariantResult.t;
  winner : option Winner;
  statisticalSignificance : option num;
  recommendedAction : option string;
  startDate : option Z;
  endDate : option Z
}.
End Results.

(** The body of [test.variants.map(variant => ...)]. *)
Definition variantResult (variant : Variant.t) : VariantResult.t :=
  let conversionRate :=
    if Variant.impressions variant >? 0
    then ((ofZ (Variant.conversions variant) / ofZ (Variant.impressions variant))
          * Fin 100)%num
    else Fin 0 in
  let revenuePerConversion :=
    if Variant.conversions variant >? 0
    then (Fin (Variant.revenue variant) / ofZ (Variant.conversions variant))%num
    else Fin 0 in
  {| VariantResult.id := Variant.id variant;
     VariantResult.name := Variant.name variant;
     VariantResult.impressions := Variant.impressions variant;
     VariantResult.clicks := Variant.clicks variant;
     VariantResult.conversions := Variant.conversions variant;
     VariantResult.revenue := Variant.revenue variant;
     VariantResult.conversionRate :=
       (Math_round (conversionRate * Fin 100) / Fin 100)%num;
     VariantResult.revenuePerConversion :=
       (Math_round (revenuePerConversion * Fin 100) / Fin 100)%num;
     VariantResult.confidence := None |}.

Section WithNumerics.
Context `{Numerics}.

(** The locals of [performStatisticalAnalysis] for two variants. *)
Definition rate (v : VariantResult.t) : num :=
  (ofZ (VariantResult.conversions v) / ofZ (VariantResult.impressions v))%num.

Definition pooledP (control treatment : VariantResult.t) : num :=
  ((ofZ (VariantResult.conversions control) + ofZ (VariantResult.conversions treatment))
   / (ofZ (VariantResult.impressions control) + ofZ (VariantResult.impressions treatment)))%num.

Definition se (control treatment : VariantResult.t) : num :=
  let pooledP := pooledP control treatment in
  Math_sqrt (pooledP * (Fin 1 - pooledP)
             * (Fin 1 / ofZ (VariantResult.impressions control)
                + Fin 1 / ofZ (VariantResult.impressions treatment)))%num.

Definition zScore (control treatment : VariantResult.t) : num :=
  (Math_abs (rate treatment - rate control) / se control treatment)%num.

Definition pValue (control treatment : VariantResult.t) : num :=
  (Fin 2 * (Fin 1 - cumulativeStdNormalProbability
                      (Math_abs (zScore control treatment))))%num.

(** The local [significance], before it is rounded for the result. *)
Definition rawSignificance (control treatment : VariantResult.t) : num :=
  ((Fin 1 - pValue control treatment) * Fin 100)%num.

(** The arithmetic cannot throw, so the [catch] branch of the method is
    never taken and is left out. *)
Definition performStatisticalAnalysis (variants : list VariantResult.t)
    (confidenceLevel : num) : Analysis :=
  match variants with
  | [control; treatment] =>
      let p1 := rate control in
      let p2 := rate treatment in
      let significance := rawSignificance control treatment in
      let requiredSignificance := confidenceLevel in
      let '(winner, recommendation) :=
        if (significance >=? requiredSignificance)%num then
          let betterVariant := if (p2 >? p1)%num then treatment else control in
          let improvement := (Math_abs ((p2 - p1) / p1) * Fin 100)%num in
          (Some {| variantId := VariantResult.id betterVariant;
                   variantName := VariantResult.name betterVariant;
                   improvement := (Math_round (improvement * Fin 100) / Fin 100)%num |},
           VariantResult.name betterVariant
             +:+ " is significantly better. Implement this variant.")
        else if (significance >=? Fin 80)%num then
          (None, "Test showing promising results but needs more data")
        else
          (None, "Continue test - not enough data for conclusive results") in
      {| significance := (Math_round (significance * Fin 100) / Fin 100)%num;
         winner := winner;
         recommendation := recommendation |}
  | _ =>
      {| significance := Fin 0;
         winner := None;
         recommendation := "Statistical analysis only supported for 2-variant tests" |}
  end.

Definition calculateConfidenceInterval (conversions impressions : Z)
    (confidenceLevel : num) : Interval :=
  if impressions =? 0 then {| lower := Fin 0; upper := Fin 0 |}
  else
    let p := (ofZ conversions / ofZ impressions)%num in
    let z := probit ((Fin 1 + confidenceLevel / Fin 100) / Fin 2)%num in
    let margin := (z * Math_sqrt ((p * (Fin 1 - p)) / ofZ impressions))%num in
    {| lower := Math_max (Fin 0) (Math_round ((p - margin) * Fin 10000) / Fin 100)%num;
       upper := Math_min (Fin 100) (Math_round ((p + margin) * Fin 10000) / Fin 100)%num |}.

(** The guard in front of the analysis. *)
Definition enoughData (variantResults : list VariantResult.t) (minSampleSize : Z) : bool :=
  (2 <=? Z.of_nat (length variantResults))
  && forallb (fun v => VariantResult.impressions v >=? minSampleSize) variantResults.

Definition withConfidence (confidenceLevel : num) (variant : VariantResult.t)
    : VariantResult.t :=
  {| VariantResult.id := VariantResult.id variant;
     VariantResult.name := VariantResult.name variant;
     VariantResult.impressions := VariantResult.impressions variant;
     VariantResult.clicks := VariantResult.clicks variant;
     VariantResult.conversions := VariantResult.conversions variant;
     VariantResult.revenue := VariantResult.revenue variant;
     VariantResult.conversionRate := VariantResult.conversionRate variant;
     VariantResult.revenuePerConversion := VariantResult.revenuePerConversion variant;
     VariantResult.confidence :=
       Some (calculateConfidenceInterval (VariantResult.conversions variant)
               (VariantResult.impressions variant) confidenceLevel) |}.

Definition getTestResults (testId : string) : M Results.t :=
  test ← findUniqueTest testId;
  match test with
  | None => throw "Test not found"
  | Some (t, variants) =>
      let variantResults := map variantResult variants in
      if enoughData variantResults (Test.minSampleSize t) then
        let analysis :=
          performStatisticalAnalysis variantResults (Fin (Test.confidenceLevel t)) in
        mret {| Results.testId := Test.id t;
                Results.status := Test.status t;
                Results.variants :=
                  map (withConfidence (Fin (Test.confidenceLevel t))) variantResults;
                Results.winner := winner analysis;
                Results.statisticalSignificance := Some (significance analysis);
                Results.recommendedAction := Some (recommendation analysis);
                Results.startDate := Test.startDate t;
                Results.endDate := Test.endDate t |}
      else
        mret {| Results.testId := Test.id t;
                Results.status := Test.status t;
                Results.variants := variantResults;
                Results.winner := None;
                Results.statisticalSignificance := None;
                Results.recommendedAction := None;
                Results.startDate := Test.startDate t;
                Results.endDate := Test.endDate t |}
  end.

End WithNumerics.

End AbTest.

(* ===================================================================== *)
(** * customScoringService.ts *)
(* ===================================================================== *)

Module Scoring.
Import Js.

(** A value stored under a key of the [LeadFeatures] object. *)
Inductive FeatureValue :=
| VUndefined
| VNull
| VNumber (q : Q)
| VBoolean (b : bool)
| VArray (items : list string)
| VOther (s : string).

(** The object as its entries, in insertion order. *)
Definition LeadFeatures := list (string * FeatureValue).

Inductive Category := hot | warm | cold.

Module Thresholds.
Record t := { hot : Q; warm : Q; cold : Q }.
End Thresholds.

Module Algorithm.
Record t := {
  name : string;
  weights : gmap string Q;
  thresholds : Thresholds.t
}.
End Algorithm.

Record Impact := {
  feature : string;
  impact : num;
  value : FeatureValue
}.

Record Explanation := {
  topFactors : list Impact;
  reasoning : string
}.

Module ScoringResult.
Record t := {
  score : num;
  confidence : num;
  category : Category;
  features : LeadFeatures;
  explanation : Explanation
}.
End ScoringResult.

(** [value !== undefined && value !== null] *)
Definition isPresent (value : FeatureValue) : bool :=
  match value with
  | VUndefined | VNull => false
  | _ => true
  end.

Definition normalizeFeatureValue (value : FeatureValue) : num :=
  match value with
  | VNumber q => Math_min (Fin 1) (Math_max (Fin 0) (Fin q / Fin 100)%num)
  | VBoolean b => if b then Fin 1 else Fin 0
  | VArray items => Math_min (Fin 1) (ofNat (length items) / Fin 10)%num
  | VUndefined | VNull | VOther _ => Fin 0
  end.

(** The locals [totalScore], [totalWeight] and [impacts] of
    [applyAlgorithm]. *)
Record Sums := {
  totalScore : num;
  totalWeight : num;
  impacts : list Impact
}.

(** The callback of [Object.entries(features).forEach]: [weights[feature]]
    is [undefined] for a key the weight map does not have. *)
Definition accumulate (weights : gmap string Q) (acc : Sums)
    (entry : string * FeatureValue) : Sums :=
  let '(feature, value) := entry in
  match weights !! feature with
  | Some w =>
      if truthy (Fin w) && isPresent value then
        let normalizedValue := normalizeFeatureValue value in
        let weight := Fin w in
        let impact := (normalizedValue * weight)%num in
        {| totalScore := (totalScore acc + impact)%num;
           totalWeight := (totalWeight acc + weight)%num;
           impacts := impacts acc
                      ++ [{| feature := feature;
                             impact := (Math_round (impact * Fin 100) / Fin 100)%num;
                             value := value |}] |}
      else acc
  | None => acc
  end.

Definition weightedSum (features : LeadFeatures) (weights : gmap string Q) : Sums :=
  fold_left (accumulate weights) features
    {| totalScore := Fin 0; totalWeight := Fin 0; impacts := [] |}.

(** [impacts.sort((a, b) => Math.abs(b.impact) - Math.abs(a.impact))]:
    the sort is stable, so it is the insertion of each element, from the
    last to the first, in front of the first element that the comparator
    does not put strictly before it. *)
Definition compareImpact (a b : Impact) : num :=
  (Math_abs (impact b) - Math_abs (impact a))%num.

Fixpoint insertImpact (x : Impact) (sorted : list Impact) : list Impact :=
  match sorted with
  | [] => [x]
  | y :: rest =>
      if (compareImpact y x <? Fin 0)%num then y :: insertImpact x rest
      else x :: sorted
  end.

Definition sortImpacts (l : list Impact) : list Impact :=
  fold_right insertImpact [] l.

Definition categoryName (c : Category) : string :=
  match c with hot => "hot" | warm => "warm" | cold => "cold" end.

Fixpoint join (sep : string) (parts : list string) : string :=
  match parts with
  | [] => ""
  | [p] => p
  | p :: rest => p +:+ sep +:+ join sep rest
  end.

(** The local [finalScore]. *)
Definition finalScore (sums : Sums) : num :=
  if (totalWeight sums >? Fin 0)%num
  then ((totalScore sums / totalWeight sums) * Fin 100)%num
  else Fin 0.

Definition categorize (finalScore : num) (thresholds : Thresholds.t) : Category :=
  if (finalScore >=? Fin (Thresholds.hot thresholds))%num then hot
  else if (finalScore >=? Fin (Thresholds.warm thresholds))%num then warm
  else cold.

(** [Object.values(features).filter(v => v !== undefined && v !== null).length] *)
Definition presentCount (features : LeadFeatures) : nat :=
  length (filter (fun v => isPresent v = true) (map snd features)).

Definition featureCompleteness (features : LeadFeatures) (weights : gmap string Q) : num :=
  (ofNat (presentCount features) / ofNat (size weights))%num.

Section WithFormat.
Context `{NumberFormat}.

Definition generateReasoning (score : num) (category : Category)
    (topFactors : list Impact) : string :=
  let reasoning :=
    "Lead scored " +:+ Number_toString score +:+ "/100, categorized as "
    +:+ categoryName category +:+ ". " in
  let reasoning :=
    if (0 <? length topFactors)%nat then
      reasoning +:+ "Key factors: "
      +:+ join ", "
            (map (fun f => feature f +:+ " ("
                           +:+ (if (impact f >? Fin 0)%num then "+" else "")
                           +:+ Number_toString (impact f) +:+ ")")
                 topFactors)
    else reasoning in
  match category with
  | hot => reasoning +:+ ". High-priority lead - immediate outreach recommended."
  | warm => reasoning +:+ ". Moderate-priority lead - targeted nurturing recommended."
  | cold => reasoning +:+ ". Low-priority lead - automated nurturing or disqualification."
  end.

Definition applyAlgorithm (features : LeadFeatures) (algorithm : Algorithm.t)
    : ScoringResult.t :=
  let weights := Algorithm.weights algorithm in
  let thresholds := Algorithm.thresholds algorithm in
  let sums := weightedSum features weights in
  let finalScore := finalScore sums in
  let category := categorize finalScore thresholds in
  let impacts := sortImpacts (impacts sums) in
  let confidence :=
    Math_min (Fin 1) (featureCompleteness features weights * lit (12 # 10))%num in
  {| ScoringResult.score := (Math_round (finalScore * Fin 100) / Fin 100)%num;
     ScoringResult.confidence := (Math_round (confidence * Fin 100) / Fin 100)%num;
     ScoringResult.category := category;
     ScoringResult.features := features;
     ScoringResult.explanation :=
       {| topFactors := take 5 impacts;
          reasoning := generateReasoning finalScore category (take 3 impacts) |} |}.

End WithFormat.

End Scoring.

(* ===================================================================== *)
(** * CampaignAnalyticsService.calculateCampaignMetrics *)
(* ===================================================================== *)

Module Campaign.
Import Js.

Module ExecutionStatus.
Inductive t :=
  PENDING | SENT | DELIVERED | OPENED | CLICKED | REPLIED | FAILED | BOUNCED | CONVERTED.
End ExecutionStatus.

Module EmailEventType.
Inductive t :=
  SENT | DELIVERED | OPENED | CLICKED | REPLIED | BOUNCED | UNSUBSCRIBED
| MARKED_SPAM | CONVERTED.
End EmailEventType.

Module Execution.
Record t := {
  status : ExecutionStatus.t;
  openedAt : option Z;
  clickedAt : option Z;
  repliedAt : option Z;
  convertedAt : option Z;
  revenue : option Q;
  emailEvents : list EmailEventType.t
}.
End Execution.

Record t := {
  id : string;
  name : string;
  type : string;
  createdAt : Z;
  executions : list Execution.t
}.

Module Metrics.
Record t := {
  campaignId : string;
  campaignName : string;
  type : string;
  totalSent : nat;
  totalDelivered : nat;
  totalOpened : nat;
  totalClicked : nat;
  totalReplied : nat;
  totalBounced : nat;
  totalUnsubscribed : nat;
  totalConverted : nat;
  totalRevenue : num;
  deliveryRate : num;
  openRate : num;
  clickRate : num;
  replyRate : num;
  bounceRate : num;
  unsubscribeRate : num;
  conversionRate : num;
  averageRevenuePerLead : num;
  createdAt : Z;
  lastUpdated : Z
}.
End Metrics.

Record Db := {
  campaign : list t;
  campaignAnalytics : gmap string Metrics.t
}.

Definition isDelivered (e : Execution.t) : bool :=
  match Execution.status e with
  | ExecutionStatus.FAILED | ExecutionStatus.BOUNCED => false
  | _ => true
  end.

Definition isBounced (e : Execution.t) : bool :=
  match Execution.status e with
  | ExecutionStatus.BOUNCED => true
  | _ => false
  end.

(** A [Date] is an object, so a set timestamp is true in a condition. *)
Definition isSet {A} (d : option A) : bool :=
  match d with Some _ => true | None => false end.

(** [e.convertedAt && e.revenue && e.revenue > 0] *)
Definition isConverted (e : Execution.t) : bool :=
  isSet (Execution.convertedAt e)
  && match Execution.revenue e with
     | Some r => truthy (Fin r) && (Fin r >? Fin 0)%num
     | None => false
     end.

Definition isUnsubscribed (ev : EmailEventType.t) : bool :=
  match ev with EmailEventType.UNSUBSCRIBED => true | _ => false end.

(** [execution.revenue || 0] *)
Definition revenueOrZero (e : Execution.t) : num :=
  match Execution.revenue e with
  | Some r => if truthy (Fin r) then Fin r else Fin 0
  | None => Fin 0
  end.

Definition count {A} (p : A -> bool) (l : list A) : nat :=
  length (List.filter p l).

(** [storeCampaignAnalytics]: an upsert by [campaignId]; it catches and
    logs its own failures. *)
Definition storeCampaignAnalytics (metrics : Metrics.t) (db : Db) : Db :=
  {| campaign := campaign db;
     campaignAnalytics := <[Metrics.campaignId metrics := metrics]> (campaignAnalytics db) |}.

Definition computeMetrics (c : t) (now : Z) : Metrics.t :=
  let executions := executions c in
  let totalSent := length executions in
  let totalDelivered := count isDelivered executions in
  let totalOpened := count (fun e => isSet (Execution.openedAt e)) executions in
  let totalClicked := count (fun e => isSet (Execution.clickedAt e)) executions in
  let totalReplied := count (fun e => isSet (Execution.repliedAt e)) executions in
  let totalBounced := count isBounced executions in
  let totalConverted := count isConverted executions in
  let totalUnsubscribed :=
    fold_left (fun n execution =>
                 (n + count isUnsubscribed (Execution.emailEvents execution))%nat)
              executions 0%nat in
  let totalRevenue :=
    fold_left (fun sum execution => (sum + revenueOrZero execution)%num)
              executions (Fin 0) in
  let deliveryRate :=
    if (0 <? totalSent)%nat then (ofNat totalDelivered / ofNat totalSent * Fin 100)%num
    else Fin 0 in
  let openRate :=
    if (0 <? totalDelivered)%nat then (ofNat totalOpened / ofNat totalDelivered * Fin 100)%num
    else Fin 0 in
  let clickRate :=
    if (0 <? totalOpened)%nat then (ofNat totalClicked / ofNat totalOpened * Fin 100)%num
    else Fin 0 in
  let replyRate :=
    if (0 <? totalDelivered)%nat then (ofNat totalReplied / ofNat totalDelivered * Fin 100)%num
    else Fin 0 in
  let bounceRate :=
    if (0 <? totalSent)%nat then (ofNat totalBounced / ofNat totalSent * Fin 100)%num
    else Fin 0 in
  let unsubscribeRate :=
    if (0 <? totalDelivered)%nat
    then (ofNat totalUnsubscribed / ofNat totalDelivered * Fin 100)%num
    else Fin 0 in
  let conversionRate :=
    if (0 <? totalDelivered)%nat
    then (ofNat totalConverted / ofNat totalDelivered * Fin 100)%num
    else Fin 0 in
  let averageRevenuePerLead :=
    if (0 <? totalConverted)%nat then (totalRevenue / ofNat totalConverted)%num
    else Fin 0 in
  {| Metrics.campaignId := id c;
     Metrics.campaignName := name c;
     Metrics.type := type c;
     Metrics.totalSent := totalSent;
     Metrics.totalDelivered := totalDelivered;
     Metrics.totalOpened := totalOpened;
     Metrics.totalClicked := totalClicked;
     Metrics.totalReplied := totalReplied;
     Metrics.totalBounced := totalBounced;
     Metrics.totalUnsubscribed := totalUnsubscribed;
     Metrics.totalConverted := totalConverted;
     Metrics.totalRevenue := totalRevenue;
     Metrics.deliveryRate := (Math_round (deliveryRate * Fin 100) / Fin 100)%num;
     Metrics.openRate := (Math_round (openRate * Fin 100) / Fin 100)%num;
     Metrics.clickRate := (Math_round (clickRate * Fin 100) / Fin 100)%num;
     Metrics.replyRate := (Math_round (replyRate * Fin 100) / Fin 100)%num;
     Metrics.bounceRate := (Math_round (bounceRate * Fin 100) / Fin 100)%num;
     Metrics.unsubscribeRate := (Math_round (unsubscribeRate * Fin 100) / Fin 100)%num;
     Metrics.conversionRate := (Math_round (conversionRate * Fin 100) / Fin 100)%num;
     Metrics.averageRevenuePerLead :=
       (Math_round (averageRevenuePerLead * Fin 100) / Fin 100)%num;
     Metrics.createdAt := createdAt c;
     Metrics.lastUpdated := now |}.

Definition calculateCampaignMetrics (campaignId : string) (now : Z) (db : Db)
    : Result (Metrics.t * Db) :=
  match find (fun c => String.eqb (id c) campaignId) (campaign db) with
  | None => Throw "Campaign not found"
  | Some c =>
      let metrics := computeMetrics c now in
      Ok (metrics, storeCampaignAnalytics metrics db)
  end.

End Campaign.

(* ===================================================================== *)
(** * abTestingService.ts: createAbTest, startAbTest, concludeTest *)
(* ===================================================================== *)

Module AbLifecycle.
Import Js AbTest.

(** [content] is [None] when the configuration has no content for the
    variant ([undefined] or [null]); the document itself is not modelled. *)
Module VariantConfig.
Record t := {
  name : string;
  content : option string;
  trafficPercent : Q
}.
End VariantConfig.

Module Config.
Record t := {
  name : string;
  campaignId : option string;
  testType : string;
  variants : list VariantConfig.t;
  confidenceLevel : Q;
  minSampleSize : Z
}.
End Config.

(** The values of the enum [AbTestType]. *)
Definition testTypes : list string :=
  ["EMAIL_SUBJECT"; "EMAIL_CONTENT"; "EMAIL_TEMPLATE"; "AD_COPY"; "LANDING_PAGE";
   "CALL_TO_ACTION"; "SEND_TIME"].

(** What the client checks before the create is sent: the test type is a
    value of the enum, the sample size fits an Int column, and every variant
    has its required content. *)
Definition validArguments (config : Config.t) : bool :=
  existsb (String.eqb (Config.testType config)) testTypes
  && (- maxInt - 1 <=? Config.minSampleSize config)
  && (Config.minSampleSize config <=? maxInt)
  && forallb (fun v => match VariantConfig.content v with Some _ => true | None => false end)
             (Config.variants config).

(** The foreign key of [campaignId]. *)
Definition campaignExists (config : Config.t) (db : Db) : bool :=
  match Config.campaignId config with
  | Some campaignId => existsb (String.eqb campaignId) (campaign db)
  | None => true
  end.

(** The rows of a nested create.  The ids are the [cuid()] defaults of the
    schema: [testId] for the experiment and [variantId k] for its k-th
    variant; status and counters are the column defaults. *)
Definition newTest (config : Config.t) (testId : string) : Test.t :=
  {| Test.id := testId;
     Test.name := Config.name config;
     Test.status := DRAFT;
     Test.confidenceLevel := Config.confidenceLevel config;
     Test.minSampleSize := Config.minSampleSize config;
     Test.startDate := None;
     Test.endDate := None |}.

Definition newVariant (testId variantId : string) (variant : VariantConfig.t) : Variant.t :=
  {| Variant.id := variantId;
     Variant.testId := testId;
     Variant.name := VariantConfig.name variant;
     Variant.trafficPercent := VariantConfig.trafficPercent variant;
     Variant.impressions := 0;
     Variant.clicks := 0;
     Variant.conversions := 0;
     Variant.revenue := 0 |}.

Definition newVariants (config : Config.t) (testId : string) (variantId : nat -> string)
    : list Variant.t :=
  imap (fun k variant => newVariant testId (variantId k) variant) (Config.variants config).

(** [createAbTest]: the traffic check, then one nested create.  The client
    refuses arguments that do not fit the schema; the database refuses the
    create as a whole when the campaign does not exist or when two variants
    of the experiment share a name ([@@unique([testId, name])]). *)
Definition createAbTest (config : Config.t) (testId : string) (variantId : nat -> string)
    : M string :=
  match createAbTest_check (map VariantConfig.trafficPercent (Config.variants config)) with
  | Throw msg => throw msg
  | Ok _ =>
      if negb (validArguments config) then throw "Invalid prisma.abTest.create() invocation"
      else
        fun db =>
          if negb (campaignExists config db) then Throw "Foreign key constraint failed"
          else if bool_decide (NoDup (map VariantConfig.name (Config.variants config))) then
            Ok (testId,
                {| abTest := abTest db ++ [newTest config testId];
                   abTestVariant := abTestVariant db ++ newVariants config testId variantId;
                   abTestResult := abTestResult db;
                   activity := activity db;
                   lead := lead db;
                   campaign := campaign db |})
          else Throw "Unique constraint failed on the fields: (testId, name)"
  end.

(** [prisma.abTest.update({ where: { id }, data })]: throws when no row has
    the id. *)
Definition updateTest (testId : string) (data : Test.t -> Test.t) : M unit :=
  fun db =>
    if existsb (fun t => String.eqb (Test.id t) testId) (abTest db)
    then Ok (tt, {| abTest :=
                      map (fun t => if String.eqb (Test.id t) testId then data t else t)
                          (abTest db);
                    abTestVariant := abTestVariant db;
                    abTestResult := abTestResult db;
                    activity := activity db;
                    lead := lead db;
                    campaign := campaign db |})
    else Throw "Record to update not found".

Definition started (now : Z) (t : Test.t) : Test.t :=
  {| Test.id := Test.id t;
     Test.name := Test.name t;
     Test.status := RUNNING;
     Test.confidenceLevel := Test.confidenceLevel t;
     Test.minSampleSize := Test.minSampleSize t;
     Test.startDate := Some now;
     Test.endDate := Test.endDate t |}.

Definition startAbTest (testId : string) (now : Z) : M unit :=
  updateTest testId (started now).

(** The columns [winningVariant] and [significance], which [concludeTest]
    also writes, are read by no method of the service and are not columns of
    [Test.t]. *)
Definition concluded (now : Z) (t : Test.t) : Test.t :=
  {| Test.id := Test.id t;
     Test.name := Test.name t;
     Test.status := COMPLETED;
     Test.confidenceLevel := Test.confidenceLevel t;
     Test.minSampleSize := Test.minSampleSize t;
     Test.startDate := Test.startDate t;
     Test.endDate := Some now |}.

Definition concludeTest `{Numerics} (testId : string) (now : Z) : M Results.t :=
  results ← getTestResults testId;
  updateTest testId (concluded now);;
  mret results.

End AbLifecycle.

(* ===================================================================== *)
(** * customScoringService.ts: from the stored lead to the stored score *)
(* ===================================================================== *)

Module LeadScoring.
Import Js Scoring.

(** ** Strings *)

(** [String.prototype.toLowerCase] on the letters A-Z; every other
    character is kept (case folding outside ASCII is not modelled). *)
Definition lowerAscii (c : Ascii.ascii) : Ascii.ascii :=
  let n := Ascii.nat_of_ascii c in
  if ((65 <=? n) && (n <=? 90))%nat then Ascii.ascii_of_nat (n + 32) else c.

Fixpoint toLowerCase (s : string) : string :=
  match s with
  | EmptyString => EmptyString
  | String c rest => String (lowerAscii c) (toLowerCase rest)
  end.

(** [s.includes(sub)] *)
Fixpoint includes (s sub : string) : bool :=
  String.prefix sub s
  || match s with
     | EmptyString => false
     | String _ rest => includes rest sub
     end.

(** The truth value of an optional string: [null] and [""] are false. *)
Definition given (s : option string) : bool :=
  match s with
  | None | Some EmptyString => false
  | Some _ => true
  end.

(** The truth value of an optional related row: an object is true. *)
Definition attached {A} (row : option A) : bool :=
  match row with Some _ => true | None => false end.

(** ** The lead with the relations [scoreLeadWithAlgorithm] includes *)

Module Company.
Record t := {
  employeeCount : option Q;
  revenue : option Q;
  technologies : option (list string)
}.
End Company.

Module Lead.
Record t := {
  email : string;
  industry : option string;
  jobTitle : option string;
  phone : option string;
  website : option string;
  linkedinUrl : option string;
  (** [enrichedData?.companyInfo] *)
  companyInfo : option Company.t;
  (** [createdAt] of each activity, in milliseconds since the epoch *)
  activities : list Z;
  (** the ids of the campaign executions *)
  campaigns : list string;
  (** the id of the form submission *)
  formSubmission : option string
}.
End Lead.

(** ** The scorers *)

Definition normalizeCompanySize (employeeCount : option Q) : Q :=
  match employeeCount with
  | None => 0
  | Some n =>
      if Qeq_bool n 0 then 0
      else if Qle_bool 1000 n then 100
      else if Qle_bool 500 n then 85
      else if Qle_bool 200 n then 70
      else if Qle_bool 50 n then 55
      else if Qle_bool 10 n then 40
      else 25
  end%Q.

Definition highValue : list string :=
  ["software"; "saas"; "technology"; "fintech"; "healthcare"; "finance"].
Definition mediumValue : list string :=
  ["retail"; "manufacturing"; "consulting"; "marketing"; "education"].

Definition getIndustryScore (industry : option string) : Q :=
  if negb (given industry) then 50
  else
    let industryLower := toLowerCase (default "" industry) in
    if existsb (fun hv => includes industryLower hv) highValue then 90
    else if existsb (fun mv => includes industryLower mv) mediumValue then 70
    else 50.

Definition getSeniorityLevel (jobTitle : option string) : Q :=
  if negb (given jobTitle) then 50
  else
    let title := toLowerCase (default "" jobTitle) in
    if includes title "ceo" || includes title "founder" || includes title "president"
    then 100
    else if includes title "vp" || includes title "vice president" then 90
    else if includes title "director" then 80
    else if includes title "manager" || includes title "head" then 70
    else if includes title "lead" || includes title "senior" then 60
    else 40.

Definition getDepartmentRelevance (jobTitle : option string) : Q :=
  if negb (given jobTitle) then 50
  else
    let title := toLowerCase (default "" jobTitle) in
    if includes title "marketing" || includes title "sales" || includes title "business"
    then 90
    else if includes title "operations" || includes title "strategy" then 80
    else if includes title "product" || includes title "technology" then 70
    else 50.

(** [Math.min] on two finite numbers. *)
Definition min2 (a b : Q) : Q := if Qle_bool a b then a else b.

Definition assessContactQuality (lead : Lead.t) : Q :=
  let quality := 50%Q in
  let quality :=
    if given (Some (Lead.email lead))
       && negb (includes (Lead.email lead) "gmail")
       && negb (includes (Lead.email lead) "yahoo")
    then (quality + 20)%Q else quality in
  let quality := if given (Lead.linkedinUrl lead) then (quality + 15)%Q else quality in
  let quality := if given (Lead.website lead) then (quality + 10)%Q else quality in
  let quality := if given (Lead.phone lead) then (quality + 5)%Q else quality in
  min2 100 quality.

(** [calculateEngagementMetrics] and [calculateResponseTime] return fixed
    placeholder values. *)
Definition emailEngagement : Q := 50.
Definition websiteVisits : Q := 0.
Definition contentDownloads : Q := 0.
Definition calculateResponseTime (activities : list Z) : Q := 50.

Definition isRecent (now : Z) (createdAt : Z) : bool :=
  now - 7 * 24 * 60 * 60 * 1000 <? createdAt.

(** [now] is the reading of [Date.now()]. *)
Definition assessBuyingIntent (lead : Lead.t) (now : Z) : Q :=
  let intent := 30%Q in
  let intent := if attached (Lead.formSubmission lead) then (intent + 40)%Q else intent in
  let intent := if (2 <? length (Lead.campaigns lead))%nat then (intent + 20)%Q else intent in
  let recentActivities := List.filter (isRecent now) (Lead.activities lead) in
  let intent :=
    (intent + min2 30 (inject_Z (Z.of_nat (length recentActivities)) * 5))%Q in
  min2 100 intent.

(** ** The tables *)

(** A row of [scoringResult], under its key [(leadId, algorithmId)]. *)
Module Stored.
Record t := {
  score : num;
  confidence : num;
  features : LeadFeatures;
  explanation : Explanation
}.
End Stored.

Module Activity.
Record t := {
  leadId : string;
  type : string;
  description : string;
  algorithmId : string;
  algorithmName : string;
  score : num;
  category : Category;
  createdAt : Z
}.
End Activity.

(** [activity] holds the activities this service has logged; the
    activities that other services logged for a lead are in the
    [Lead.activities] of its row. *)
Record Db := {
  lead : gmap string Lead.t;
  scoringAlgorithm : gmap string Algorithm.t;
  scoringResult : gmap (string * string) Stored.t;
  activity : list Activity.t
}.

(** [include: { activities: true }]: every activity row of the lead. *)
Definition activitiesOf (leadId : string) (db : Db) : list Z :=
  map Activity.createdAt
      (List.filter (fun a => String.eqb (Activity.leadId a) leadId) (activity db)).

Definition included (leadId : string) (l : Lead.t) (db : Db) : Lead.t :=
  {| Lead.email := Lead.email l;
     Lead.industry := Lead.industry l;
     Lead.jobTitle := Lead.jobTitle l;
     Lead.phone := Lead.phone l;
     Lead.website := Lead.website l;
     Lead.linkedinUrl := Lead.linkedinUrl l;
     Lead.companyInfo := Lead.companyInfo l;
     Lead.activities := Lead.activities l ++ activitiesOf leadId db;
     Lead.campaigns := Lead.campaigns l;
     Lead.formSubmission := Lead.formSubmission l |}.

(** The class has no member [normalizeRevenue]: the call in
    [extractLeadFeatures] throws. *)
Definition normalizeRevenue_missing (revenue : option Q) : Result FeatureValue :=
  Throw "TypeError: this.normalizeRevenue is not a function".

Section WithRevenue.
(** [normalizeRevenue] is called by [extractLeadFeatures] and is not a
    member of the class.  The definitions take it as an argument, so that
    they also cover a class that has the method; with the class as it is
    the argument is [normalizeRevenue_missing]. *)
Variable normalizeRevenue : option Q -> Result FeatureValue.

Definition companyFeatures (lead : Lead.t) : Result LeadFeatures :=
  match Lead.companyInfo lead with
  | Some company =>
      match normalizeRevenue (Company.revenue company) with
      | Ok revenueEstimate =>
          Ok [("companySize", VNumber (normalizeCompanySize (Company.employeeCount company)));
              ("industryScore", VNumber (getIndustryScore (Lead.industry lead)));
              ("revenueEstimate", revenueEstimate);
              ("techStack", VArray (default [] (Company.technologies company)))]
      | Throw msg => Throw msg
      end
  | None => Ok []
  end.

Definition ownFeatures (lead : Lead.t) (now : Z) : LeadFeatures :=
  [("seniorityLevel", VNumber (getSeniorityLevel (Lead.jobTitle lead)));
   ("departmentRelevance", VNumber (getDepartmentRelevance (Lead.jobTitle lead)));
   ("contactQuality", VNumber (assessContactQuality lead));
   ("emailEngagement", VNumber emailEngagement);
   ("websiteVisits", VNumber websiteVisits);
   ("contentDownloads", VNumber contentDownloads);
   ("responseTime", VNumber (calculateResponseTime (Lead.activities lead)));
   ("buyingIntent", VNumber (assessBuyingIntent lead now));
   ("campaignInteractions", VNumber (inject_Z (Z.of_nat (length (Lead.campaigns lead)))));
   ("formSubmissions", VNumber (if attached (Lead.formSubmission lead) then 1 else 0))].

Definition extractLeadFeatures (lead : Lead.t) (now : Z) : Result LeadFeatures :=
  match companyFeatures lead with
  | Ok company => Ok (company ++ ownFeatures lead now)
  | Throw msg => Throw msg
  end.

Section WithFormat.
Context `{NumberFormat}.

(** [update] and [create] of the upsert write the same four columns. *)
Definition stored (result : ScoringResult.t) : Stored.t :=
  {| Stored.score := ScoringResult.score result;
     Stored.confidence := ScoringResult.confidence result;
     Stored.features := ScoringResult.features result;
     Stored.explanation := ScoringResult.explanation result |}.

Definition scoredActivity (leadId algorithmId : string) (algorithm : Algorithm.t)
    (result : ScoringResult.t) (now : Z) : Activity.t :=
  {| Activity.leadId := leadId;
     Activity.type := "CUSTOM_SCORE_CALCULATED";
     Activity.description :=
       "Custom score calculated: " +:+ Number_toString (ScoringResult.score result)
       +:+ "/100 (" +:+ Algorithm.name algorithm +:+ ")";
     Activity.algorithmId := algorithmId;
     Activity.algorithmName := Algorithm.name algorithm;
     Activity.score := ScoringResult.score result;
     Activity.category := ScoringResult.category result;
     Activity.createdAt := now |}.

(** [now] is the clock of the call, read by [Date.now()] and by the
    database for [createdAt]. *)
Definition scoreLeadWithAlgorithm (leadId algorithmId : string) (now : Z) (db : Db)
    : Result (ScoringResult.t * Db) :=
  match lead db !! leadId, scoringAlgorithm db !! algorithmId with
  | Some l, Some algorithm =>
      match extractLeadFeatures (included leadId l db) now with
      | Ok features =>
          let result := applyAlgorithm features algorithm in
          Ok (result,
              {| lead := lead db;
                 scoringAlgorithm := scoringAlgorithm db;
                 scoringResult :=
                   <[(leadId, algorithmId) := stored result]> (scoringResult db);
                 activity :=
                   activity db
                   ++ [scoredActivity leadId algorithmId algorithm result now] |})
      | Throw msg => Throw msg
      end
  | _, _ => Throw "Lead or algorithm not found"
  end.

(** [Map.prototype.set]: a key that is there keeps its place. *)
Fixpoint mapSet {V} (key : string) (v : V) (m : list (string * V)) : list (string * V) :=
  match m with
  | [] => [(key, v)]
  | (k, v') :: rest =>
      if String.eqb k key then (k, v) :: rest else (k, v') :: mapSet key v rest
  end.

(** The loop of [batchScoreLeads]; [now i] is the clock at the [i]-th lead. *)
Fixpoint batchFrom (i : nat) (now : nat -> Z) (leadIds : list string)
    (algorithmId : string) (results : list (string * ScoringResult.t)) (db : Db)
    : list (string * ScoringResult.t) * Db :=
  match leadIds with
  | [] => (results, db)
  | leadId :: rest =>
      match scoreLeadWithAlgorithm leadId algorithmId (now i) db with
      | Ok (result, db') =>
          batchFrom (S i) now rest algorithmId (mapSet leadId result results) db'
      | Throw _ => batchFrom (S i) now rest algorithmId results db
      end
  end.

Definition batchScoreLeads (now : nat -> Z) (leadIds : list string) (algorithmId : string)
    (db : Db) : list (string * ScoringResult.t) * Db :=
  batchFrom 0 now leadIds algorithmId [] db.

End WithFormat.
End WithRevenue.

End LeadScoring.

(* ===================================================================== *)
(** * CampaignAnalyticsService: comparison and email events *)
(* ===================================================================== *)

Module CampaignEvents.
Import Js Campaign.

(** ** [getCampaignComparison] *)

(** The comparator of [metrics.sort((a, b) => b.conversionRate - a.conversionRate)];
    the sort is stable. *)
Definition compareConversion (a b : Metrics.t) : num :=
  (Metrics.conversionRate b - Metrics.conversionRate a)%num.

Fixpoint insertMetrics (x : Metrics.t) (sorted : list Metrics.t) : list Metrics.t :=
  match sorted with
  | [] => [x]
  | y :: rest =>
      if (compareConversion y x <? Fin 0)%num then y :: insertMetrics x rest
      else x :: sorted
  end.

Definition sortMetrics (l : list Metrics.t) : list Metrics.t :=
  fold_right insertMetrics [] l.

(** [Promise.all(campaignIds.map(id => this.calculateCampaignMetrics(id)))],
    one call after the other; [now i] is the clock in the [i]-th call. *)
Fixpoint calculateEach (i : nat) (now : nat -> Z) (campaignIds : list string) (db : Db)
    : Result (list Metrics.t * Db) :=
  match campaignIds with
  | [] => Ok ([], db)
  | campaignId :: rest =>
      match calculateCampaignMetrics campaignId (now i) db with
      | Ok (m, db') =>
          match calculateEach (S i) now rest db' with
          | Ok (ms, db'') => Ok (m :: ms, db'')
          | Throw msg => Throw msg
          end
      | Throw msg => Throw msg
      end
  end.

Definition getCampaignComparison (now : nat -> Z) (campaignIds : list string) (db : Db)
    : Result (list Metrics.t * Db) :=
  match calculateEach 0 now campaignIds db with
  | Ok (metrics, db') => Ok (sortMetrics metrics, db')
  | Throw msg => Throw msg
  end.

(** ** [trackEmailEvent] *)

(** A row of [campaignExecution] under its id, with its email events. *)
Module Row.
Record t := {
  id : string;
  campaignId : string;
  execution : Execution.t
}.
End Row.

Definition parseEventType (eventType : string) : option EmailEventType.t :=
  if String.eqb eventType "SENT" then Some EmailEventType.SENT
  else if String.eqb eventType "DELIVERED" then Some EmailEventType.DELIVERED
  else if String.eqb eventType "OPENED" then Some EmailEventType.OPENED
  else if String.eqb eventType "CLICKED" then Some EmailEventType.CLICKED
  else if String.eqb eventType "REPLIED" then Some EmailEventType.REPLIED
  else if String.eqb eventType "BOUNCED" then Some EmailEventType.BOUNCED
  else if String.eqb eventType "UNSUBSCRIBED" then Some EmailEventType.UNSUBSCRIBED
  else if String.eqb eventType "MARKED_SPAM" then Some EmailEventType.MARKED_SPAM
  else if String.eqb eventType "CONVERTED" then Some EmailEventType.CONVERTED
  else None.

(** [metadata?.revenue || 0] *)
Definition revenueOf (revenue : option Q) : Q :=
  match revenue with
  | Some r => if truthy (Fin r) then r else 0
  | None => 0
  end.

Definition withEvent (ev : EmailEventType.t) (e : Execution.t) : Execution.t :=
  {| Execution.status := Execution.status e;
     Execution.openedAt := Execution.openedAt e;
     Execution.clickedAt := Execution.clickedAt e;
     Execution.repliedAt := Execution.repliedAt e;
     Execution.convertedAt := Execution.convertedAt e;
     Execution.revenue := Execution.revenue e;
     Execution.emailEvents := Execution.emailEvents e ++ [ev] |}.

(** The columns [updateData] names, written into the row; an event the
    switch does not name writes nothing. *)
Definition updateData (eventType : string) (now : Z) (revenue : option Q)
    (e : Execution.t) : Execution.t :=
  if String.eqb eventType "OPENED" then
    {| Execution.status := ExecutionStatus.OPENED;
       Execution.openedAt := Some now;
       Execution.clickedAt := Execution.clickedAt e;
       Execution.repliedAt := Execution.repliedAt e;
       Execution.convertedAt := Execution.convertedAt e;
       Execution.revenue := Execution.revenue e;
       Execution.emailEvents := Execution.emailEvents e |}
  else if String.eqb eventType "CLICKED" then
    {| Execution.status := ExecutionStatus.CLICKED;
       Execution.openedAt := Execution.openedAt e;
       Execution.clickedAt := Some now;
       Execution.repliedAt := Execution.repliedAt e;
       Execution.convertedAt := Execution.convertedAt e;
       Execution.revenue := Execution.revenue e;
       Execution.emailEvents := Execution.emailEvents e |}
  else if String.eqb eventType "REPLIED" then
    {| Execution.status := ExecutionStatus.REPLIED;
       Execution.openedAt := Execution.openedAt e;
       Execution.clickedAt := Execution.clickedAt e;
       Execution.repliedAt := Some now;
       Execution.convertedAt := Execution.convertedAt e;
       Execution.revenue := Execution.revenue e;
       Execution.emailEvents := Execution.emailEvents e |}
  else if String.eqb eventType "BOUNCED" then
    {| Execution.status := ExecutionStatus.BOUNCED;
       Execution.openedAt := Execution.openedAt e;
       Execution.clickedAt := Execution.clickedAt e;
       Execution.repliedAt := Execution.repliedAt e;
       Execution.convertedAt := Execution.convertedAt e;
       Execution.revenue := Execution.revenue e;
       Execution.emailEvents := Execution.emailEvents e |}
  else if String.eqb eventType "CONVERTED" then
    {| Execution.status := ExecutionStatus.CONVERTED;
       Execution.openedAt := Execution.openedAt e;
       Execution.clickedAt := Execution.clickedAt e;
       Execution.repliedAt := Execution.repliedAt e;
       Execution.convertedAt := Some now;
       Execution.revenue := Some (revenueOf revenue);
       Execution.emailEvents := Execution.emailEvents e |}
  else e.

Definition hasId (executionId : string) (r : Row.t) : bool :=
  String.eqb (Row.id r) executionId.

(** [emailEvent.create] fails on an event type outside the enum and on an
    execution id without a row; the update follows on the same row. *)
Definition trackEmailEvent (executionId eventType : string) (revenue : option Q) (now : Z)
    (rows : list Row.t) : Result (list Row.t) :=
  match parseEventType eventType with
  | None => Throw "Invalid value for argument eventType"
  | Some ev =>
      if existsb (hasId executionId) rows then
        Ok (map (fun r =>
                   if hasId executionId r then
                     {| Row.id := Row.id r;
                        Row.campaignId := Row.campaignId r;
                        Row.execution :=
                          updateData eventType now revenue (withEvent ev (Row.execution r)) |}
                   else r) rows)
      else Throw "Foreign key constraint failed on the field: executionId"
  end.

(** [campaign.executions] of the [include]. *)
Definition executionsOf (campaignId : string) (rows : list Row.t) : list Execution.t :=
  map Row.execution (List.filter (fun r => String.eqb (Row.campaignId r) campaignId) rows).

End CampaignEvents.

(* ===================================================================== *)
(** * Facts about the rounding *)
(* ===================================================================== *)

Module Binary64Facts.
Import Binary64.

Lemma two_pos e : (0 < 2 ^ e)%Q.
Proof. apply Qpower_0_lt. reflexivity. Qed.

Lemma two_le e1 e2 : e1 <= e2 -> (2 ^ e1 <= 2 ^ e2)%Q.
Proof. intros H. apply Qpower_le_compat_l; [exact H | discriminate]. Qed.

Lemma two_lt e1 e2 : e1 < e2 -> (2 ^ e1 < 2 ^ e2)%Q.
Proof. intros H. apply Qpower_lt_compat_l; [exact H | reflexivity]. Qed.

Lemma two_plus e1 e2 : (2 ^ (e1 + e2) == 2 ^ e1 * 2 ^ e2)%Q.
Proof. apply Qpower_plus. discriminate. Qed.

Lemma two_succ e : (2 ^ (e + 1) == 2 * 2 ^ e)%Q.
Proof. rewrite two_plus. change (2 ^ 1)%Q with 2%Q. ring. Qed.

Lemma two_inject n : 0 <= n -> (inject_Z (2 ^ n) == 2 ^ n)%Q.
Proof. intros H. apply Zpower_Qpower. exact H. Qed.

(** ** The integer logarithm *)

Lemma log2_bounds (p : positive) :
  (2 ^ Z.log2 (Zpos p) <= inject_Z (Zpos p))%Q
  /\ (inject_Z (Zpos p) < 2 ^ (Z.log2 (Zpos p) + 1))%Q.
Proof.
  destruct (Z.log2_spec (Zpos p)) as [Hlo Hhi]; [lia|].
  pose proof (Z.log2_nonneg (Zpos p)) as Hn.
  split.
  - rewrite <- two_inject by exact Hn. rewrite <- Zle_Qle. exact Hlo.
  - rewrite <- two_inject by lia. rewrite <- Zlt_Qlt.
    replace (Z.log2 (Zpos p) + 1) with (Z.succ (Z.log2 (Zpos p))) by lia. exact Hhi.
Qed.

Lemma ilog2_spec (a : Q) :
  (0 < a)%Q -> (2 ^ ilog2 a <= a)%Q /\ (a < 2 ^ (ilog2 a + 1))%Q.
Proof.
  intros Ha. destruct a as [n d]. unfold ilog2. simpl Qnum. simpl Qden.
  assert (Hn : 0 < n) by (unfold Qlt in Ha; simpl in Ha; lia).
  destruct n as [|n|n]; try lia.
  destruct (log2_bounds n) as [Hn1 Hn2]. destruct (log2_bounds d) as [Hd1 Hd2].
  set (ln := Z.log2 (Zpos n)) in *. set (ld := Z.log2 (Zpos d)) in *.
  assert (Hq : (Zpos n # d == inject_Z (Zpos n) / inject_Z (Zpos d))%Q).
  { rewrite Qmake_Qdiv. reflexivity. }
  assert (Hdpos : (0 < inject_Z (Zpos d))%Q) by (rewrite <- (Zlt_Qlt 0); lia).
  assert (Hlow : (2 ^ (ln - ld - 1) < Zpos n # d)%Q).
  { rewrite Hq. apply Qlt_shift_div_l; [exact Hdpos|].
    apply Qlt_le_trans with (2 ^ (ln - ld - 1) * 2 ^ (ld + 1))%Q.
    - apply Qmult_lt_l; [apply two_pos | exact Hd2].
    - rewrite <- two_plus. replace (ln - ld - 1 + (ld + 1)) with ln by lia. exact Hn1. }
  assert (Hhigh : (Zpos n # d < 2 ^ (ln - ld + 1))%Q).
  { rewrite Hq. apply Qlt_shift_div_r; [exact Hdpos|].
    apply Qlt_le_trans with (2 ^ (ln + 1))%Q; [exact Hn2|].
    replace (ln + 1) with (ln - ld + 1 + ld) by lia. rewrite two_plus.
    apply Qmult_le_l; [apply two_pos | exact Hd1]. }
  destruct (Qle_bool (2 ^ (ln - ld)) (Zpos n # d)) eqn:E.
  - apply Qle_bool_iff in E. split; [exact E | exact Hhigh].
  - assert (E' : (Zpos n # d < 2 ^ (ln - ld))%Q).
    { apply Qnot_le_lt. intros Hle. apply Qle_bool_iff in Hle. congruence. }
    split.
    + apply Qlt_le_weak. exact Hlow.
    + replace (ln - ld - 1 + 1) with (ln - ld) by lia. exact E'.
Qed.

Lemma ilog2_unique (a : Q) (k : Z) :
  (2 ^ k <= a)%Q -> (a < 2 ^ (k + 1))%Q -> ilog2 a = k.
Proof.
  intros Hlo Hhi.
  assert (Ha : (0 < a)%Q) by (apply Qlt_le_trans with (2 ^ k)%Q; [apply two_pos | exact Hlo]).
  destruct (ilog2_spec a Ha) as [Slo Shi].
  destruct (Z.lt_trichotomy (ilog2 a) k) as [Hlt|[Heq|Hgt]]; [|exact Heq|].
  - exfalso. assert (H : (2 ^ (ilog2 a + 1) <= 2 ^ k)%Q) by (apply two_le; lia). lra.
  - exfalso. assert (H : (2 ^ (k + 1) <= 2 ^ ilog2 a)%Q) by (apply two_le; lia). lra.
Qed.

Lemma ilog2_le (a b : Q) : (0 < a)%Q -> (a <= b)%Q -> ilog2 a <= ilog2 b.
Proof.
  intros Ha Hab. assert (Hb : (0 < b)%Q) by lra.
  destruct (ilog2_spec a Ha) as [Alo Ahi]. destruct (ilog2_spec b Hb) as [Blo Bhi].
  destruct (Z_le_gt_dec (ilog2 a) (ilog2 b)) as [H|H]; [exact H|].
  exfalso. assert (Hp : (2 ^ (ilog2 b + 1) <= 2 ^ ilog2 a)%Q) by (apply two_le; lia). lra.
Qed.

Lemma ilog2_comp (a b : Q) : (0 < a)%Q -> (a == b)%Q -> ilog2 a = ilog2 b.
Proof.
  intros Ha Hab. destruct (ilog2_spec a Ha) as [Alo Ahi].
  symmetry. apply ilog2_unique; rewrite <- Hab; assumption.
Qed.

(** ** Rounding to an integer *)

Lemma rne_bounds x : (x - (1 # 2) <= inject_Z (rne x) <= x + (1 # 2))%Q.
Proof.
  unfold rne. pose proof (Qfloor_le x) as Hf. pose proof (Qlt_floor x) as Hc.
  rewrite inject_Z_plus in Hc. change (inject_Z 1) with 1%Q in Hc.
  destruct (x - inject_Z (Qfloor x) ?= 1 # 2)%Q eqn:E.
  - apply Qeq_alt in E. destruct (Z.even (Qfloor x));
      rewrite ?inject_Z_plus; change (inject_Z 1) with 1%Q; lra.
  - apply Qlt_alt in E. lra.
  - apply Qgt_alt in E. rewrite inject_Z_plus. change (inject_Z 1) with 1%Q. lra.
Qed.

Lemma rne_Z (z : Z) : rne (inject_Z z) = z.
Proof.
  unfold rne. rewrite Qfloor_Z.
  assert (E : (inject_Z z - inject_Z z ?= 1 # 2)%Q = Lt).
  { apply Qlt_alt. assert (Z0 : (inject_Z z - inject_Z z == 0)%Q) by ring.
    rewrite Z0. reflexivity. }
  rewrite E. reflexivity.
Qed.

Lemma rne_comp x y : (x == y)%Q -> rne x = rne y.
Proof.
  intros E. unfold rne.
  assert (F : Qfloor x = Qfloor y) by (apply Qfloor_comp; exact E).
  rewrite F.
  assert (C : (x - inject_Z (Qfloor y) ?= 1 # 2)%Q = (y - inject_Z (Qfloor y) ?= 1 # 2)%Q).
  { apply Qcompare_comp; [rewrite E; reflexivity | reflexivity]. }
  rewrite C. reflexivity.
Qed.

Lemma rne_le x y : (x <= y)%Q -> rne x <= rne y.
Proof.
  intros Hxy. pose proof (Qfloor_resp_le x y Hxy) as Hf.
  destruct (Z.eq_dec (Qfloor x) (Qfloor y)) as [Heq|Hne].
  - unfold rne. rewrite Heq.
    destruct (x - inject_Z (Qfloor y) ?= 1 # 2)%Q eqn:Ex;
      destruct (y - inject_Z (Qfloor y) ?= 1 # 2)%Q eqn:Ey;
      try (destruct (Z.even (Qfloor y))); try lia;
      repeat match goal with
             | H : (_ ?= _)%Q = Eq |- _ => apply Qeq_alt in H
             | H : (_ ?= _)%Q = Lt |- _ => apply Qlt_alt in H
             | H : (_ ?= _)%Q = Gt |- _ => apply Qgt_alt in H
             end; exfalso; lra.
  - assert (Hlt : Qfloor x + 1 <= Qfloor y) by lia.
    assert (Hx : rne x <= Qfloor x + 1).
    { unfold rne. destruct (x - inject_Z (Qfloor x) ?= 1 # 2)%Q;
        try destruct (Z.even (Qfloor x)); lia. }
    assert (Hy : Qfloor y <= rne y).
    { unfold rne. destruct (y - inject_Z (Qfloor y) ?= 1 # 2)%Q;
        try destruct (Z.even (Qfloor y)); lia. }
    lia.
Qed.

(** ** The magnitude of the nearest double *)

Lemma expo_ge a : -1074 <= expo a.
Proof. unfold expo. lia. Qed.

Lemma scaled_lt a : (0 < a)%Q -> (a / 2 ^ expo a < 2 ^ 53)%Q.
Proof.
  intros Ha. destruct (ilog2_spec a Ha) as [_ Hhi].
  apply Qlt_shift_div_r; [apply two_pos|].
  rewrite <- two_plus.
  apply Qlt_le_trans with (2 ^ (ilog2 a + 1))%Q; [exact Hhi|].
  apply two_le. unfold expo. lia.
Qed.

Lemma scaled_ge a : (0 < a)%Q -> -1074 < expo a -> (2 ^ 52 <= a / 2 ^ expo a)%Q.
Proof.
  intros Ha He. destruct (ilog2_spec a Ha) as [Hlo _].
  apply Qle_shift_div_l; [apply two_pos|].
  rewrite <- two_plus.
  apply Qle_trans with (2 ^ ilog2 a)%Q; [|exact Hlo].
  apply two_le. unfold expo in *. lia.
Qed.

Lemma scaled_pos a : (0 < a)%Q -> (0 < a / 2 ^ expo a)%Q.
Proof. intros Ha. apply Qlt_shift_div_l; [apply two_pos | lra]. Qed.

Lemma rne_nonneg x : (0 <= x)%Q -> 0 <= rne x.
Proof.
  intros Hx. rewrite <- (rne_Z 0). apply rne_le. exact Hx.
Qed.

Lemma mantissa_le a : (0 < a)%Q -> rne (a / 2 ^ expo a) <= 2 ^ 53.
Proof.
  intros Ha. rewrite <- (rne_Z (2 ^ 53)). apply rne_le.
  rewrite (two_inject 53) by lia. apply Qlt_le_weak. apply scaled_lt. exact Ha.
Qed.

Lemma mantissa_ge a : (0 < a)%Q -> -1074 < expo a -> 2 ^ 52 <= rne (a / 2 ^ expo a).
Proof.
  intros Ha He. rewrite <- (rne_Z (2 ^ 52)). apply rne_le.
  rewrite (two_inject 52) by lia. apply scaled_ge; assumption.
Qed.

Lemma magnitude_nonneg a : (0 < a)%Q -> (0 <= magnitude a)%Q.
Proof.
  intros Ha. unfold magnitude. apply Qmult_le_0_compat.
  - rewrite <- (Zle_Qle 0). apply rne_nonneg. apply Qlt_le_weak. apply scaled_pos. exact Ha.
  - apply Qlt_le_weak. apply two_pos.
Qed.

Lemma expo_le a b : (0 < a)%Q -> (a <= b)%Q -> expo a <= expo b.
Proof. intros Ha Hab. pose proof (ilog2_le a b Ha Hab). unfold expo. lia. Qed.

Lemma magnitude_le a b : (0 < a)%Q -> (a <= b)%Q -> (magnitude a <= magnitude b)%Q.
Proof.
  intros Ha Hab. assert (Hb : (0 < b)%Q) by lra.
  pose proof (expo_le a b Ha Hab) as He. unfold magnitude.
  destruct (Z.eq_dec (expo a) (expo b)) as [Heq|Hne].
  - rewrite Heq. apply Qmult_le_compat_r; [|apply Qlt_le_weak; apply two_pos].
    rewrite <- Zle_Qle. apply rne_le.
    apply Qmult_le_compat_r; [exact Hab|].
    apply Qlt_le_weak. apply Qinv_lt_0_compat. apply two_pos.
  - assert (Hlt : expo a < expo b) by lia.
    apply Qle_trans with (2 ^ 53 * 2 ^ expo a)%Q.
    + apply Qmult_le_compat_r; [|apply Qlt_le_weak; apply two_pos].
      rewrite <- (two_inject 53) by lia. rewrite <- Zle_Qle. apply mantissa_le. exact Ha.
    + apply Qle_trans with (2 ^ 52 * 2 ^ expo b)%Q.
      * rewrite <- !two_plus. apply two_le. lia.
      * apply Qmult_le_compat_r; [|apply Qlt_le_weak; apply two_pos].
        rewrite <- (two_inject 52) by lia. rewrite <- Zle_Qle.
        apply mantissa_ge; [exact Hb|]. pose proof (expo_ge a). lia.
Qed.

Lemma expo_comp a b : (0 < a)%Q -> (a == b)%Q -> expo a = expo b.
Proof. intros Ha E. unfold expo. rewrite (ilog2_comp a b Ha E). reflexivity. Qed.

Lemma magnitude_comp a b : (0 < a)%Q -> (a == b)%Q -> (magnitude a == magnitude b)%Q.
Proof.
  intros Ha E. unfold magnitude. rewrite (expo_comp a b Ha E).
  assert (R : rne (a / 2 ^ expo b) = rne (b / 2 ^ expo b)).
  { apply rne_comp. rewrite E. reflexivity. }
  rewrite R. reflexivity.
Qed.

(** ** The signed value *)

Lemma sval_pos q : (0 < q)%Q -> sval q = magnitude q.
Proof.
  intros H. unfold sval. destruct (q ?= 0)%Q eqn:E; [| |reflexivity].
  - apply Qeq_alt in E. lra.
  - apply Qlt_alt in E. lra.
Qed.

Lemma sval_neg q : (q < 0)%Q -> sval q = (- magnitude (- q))%Q.
Proof.
  intros H. unfold sval. destruct (q ?= 0)%Q eqn:E; [|reflexivity|].
  - apply Qeq_alt in E. lra.
  - apply Qgt_alt in E. lra.
Qed.

Lemma sval_zero q : (q == 0)%Q -> sval q = 0%Q.
Proof.
  intros H. unfold sval. destruct (q ?= 0)%Q eqn:E; [reflexivity| |].
  - apply Qlt_alt in E. lra.
  - apply Qgt_alt in E. lra.
Qed.

Lemma sval_cases q :
  ((q == 0)%Q /\ sval q = 0%Q)
  \/ ((0 < q)%Q /\ sval q = magnitude q)
  \/ ((q < 0)%Q /\ sval q = (- magnitude (- q))%Q).
Proof.
  destruct (Q_dec q 0) as [[H|H]|H].
  - right. right. split; [exact H | apply sval_neg; exact H].
  - right. left. split; [exact H | apply sval_pos; exact H].
  - left. split; [exact H | apply sval_zero; exact H].
Qed.

Lemma sval_le q1 q2 : (q1 <= q2)%Q -> (sval q1 <= sval q2)%Q.
Proof.
  intros H.
  destruct (sval_cases q1) as [[H1 E1]|[[H1 E1]|[H1 E1]]];
    destruct (sval_cases q2) as [[H2 E2]|[[H2 E2]|[H2 E2]]];
    rewrite E1, E2; try (exfalso; lra); try lra.
  - apply magnitude_nonneg. exact H2.
  - apply magnitude_le; assumption.
  - pose proof (magnitude_nonneg (- q1)). lra.
  - pose proof (magnitude_nonneg (- q1)). pose proof (magnitude_nonneg q2). lra.
  - assert (M : (magnitude (- q2) <= magnitude (- q1))%Q) by (apply magnitude_le; lra). lra.
Qed.

Lemma sval_comp q1 q2 : (q1 == q2)%Q -> (sval q1 == sval q2)%Q.
Proof.
  intros E.
  destruct (sval_cases q1) as [[H1 E1]|[[H1 E1]|[H1 E1]]];
    destruct (sval_cases q2) as [[H2 E2]|[[H2 E2]|[H2 E2]]];
    rewrite E1, E2; try (exfalso; lra); try reflexivity.
  - apply magnitude_comp; assumption.
  - apply Qopp_comp. apply magnitude_comp; [lra | rewrite E; reflexivity].
Qed.

Lemma sval_opp q : (sval (- q) == - sval q)%Q.
Proof.
  destruct (sval_cases q) as [[H1 E1]|[[H1 E1]|[H1 E1]]]; rewrite E1.
  - rewrite sval_zero by lra. reflexivity.
  - rewrite sval_neg by lra. apply Qopp_comp. apply magnitude_comp; [lra | ring].
  - rewrite sval_pos by lra. ring.
Qed.

(** ** Doubles are fixed points *)

Lemma magnitude_fixed (m e : Z) :
  1 <= m <= 2 ^ 53 -> -1074 <= e -> (2 ^ 52 <= m \/ e = -1074) ->
  (magnitude (inject_Z m * 2 ^ e) == inject_Z m * 2 ^ e)%Q.
Proof.
  intros Hm He Hn. set (a := (inject_Z m * 2 ^ e)%Q).
  assert (Hmq : (1 <= inject_Z m <= 2 ^ 53)%Q).
  { rewrite <- (two_inject 53) by lia. split; [rewrite <- (Zle_Qle 1) | rewrite <- Zle_Qle]; lia. }
  pose proof (two_pos e) as Hpe.
  assert (Ha : (0 < a)%Q).
  { unfold a. apply Qmult_lt_0_compat; lra. }
  assert (Hdiv : forall k, (a / 2 ^ k == inject_Z m * 2 ^ (e - k))%Q).
  { intros k. unfold a. replace (e - k) with (e + - k) by lia.
    rewrite two_plus, Qpower_opp. field. pose proof (two_pos k). lra. }
  destruct (Z.eq_dec m (2 ^ 53)) as [Htop|Hnot].
  - assert (Ea : (a == 2 ^ (53 + e))%Q).
    { unfold a. rewrite Htop, (two_inject 53) by lia. rewrite two_plus. reflexivity. }
    assert (Hl : ilog2 a = 53 + e).
    { apply ilog2_unique; rewrite Ea; [lra|]. apply two_lt. lia. }
    assert (Hx : expo a = e + 1) by (unfold expo; lia).
    unfold magnitude. fold a. rewrite Hx.
    assert (R : rne (a / 2 ^ (e + 1)) = 2 ^ 52).
    { rewrite <- (rne_Z (2 ^ 52)). apply rne_comp.
      rewrite (two_inject 52) by lia. rewrite Ea.
      replace (53 + e) with (52 + (e + 1)) by lia. rewrite two_plus.
      field. pose proof (two_pos (e + 1)). lra. }
    rewrite R, (two_inject 52) by lia. rewrite <- two_plus, Ea.
    replace (52 + (e + 1)) with (53 + e) by lia. reflexivity.
  - assert (Hx : expo a = e).
    { destruct Hn as [Hnorm| ->].
      - assert (Hl : ilog2 a = 52 + e).
        { apply ilog2_unique.
          - unfold a. rewrite two_plus.
            apply Qmult_le_compat_r; [|lra].
            rewrite <- (two_inject 52) by lia. rewrite <- Zle_Qle. exact Hnorm.
          - unfold a. replace (52 + e + 1) with (53 + e) by lia. rewrite two_plus.
            apply Qmult_lt_compat_r; [exact Hpe|].
            rewrite <- (two_inject 53) by lia. rewrite <- Zlt_Qlt. lia. }
        unfold expo. lia.
      - destruct (ilog2_spec a Ha) as [Hlo _].
        assert (Hup : (a < 2 ^ (53 + -1074))%Q).
        { unfold a. rewrite two_plus.
          apply Qmult_lt_compat_r; [exact Hpe|].
          rewrite <- (two_inject 53) by lia. rewrite <- Zlt_Qlt. lia. }
        assert (Hl : ilog2 a < 53 + -1074).
        { apply (Qpower_lt_compat_l_inv 2); [lra | reflexivity]. }
        unfold expo. lia. }
    unfold magnitude. fold a. rewrite Hx.
    assert (R : rne (a / 2 ^ e) = m).
    { transitivity (rne (inject_Z m)); [|apply rne_Z].
      apply rne_comp. rewrite Hdiv.
      replace (e - e) with 0 by lia. change (2 ^ 0)%Q with 1%Q. ring. }
    rewrite R. reflexivity.
Qed.

(** The rounded magnitude is 0 or a mantissa of at most 53 bits on an
    exponent of at least -1074. *)
Lemma magnitude_shape a :
  (0 < a)%Q ->
  exists m e,
    (magnitude a == inject_Z m * 2 ^ e)%Q
    /\ 0 <= m <= 2 ^ 53 /\ -1074 <= e /\ (2 ^ 52 <= m \/ e = -1074).
Proof.
  intros Ha. exists (rne (a / 2 ^ expo a)), (expo a).
  split; [reflexivity|]. split.
  - split; [|apply mantissa_le; exact Ha].
    apply rne_nonneg. apply Qlt_le_weak. apply scaled_pos. exact Ha.
  - split; [apply expo_ge|].
    destruct (Z.eq_dec (expo a) (-1074)) as [E|E]; [right; exact E|].
    left. apply mantissa_ge; [exact Ha|]. pose proof (expo_ge a). lia.
Qed.

Lemma sval_idem q : (sval (sval q) == sval q)%Q.
Proof.
  assert (Hpos : forall a, (0 < a)%Q -> (sval (magnitude a) == magnitude a)%Q).
  { intros a Ha. destruct (magnitude_shape a Ha) as [m [e [Em [Hm [He Hn]]]]].
    destruct (Z.eq_dec m 0) as [->|Hm0].
    - assert (Z0 : (magnitude a == 0)%Q) by (rewrite Em; ring).
      rewrite (sval_zero _ Z0). symmetry. exact Z0.
    - assert (Hp : (0 < magnitude a)%Q).
      { rewrite Em. apply Qmult_lt_0_compat; [|apply two_pos].
        rewrite <- (Zlt_Qlt 0). lia. }
      rewrite (sval_pos _ Hp).
      rewrite (magnitude_comp _ _ Hp Em), Em.
      apply magnitude_fixed; [lia | exact He | exact Hn]. }
  destruct (sval_cases q) as [[H1 E1]|[[H1 E1]|[H1 E1]]]; rewrite E1.
  - rewrite sval_zero; reflexivity.
  - apply Hpos. exact H1.
  - rewrite sval_opp. apply Qopp_comp. apply Hpos. lra.
Qed.

(** ** The grid *)

Definition onGrid (v : Q) : Prop := exists z : Z, (v == inject_Z z * 2 ^ (-1074))%Q.

Lemma sval_onGrid q : onGrid (sval q).
Proof.
  assert (Hpos : forall a, (0 < a)%Q -> onGrid (magnitude a)).
  { intros a Ha. destruct (magnitude_shape a Ha) as [m [e [Em [Hm [He Hn]]]]].
    exists (m * 2 ^ (e + 1074)). rewrite Em, inject_Z_mult.
    rewrite (two_inject (e + 1074)) by lia.
    rewrite <- Qmult_assoc, <- two_plus.
    replace (e + 1074 + -1074) with e by lia. reflexivity. }
  destruct (sval_cases q) as [[H1 E1]|[[H1 E1]|[H1 E1]]]; rewrite E1.
  - exists 0. ring.
  - apply Hpos. exact H1.
  - destruct (Hpos (- q)%Q) as [z Hz]; [lra|]. exists (- z).
    rewrite Hz, inject_Z_opp. ring.
Qed.

Lemma onGrid_sub a b : onGrid a -> onGrid b -> onGrid (a - b).
Proof.
  intros [x Hx] [y Hy]. exists (x - y). rewrite Hx, Hy.
  unfold Z.sub. rewrite inject_Z_plus, inject_Z_opp. ring.
Qed.

Lemma sval_unit : (sval (2 ^ (-1074)) == 2 ^ (-1074))%Q.
Proof.
  rewrite sval_pos by apply two_pos.
  assert (E : (2 ^ (-1074) == inject_Z 1 * 2 ^ (-1074))%Q) by ring.
  rewrite (magnitude_comp _ _ (two_pos _) E) at 1. rewrite E at 2.
  apply magnitude_fixed; [lia | lia | right; reflexivity].
Qed.

(** A non-zero point of the grid does not round to 0. *)
Lemma sval_grid_neg v : onGrid v -> (v < 0)%Q -> (sval v < 0)%Q.
Proof.
  intros [z Hz] Hv. pose proof (two_pos (-1074)) as Hu.
  assert (Hzn : z < 0).
  { destruct (Z_lt_ge_dec z 0) as [H|H]; [exact H|]. exfalso.
    assert (0 <= inject_Z z)%Q by (rewrite <- (Zle_Qle 0); lia).
    assert (0 <= inject_Z z * 2 ^ (-1074))%Q by (apply Qmult_le_0_compat; lra). lra. }
  assert (Hle : (v <= - 2 ^ (-1074))%Q).
  { rewrite Hz.
    assert (Hz1 : (inject_Z z <= -1)%Q).
    { change (-1)%Q with (inject_Z (-1)). rewrite <- Zle_Qle. lia. }
    assert (M : (inject_Z z * 2 ^ (-1074) <= (-1) * 2 ^ (-1074))%Q)
      by (apply Qmult_le_compat_r; lra). lra. }
  apply sval_le in Hle. rewrite sval_opp, sval_unit in Hle. lra.
Qed.

Lemma sval_grid_pos v : onGrid v -> (0 < v)%Q -> (0 < sval v)%Q.
Proof.
  intros [z Hz] Hv.
  assert (G : onGrid (- v)) by (exists (- z); rewrite Hz, inject_Z_opp; ring).
  pose proof (sval_grid_neg (- v) G ltac:(lra)) as H. rewrite sval_opp in H. lra.
Qed.

Lemma onGrid_comp a b : (a == b)%Q -> onGrid a -> onGrid b.
Proof. intros E [z Hz]. exists z. rewrite <- E. exact Hz. Qed.

End Binary64Facts.

(* ===================================================================== *)
(** * Facts about numbers *)
(* ===================================================================== *)

Module JsFacts.
Import Binary64 Binary64Facts Js.

Lemma eqv_refl a : eqv a a.
Proof. destruct a; simpl; auto. reflexivity. Qed.

Lemma fin_eqv q : eqv (fin q) (Fin q).
Proof. unfold fin; simpl. apply Qred_correct. Qed.

Lemma Qeq_bool_false_iff (x y : Q) : Qeq_bool x y = false <-> ~ (x == y)%Q.
Proof.
  split.
  - intros E Heq. apply Qeq_bool_iff in Heq. congruence.
  - intros Hne. destruct (Qeq_bool x y) eqn:E; [|reflexivity].
    apply Qeq_bool_iff in E. contradiction.
Qed.

Lemma Qle_bool_false_iff (x y : Q) : Qle_bool x y = false <-> (y < x)%Q.
Proof.
  split.
  - intros E. apply Qnot_le_lt. intros Hle. apply Qle_bool_iff in Hle. congruence.
  - intros Hlt. destruct (Qle_bool x y) eqn:E; [|reflexivity].
    apply Qle_bool_iff in E. lra.
Qed.

Lemma ofNat_Fin n : ofNat n = Fin (inject_Z (Z.of_nat n)).
Proof. reflexivity. Qed.

Lemma inject_nat_pos n : (0 < n)%nat -> (0 < inject_Z (Z.of_nat n))%Q.
Proof. intros Hn. change 0%Q with (inject_Z 0). rewrite <- Zlt_Qlt. lia. Qed.

Lemma inject_nat_nonneg n : (0 <= inject_Z (Z.of_nat n))%Q.
Proof. change 0%Q with (inject_Z 0). rewrite <- Zle_Qle. lia. Qed.

(** ** Rounded results *)

Lemma huge_pos : (0 < huge)%Q.
Proof. apply two_pos. Qed.

(** The three outcomes of a rounding. *)
Lemma rnd_cases q :
  (rnd q = PosInf /\ (huge <= sval q)%Q)
  \/ (rnd q = NegInf /\ (sval q <= - huge)%Q)
  \/ (rnd q = Fin (Qred (sval q)) /\ (- huge < sval q)%Q /\ (sval q < huge)%Q).
Proof.
  unfold rnd. cbv zeta. pose proof huge_pos as Hh.
  destruct (Qle_bool huge (sval q)) eqn:E1.
  - left. apply Qle_bool_iff in E1. auto.
  - apply Qle_bool_false_iff in E1.
    destruct (Qle_bool (sval q) (- huge)) eqn:E2.
    + right. left. apply Qle_bool_iff in E2. auto.
    + right. right. apply Qle_bool_false_iff in E2. auto.
Qed.

Lemma rnd_not_NaN q : rnd q <> NaN.
Proof.
  destruct (rnd_cases q) as [[E _]|[[E _]|[E _]]]; rewrite E; discriminate.
Qed.

Lemma rnd_comp q1 q2 : (q1 == q2)%Q -> rnd q1 = rnd q2.
Proof.
  intros E. pose proof (sval_comp q1 q2 E) as Es. unfold rnd. cbv zeta.
  assert (B1 : Qle_bool huge (sval q1) = Qle_bool huge (sval q2)).
  { destruct (Qle_bool huge (sval q2)) eqn:B.
    - apply Qle_bool_iff. apply Qle_bool_iff in B. lra.
    - apply Qle_bool_false_iff. apply Qle_bool_false_iff in B. lra. }
  assert (B2 : Qle_bool (sval q1) (- huge) = Qle_bool (sval q2) (- huge)).
  { destruct (Qle_bool (sval q2) (- huge)) eqn:B.
    - apply Qle_bool_iff. apply Qle_bool_iff in B. lra.
    - apply Qle_bool_false_iff. apply Qle_bool_false_iff in B. lra. }
  rewrite B1, B2. rewrite (Qred_complete _ _ Es). reflexivity.
Qed.

(** Rounding is monotone. *)
Lemma rnd_le q1 q2 : (q1 <= q2)%Q -> (rnd q1 <=? rnd q2)%num = true.
Proof.
  intros H. pose proof (sval_le q1 q2 H) as Hs. pose proof huge_pos as Hh.
  destruct (rnd_cases q1) as [[E1 B1]|[[E1 B1]|[E1 [B1 C1]]]];
    destruct (rnd_cases q2) as [[E2 B2]|[[E2 B2]|[E2 [B2 C2]]]];
    rewrite E1, E2; simpl; try reflexivity; try (exfalso; lra).
  apply Qle_bool_iff. rewrite !Qred_correct. exact Hs.
Qed.

(** A rational that is a double: rounding leaves it as it is. *)
Definition isDouble (q : Q) : Prop := rnd q = Fin (Qred q).

Lemma isDouble_iff q :
  isDouble q <-> (sval q == q)%Q /\ (- huge < q)%Q /\ (q < huge)%Q.
Proof.
  unfold isDouble. split.
  - intros E. destruct (rnd_cases q) as [[E1 _]|[[E1 _]|[E1 [B C]]]];
      rewrite E1 in E; try discriminate.
    injection E as E. assert (Es : (sval q == q)%Q).
    { transitivity (Qred (sval q)); [symmetry; apply Qred_correct|].
      rewrite E. apply Qred_correct. }
    split; [exact Es|]. rewrite <- Es. auto.
  - intros [Es [B C]].
    destruct (rnd_cases q) as [[E1 B1]|[[E1 B1]|[E1 _]]]; try (exfalso; lra).
    rewrite E1. rewrite (Qred_complete _ _ Es). reflexivity.
Qed.

Lemma isDouble_comp q1 q2 : (q1 == q2)%Q -> isDouble q1 -> isDouble q2.
Proof.
  intros E H. unfold isDouble in *. rewrite <- (rnd_comp _ _ E), H.
  rewrite (Qred_complete _ _ E). reflexivity.
Qed.

Lemma isDouble_onGrid q : isDouble q -> onGrid q.
Proof.
  intros H. apply isDouble_iff in H. destruct H as [Es _].
  destruct (sval_onGrid q) as [z Hz]. exists z. rewrite <- Es. exact Hz.
Qed.

(** A finite result of a rounding is a double. *)
Lemma rnd_double q v : rnd q = Fin v -> isDouble v.
Proof.
  intros E. destruct (rnd_cases q) as [[E1 _]|[[E1 _]|[E1 [B C]]]];
    rewrite E1 in E; try discriminate.
  injection E as <-. apply isDouble_iff.
  pose proof (Qred_correct (sval q)) as R.
  split; [|rewrite R; auto].
  rewrite (sval_comp _ _ R), R. apply sval_idem.
Qed.

Lemma isDouble_opp q : isDouble q -> isDouble (- q).
Proof.
  intros H. apply isDouble_iff in H. destruct H as [Es [B C]].
  apply isDouble_iff. split; [rewrite sval_opp, Es; reflexivity | lra].
Qed.

Lemma isDouble_0 : isDouble 0.
Proof. vm_compute. reflexivity. Qed.

Lemma isDouble_1 : isDouble 1.
Proof. vm_compute. reflexivity. Qed.

Lemma isDouble_100 : isDouble 100.
Proof. vm_compute. reflexivity. Qed.

Lemma isDouble_10000 : isDouble 10000.
Proof. vm_compute. reflexivity. Qed.

Lemma rnd_isDouble q : isDouble q -> eqv (rnd q) (Fin q).
Proof. intros H. rewrite H. simpl. apply Qred_correct. Qed.

(** Between two doubles the rounding is finite and stays between them. *)
Lemma rnd_between lo hi q :
  isDouble lo -> isDouble hi -> (lo <= q)%Q -> (q <= hi)%Q -> within lo hi (rnd q).
Proof.
  intros Hlo Hhi H1 H2.
  apply isDouble_iff in Hlo. destruct Hlo as [El [Bl Cl]].
  apply isDouble_iff in Hhi. destruct Hhi as [Eh [Bh Ch]].
  pose proof (sval_le _ _ H1) as S1. pose proof (sval_le _ _ H2) as S2.
  destruct (rnd_cases q) as [[E B]|[[E B]|[E [B C]]]]; try (exfalso; lra).
  rewrite E. simpl. rewrite Qred_correct. lra.
Qed.

Lemma rnd_0 q : (q == 0)%Q -> rnd q = Fin 0.
Proof. intros E. rewrite (rnd_comp _ _ E). vm_compute. reflexivity. Qed.

(** Above a double the rounding is that double at least, or infinite. *)
Lemma rnd_above lo q :
  isDouble lo -> (lo <= q)%Q ->
  rnd q = PosInf \/ exists v, rnd q = Fin v /\ (lo <= v)%Q.
Proof.
  intros Hlo H. apply isDouble_iff in Hlo. destruct Hlo as [El [Bl Cl]].
  pose proof (sval_le _ _ H) as S.
  destruct (rnd_cases q) as [[E B]|[[E B]|[E [B C]]]].
  - left. exact E.
  - exfalso. lra.
  - right. eexists. split; [exact E|]. rewrite Qred_correct. lra.
Qed.

Lemma rnd_below hi q :
  isDouble hi -> (q <= hi)%Q ->
  rnd q = NegInf \/ exists v, rnd q = Fin v /\ (v <= hi)%Q.
Proof.
  intros Hhi H. apply isDouble_iff in Hhi. destruct Hhi as [Eh [Bh Ch]].
  pose proof (sval_le _ _ H) as S.
  destruct (rnd_cases q) as [[E B]|[[E B]|[E [B C]]]].
  - exfalso. lra.
  - left. exact E.
  - right. eexists. split; [exact E|]. rewrite Qred_correct. lra.
Qed.

(** ** Ranges of results *)

Lemma within_weaken lo hi lo' hi' a :
  within lo hi a -> (lo' <= lo)%Q -> (hi <= hi')%Q -> within lo' hi' a.
Proof. destruct a as [x| | |]; simpl; try tauto. intros [H1 H2] H3 H4. split; lra. Qed.

Lemma within_finite lo hi a : within lo hi a -> exists x, a = Fin x /\ (lo <= x <= hi)%Q.
Proof. destruct a as [x| | |]; simpl; try tauto. intros H. exists x. auto. Qed.

Lemma mul_within lo hi c a :
  within lo hi a -> (0 <= c)%Q -> isDouble (lo * c) -> isDouble (hi * c) ->
  within (lo * c) (hi * c) (a * Fin c)%num.
Proof.
  intros Ha Hc Hlo Hhi. apply within_finite in Ha. destruct Ha as [x [-> [H1 H2]]].
  change (Fin x * Fin c)%num with (rnd (x * c)).
  apply rnd_between; [exact Hlo | exact Hhi | |]; apply Qmult_le_compat_r; assumption.
Qed.

Lemma div_within lo hi c a :
  within lo hi a -> (0 < c)%Q -> isDouble (lo / c) -> isDouble (hi / c) ->
  within (lo / c) (hi / c) (a / Fin c)%num.
Proof.
  intros Ha Hc Hlo Hhi. apply within_finite in Ha. destruct Ha as [x [-> [H1 H2]]].
  assert (E : Qeq_bool c 0 = false) by (apply Qeq_bool_false_iff; lra).
  unfold div. rewrite E.
  assert (Hi : (0 <= / c)%Q) by (apply Qlt_le_weak, Qinv_lt_0_compat; exact Hc).
  apply rnd_between; [exact Hlo | exact Hhi | |]; unfold Qdiv;
    apply Qmult_le_compat_r; assumption.
Qed.

Lemma round_within (lo hi : Z) a :
  within (inject_Z lo) (inject_Z hi) a ->
  within (inject_Z lo) (inject_Z hi) (Math_round a).
Proof.
  intros Ha. apply within_finite in Ha. destruct Ha as [x [-> [H1 H2]]].
  unfold Math_round, ofZ, within.
  pose proof (Qfloor_le (x + (1 # 2))) as F1.
  pose proof (Qlt_floor (x + (1 # 2))) as F2.
  rewrite <- !Zle_Qle. split.
  - assert (L : (inject_Z lo < inject_Z (Qfloor (x + (1 # 2)) + 1))%Q) by lra.
    rewrite <- Zlt_Qlt in L. lia.
  - assert (L : (inject_Z (Qfloor (x + (1 # 2))) < inject_Z (hi + 1))%Q).
    { rewrite (inject_Z_plus hi 1). change (inject_Z 1) with 1%Q. lra. }
    rewrite <- Zlt_Qlt in L. lia.
Qed.

Lemma abs_within m a : within (- m) m a -> within 0 m (Math_abs a).
Proof.
  intros Ha. apply within_finite in Ha. destruct Ha as [x [-> H]].
  unfold Math_abs, fin, within. rewrite Qred_correct. split.
  - apply Qabs_nonneg.
  - apply Qabs_Qle_condition. exact H.
Qed.

(** Rounding to two decimals keeps a percentage a percentage. *)
Lemma round2_within_100 a :
  within 0 100 a -> within 0 100 (Math_round (a * Fin 100) / Fin 100)%num.
Proof.
  intros Ha.
  assert (H1 : within 0 10000 (a * Fin 100)%num).
  { apply (within_weaken (0 * 100) (100 * 100)); [|lra|lra].
    apply mul_within; [exact Ha | lra | vm_compute; reflexivity | vm_compute; reflexivity]. }
  apply (round_within 0 10000) in H1.
  apply (within_weaken (0 / 100) (10000 / 100));
    [| apply Qle_bool_iff; reflexivity | apply Qle_bool_iff; reflexivity].
  apply div_within; [exact H1 | lra | vm_compute; reflexivity | vm_compute; reflexivity].
Qed.


(** ** Results that are not NaN *)

(** A number that is 0 at least: a non-negative double or +Infinity. *)
Definition atLeastZero (a : num) : Prop :=
  a = PosInf \/ exists v, a = Fin v /\ (0 <= v)%Q.

Lemma atLeastZero_add a x : atLeastZero a -> (0 <= x)%Q -> atLeastZero (a + Fin x)%num.
Proof.
  intros [->|[v [-> Hv]]] Hx; [left; reflexivity|].
  change (Fin v + Fin x)%num with (rnd (v + x)).
  apply rnd_above; [apply isDouble_0 | lra].
Qed.

Lemma atLeastZero_not_NaN a : atLeastZero a -> a <> NaN.
Proof. intros [->|[v [-> _]]]; discriminate. Qed.

Lemma add_Fin_not_NaN a r : a <> NaN -> (a + Fin r)%num <> NaN.
Proof.
  destruct a as [x| | |]; intros Ha; try discriminate; [|contradiction].
  apply rnd_not_NaN.
Qed.

Lemma mul_pos_not_NaN a c : a <> NaN -> (0 < c)%Q -> (a * Fin c)%num <> NaN.
Proof.
  intros Ha Hc. assert (Hgt : (c ?= 0)%Q = Gt) by (apply Qgt_alt; exact Hc).
  destruct a as [x| | |]; [apply rnd_not_NaN | | | contradiction];
    simpl; rewrite Hgt; discriminate.
Qed.

Lemma div_pos_not_NaN a c : a <> NaN -> (0 < c)%Q -> (a / Fin c)%num <> NaN.
Proof.
  intros Ha Hc.
  assert (E : Qeq_bool c 0 = false) by (apply Qeq_bool_false_iff; lra).
  assert (L : Qle_bool 0 c = true) by (apply Qle_bool_iff; lra).
  destruct a as [x| | |]; [| | | contradiction]; simpl.
  - rewrite E. apply rnd_not_NaN.
  - rewrite L. discriminate.
  - rewrite L. discriminate.
Qed.

Lemma round_not_NaN a : a <> NaN -> Math_round a <> NaN.
Proof. destruct a; intros Ha; try discriminate. contradiction. Qed.

Lemma round2_not_NaN a : a <> NaN -> (Math_round (a * Fin 100) / Fin 100)%num <> NaN.
Proof.
  intros Ha. apply div_pos_not_NaN; [|reflexivity].
  apply round_not_NaN. apply mul_pos_not_NaN; [exact Ha | reflexivity].
Qed.

(** ** Order *)

Lemma rnd_opp q : rnd (- q) = neg (rnd q).
Proof.
  pose proof (sval_opp q) as Es. pose proof huge_pos as Hh.
  destruct (rnd_cases q) as [[E B]|[[E B]|[E [B C]]]]; rewrite E; cbn [neg];
    destruct (rnd_cases (- q)) as [[E' B']|[[E' B']|[E' [B' C']]]];
    rewrite E'; try reflexivity; try (exfalso; lra).
  unfold fin. f_equal. apply Qred_complete. rewrite Qred_correct. exact Es.
Qed.

Lemma leb_trans a b c :
  (a <=? b)%num = true -> (b <=? c)%num = true -> (a <=? c)%num = true.
Proof.
  destruct a as [x| | |], b as [y| | |], c as [z| | |]; simpl; try congruence.
  intros H1 H2. apply Qle_bool_iff in H1. apply Qle_bool_iff in H2.
  apply Qle_bool_iff. lra.
Qed.

Lemma leb_not_NaN a b : (a <=? b)%num = true -> a <> NaN /\ b <> NaN.
Proof. destruct a, b; simpl; intros E; try discriminate; split; discriminate. Qed.

Lemma mul_le_mono a b c :
  (a <=? b)%num = true -> (0 < c)%Q -> (a * Fin c <=? b * Fin c)%num = true.
Proof.
  intros Hle Hc. assert (Hgt : (c ?= 0)%Q = Gt) by (apply Qgt_alt; exact Hc).
  destruct a as [x| | |], b as [y| | |]; simpl in Hle; try discriminate;
    simpl; rewrite ?Hgt; try reflexivity.
  - apply rnd_le. apply Qle_bool_iff in Hle. apply Qmult_le_compat_r; lra.
  - destruct (rnd (x * c)) eqn:E; try reflexivity. exfalso. exact (rnd_not_NaN _ E).
  - destruct (rnd (y * c)) eqn:E; try reflexivity. exfalso. exact (rnd_not_NaN _ E).
Qed.

Lemma div_le_mono a b c :
  (a <=? b)%num = true -> (0 < c)%Q -> (a / Fin c <=? b / Fin c)%num = true.
Proof.
  intros Hle Hc.
  assert (E0 : Qeq_bool c 0 = false) by (apply Qeq_bool_false_iff; lra).
  assert (L : Qle_bool 0 c = true) by (apply Qle_bool_iff; lra).
  assert (Hi : (0 <= / c)%Q) by (apply Qlt_le_weak, Qinv_lt_0_compat; exact Hc).
  destruct a as [x| | |], b as [y| | |]; simpl in Hle; try discriminate;
    simpl; rewrite ?E0, ?L; try reflexivity.
  - apply rnd_le. apply Qle_bool_iff in Hle. unfold Qdiv.
    apply Qmult_le_compat_r; assumption.
  - destruct (rnd (x / c)) eqn:E; try reflexivity. exfalso. exact (rnd_not_NaN _ E).
  - destruct (rnd (y / c)) eqn:E; try reflexivity. exfalso. exact (rnd_not_NaN _ E).
Qed.

Lemma round_le_mono a b :
  (a <=? b)%num = true -> (Math_round a <=? Math_round b)%num = true.
Proof.
  destruct a as [x| | |], b as [y| | |]; try (simpl; congruence).
  cbn [leb Math_round]. intros Hle. apply Qle_bool_iff in Hle. unfold ofZ. apply Qle_bool_iff.
  rewrite <- Zle_Qle. apply Qfloor_resp_le. lra.
Qed.

(** The difference of two different doubles does not round to 0. *)
Lemma sub_double_neg x y :
  isDouble x -> isDouble y -> (x < y)%Q -> (Fin x - Fin y <? Fin 0)%num = true.
Proof.
  intros Hx Hy Hlt.
  change (Fin x - Fin y)%num with (rnd (x + Qred (- y))).
  set (d := (x + Qred (- y))%Q).
  assert (Ed : (d == x - y)%Q) by (unfold d; rewrite Qred_correct; ring).
  assert (G : onGrid d).
  { apply (onGrid_comp (x - y)); [symmetry; exact Ed|].
    apply onGrid_sub; apply isDouble_onGrid; assumption. }
  assert (N : (d < 0)%Q) by lra.
  pose proof (sval_grid_neg _ G N) as S. pose proof huge_pos as Hh.
  destruct (rnd_cases d) as [[E B]|[[E B]|[E [B C]]]].
  - exfalso. lra.
  - rewrite E. reflexivity.
  - rewrite E. simpl. rewrite negb_true_iff. apply Qle_bool_false_iff.
    rewrite Qred_correct. exact S.
Qed.

Lemma div_double x y v : (Fin x / Fin y)%num = Fin v -> isDouble v.
Proof.
  unfold div. destruct (Qeq_bool y 0).
  - destruct (x ?= 0)%Q; discriminate.
  - apply rnd_double.
Qed.

Lemma isDouble_abs q : isDouble q -> isDouble (Qabs q).
Proof.
  intros H. destruct (Qlt_le_dec q 0) as [Hn|Hp].
  - apply (isDouble_comp (- q)); [|apply isDouble_opp; exact H].
    symmetry. apply Qabs_neg. lra.
  - apply (isDouble_comp q); [|exact H]. symmetry. apply Qabs_pos. exact Hp.
Qed.

Lemma isDouble_Qred q : isDouble q -> isDouble (Qred q).
Proof. apply isDouble_comp. symmetry. apply Qred_correct. Qed.

(** The sign of the difference of two doubles is the sign of their exact
    difference. *)
Lemma sub_double_sign x y :
  isDouble x -> isDouble y -> (Fin x - Fin y <? Fin 0)%num = true <-> (x < y)%Q.
Proof.
  intros Hx Hy. split; [|apply sub_double_neg; assumption].
  intros Hlt. apply Qnot_le_lt. intros Hle.
  change (Fin x - Fin y)%num with (rnd (x + Qred (- y))) in Hlt.
  assert (L : (rnd 0 <=? rnd (x + Qred (- y)))%num = true).
  { apply rnd_le. rewrite Qred_correct. lra. }
  rewrite (rnd_0 0) in L by reflexivity.
  destruct (rnd (x + Qred (- y))) as [d| | |]; simpl in L, Hlt; try discriminate.
  apply Qle_bool_iff in L. rewrite negb_true_iff in Hlt.
  apply Qle_bool_false_iff in Hlt. lra.
Qed.

End JsFacts.

(* ===================================================================== *)
(** * Facts about the A/B testing service *)
(* ===================================================================== *)

Module AbTestFacts.
Import Js JsFacts AbTest.

(** The number of Assigned rows of a subject in an experiment. *)
Definition countAssigned (testId leadId : string) (db : Db) : nat :=
  length (List.filter (assignedTo testId leadId) (abTestResult db)).

(** The cumulative traffic percentage after the variant at index [i], as the
    loop accumulates it from [start]: a sum of doubles, added one by one. *)
Definition cumulativeFrom (start : num) (variants : list Variant.t) (i : nat) : num :=
  fold_left (fun cumulative trafficPercent => (cumulative + Fin trafficPercent)%num)
            (map Variant.trafficPercent (take (S i) variants)) start.

Definition cumulativeAt (variants : list Variant.t) (i : nat) : num :=
  cumulativeFrom (Fin 0) variants i.

(** The draw [Math.random() * 100]. *)
Definition drawOf (u : Q) : num := (Fin u * Fin 100)%num.

Definition assignedRow (testId leadId : string) (v : Variant.t) : Row.t :=
  {| Row.testId := testId; Row.variantId := Variant.id v; Row.leadId := leadId;
     Row.event := ASSIGNED; Row.value := None |}.

Definition getVariant (variantId : string) (db : Db) : option Variant.t :=
  find (fun v => String.eqb (Variant.id v) variantId) (abTestVariant db).

Lemma cumulativeFrom_0 start v rest :
  cumulativeFrom start (v :: rest) 0 = (start + Fin (Variant.trafficPercent v))%num.
Proof. reflexivity. Qed.

Lemma cumulativeFrom_S start v rest i :
  cumulativeFrom start (v :: rest) (S i)
  = cumulativeFrom (start + Fin (Variant.trafficPercent v))%num rest i.
Proof. reflexivity. Qed.

Lemma walk_first random : forall variants start selected i w,
  variants !! i = Some w ->
  (random <=? cumulativeFrom start variants i)%num = true ->
  (forall j, (j < i)%nat -> (random <=? cumulativeFrom start variants j)%num = false) ->
  walk random start variants selected = Some w.
Proof.
  induction variants as [|v rest IH]; intros start selected i w Hi Hle Hlt.
  - discriminate.
  - destruct i as [|i].
    + injection Hi as ->. rewrite cumulativeFrom_0 in Hle. cbn [walk].
      rewrite Hle. reflexivity.
    + cbn [walk].
      assert (H0 : (random <=? cumulativeFrom start (v :: rest) 0)%num = false)
        by (apply Hlt; lia).
      rewrite cumulativeFrom_0 in H0. rewrite H0.
      apply (IH _ _ i); [exact Hi | exact Hle |].
      intros j Hj. apply (Hlt (S j)). lia.
Qed.

Lemma walk_none random : forall variants start selected,
  (forall j, (j < length variants)%nat ->
             (random <=? cumulativeFrom start variants j)%num = false) ->
  walk random start variants selected = selected.
Proof.
  induction variants as [|v rest IH]; intros start selected Hlt; [reflexivity|].
  cbn [walk].
  assert (H0 : (random <=? cumulativeFrom start (v :: rest) 0)%num = false)
    by (apply Hlt; simpl; lia).
  rewrite cumulativeFrom_0 in H0. rewrite H0.
  apply IH. intros j Hj. apply (Hlt (S j)). simpl. lia.
Qed.

Lemma walk_elem random : forall variants start selected w,
  walk random start variants selected = Some w ->
  w ∈ variants \/ selected = Some w.
Proof.
  induction variants as [|v rest IH]; intros start selected w Hw; cbn [walk] in Hw.
  - right. exact Hw.
  - destruct (random <=? start + Fin (Variant.trafficPercent v))%num.
    + injection Hw as ->. left. apply list_elem_of_here.
    + destruct (IH _ _ _ Hw) as [Hin|Hsel];
        [left; apply list_elem_of_further; exact Hin | right; exact Hsel].
Qed.

Lemma walk_some random : forall variants start v0,
  exists w, walk random start variants (Some v0) = Some w.
Proof.
  induction variants as [|v rest IH]; intros start v0; cbn [walk].
  - eauto.
  - destruct (random <=? start + Fin (Variant.trafficPercent v))%num; eauto.
Qed.

Lemma selectVariant_elem random variants w :
  selectVariant random variants = Some w -> w ∈ variants.
Proof.
  unfold selectVariant. intros Hw.
  destruct (walk_elem _ _ _ _ _ Hw) as [Hin|Hsel]; [exact Hin|].
  destruct variants as [|v rest]; [discriminate|].
  injection Hsel as ->. apply list_elem_of_here.
Qed.

Lemma selectVariant_some random variants :
  variants <> [] -> exists w, selectVariant random variants = Some w /\ w ∈ variants.
Proof.
  intros Hne. destruct variants as [|v rest]; [congruence|].
  destruct (walk_some random (v :: rest) (Fin 0) v) as [w Hw].
  exists w. split; [exact Hw|]. apply (selectVariant_elem random). exact Hw.
Qed.


(** ** assignVariant on a running experiment *)

Definition assignedActivity (testId leadId : string) (v : Variant.t) : Activity.t :=
  {| Activity.leadId := leadId;
     Activity.type := "AB_TEST_ASSIGNED";
     Activity.description := "Assigned to A/B test variant: " +:+ Variant.name v;
     Activity.metadata :=
       [("testId", testId); ("variantId", Variant.id v); ("variantName", Variant.name v)] |}.

Definition afterAssignment (testId leadId : string) (v : Variant.t) (db : Db) : Db :=
  {| abTest := abTest db;
     abTestVariant := abTestVariant db;
     abTestResult := abTestResult db ++ [assignedRow testId leadId v];
     activity := activity db ++ [assignedActivity testId leadId v];
     lead := lead db;
     campaign := campaign db |}.

Definition foreignKey : string := "Foreign key constraint failed".

Lemma find_existsb {A} (p : A -> bool) l v : find p l = Some v -> existsb p l = true.
Proof.
  induction l as [|y l IH]; simpl; [discriminate|].
  destruct (p y); [reflexivity|]. exact IH.
Qed.

Lemma elem_existsb {A} (p : A -> bool) (l : list A) v : v ∈ l -> p v = true -> existsb p l = true.
Proof.
  intros Hin Hp. apply existsb_exists. exists v. split; [|exact Hp].
  apply list_elem_of_In. exact Hin.
Qed.

Lemma findUniqueTest_found db testId t vs :
  findUniqueTest testId db = Ok (Some (t, vs), db) ->
  hasTest testId db = true
  /\ forall v, v ∈ vs -> hasVariant (Variant.id v) db = true.
Proof.
  unfold findUniqueTest, hasTest, hasVariant.
  destruct (find _ (abTest db)) as [t'|] eqn:E; intros Hfind; [|discriminate].
  split; [apply (find_existsb _ _ _ E)|].
  injection Hfind as _ <-. intros v Hv.
  apply list_elem_of_filter in Hv. destruct Hv as [_ Hv].
  apply (elem_existsb _ _ v Hv). apply String.eqb_refl.
Qed.

Lemma assignVariant_running db testId leadId u t vs :
  findUniqueTest testId db = Ok (Some (t, vs), db) ->
  Test.status t = RUNNING ->
  assignVariant testId leadId u db =
    match find (assignedTo testId leadId) (abTestResult db) with
    | Some r => Ok (Row.variantId r, db)
    | None =>
        match selectVariant (drawOf u) vs with
        | None => Throw "TypeError: Cannot read properties of undefined (reading 'id')"
        | Some v =>
            if hasLead leadId db
            then Ok (Variant.id v, afterAssignment testId leadId v db)
            else Throw foreignKey
        end
    end.
Proof.
  intros Hfind Hrun.
  destruct (findUniqueTest_found _ _ _ _ Hfind) as [Ht Hvs].
  unfold assignVariant, mbind, M_bind, bind. rewrite Hfind, Hrun. cbn [isRunning negb].
  unfold findFirstAssigned.
  destruct (find (assignedTo testId leadId) (abTestResult db)) as [r|]; [reflexivity|].
  fold (drawOf u).
  destruct (selectVariant (drawOf u) vs) as [v|] eqn:Hv; [|reflexivity].
  apply selectVariant_elem in Hv. apply Hvs in Hv.
  unfold createResult, createActivity, hasLead, hasTest, hasVariant in *.
  cbn [Row.testId Row.variantId Row.leadId Activity.leadId lead abTest abTestVariant].
  rewrite Ht, Hv. cbn [andb].
  destruct (existsb (String.eqb leadId) (lead db)) eqn:Hl; [|reflexivity].
  cbn [lead]. rewrite Hl. reflexivity.
Qed.

Lemma findUniqueTest_frame db db' testId x :
  abTest db' = abTest db -> abTestVariant db' = abTestVariant db ->
  findUniqueTest testId db = Ok (x, db) ->
  findUniqueTest testId db' = Ok (x, db').
Proof.
  intros Ht Hv. unfold findUniqueTest. rewrite Ht, Hv.
  destruct (find _ (abTest db)); intros E; injection E as <-; reflexivity.
Qed.

Lemma assignedTo_assignedRow testId leadId v :
  assignedTo testId leadId (assignedRow testId leadId v) = true.
Proof. unfold assignedTo, assignedRow; simpl. rewrite !String.eqb_refl. reflexivity. Qed.

Lemma find_app_None {A} (p : A -> bool) l x :
  find p l = None -> p x = true -> find p (l ++ [x]) = Some x.
Proof.
  induction l as [|y l IH]; simpl; intros Hn Hp.
  - rewrite Hp. reflexivity.
  - destruct (p y); [discriminate|]. apply IH; assumption.
Qed.

Lemma filter_find_None {A} (p : A -> bool) l :
  find p l = None -> List.filter p l = [].
Proof.
  induction l as [|y l IH]; simpl; intros Hn; [reflexivity|].
  destruct (p y); [discriminate|]. apply IH; assumption.
Qed.

Lemma filter_find_Some {A} (p : A -> bool) l x :
  find p l = Some x -> (1 <= length (List.filter p l))%nat.
Proof.
  induction l as [|y l IH]; simpl; intros Hs; [discriminate|].
  destruct (p y); simpl; [lia|]. apply IH; assumption.
Qed.

(** C1 (as the code has it). On a running experiment, a subject that already
    has an Assigned row gets the variant of the first such row back and the
    database is left as it is.  When the experiment has a variant and the
    subject is a stored lead, two calls in a row for the same subject
    (whatever the two random draws) return the same variant, the second call
    writes nothing, and the subject ends with the Assigned rows it had
    before, or with one if it had none: with exactly one whenever it had at
    most one.  A subject that is no stored lead and has no Assigned row is
    refused by the foreign key of the row. *)
Theorem assignVariant_idempotent (db : Db) (testId leadId : string)
    (t : Test.t) (vs : list Variant.t) :
  findUniqueTest testId db = Ok (Some (t, vs), db) ->
  Test.status t = RUNNING ->
  (forall r u,
      find (assignedTo testId leadId) (abTestResult db) = Some r ->
      assignVariant testId leadId u db = Ok (Row.variantId r, db))
  /\ (vs <> [] ->
      hasLead leadId db = true ->
      forall u1 u2, exists v db1,
        assignVariant testId leadId u1 db = Ok (v, db1)
        /\ assignVariant testId leadId u2 db1 = Ok (v, db1)
        /\ countAssigned testId leadId db1
           = Nat.max 1 (countAssigned testId leadId db))
  /\ (vs <> [] ->
      hasLead leadId db = false ->
      find (assignedTo testId leadId) (abTestResult db) = None ->
      forall u, assignVariant testId leadId u db = Throw foreignKey).
Proof.
  intros Hfind Hrun. split; [|split].
  - intros r u Hr. rewrite (assignVariant_running _ _ _ _ _ _ Hfind Hrun), Hr. reflexivity.
  - intros Hne Hlead u1 u2.
    rewrite (assignVariant_running _ _ _ _ _ _ Hfind Hrun).
    destruct (find (assignedTo testId leadId) (abTestResult db)) as [r|] eqn:Hr.
    + exists (Row.variantId r), db. split; [reflexivity|]. split.
      * rewrite (assignVariant_running _ _ _ _ _ _ Hfind Hrun), Hr. reflexivity.
      * apply filter_find_Some in Hr. unfold countAssigned in *. lia.
    + destruct (selectVariant_some (drawOf u1) vs Hne) as [v [Hv _]]. rewrite Hv, Hlead.
      exists (Variant.id v), (afterAssignment testId leadId v db).
      split; [reflexivity|].
      assert (Hfind1 : findUniqueTest testId (afterAssignment testId leadId v db)
                       = Ok (Some (t, vs), afterAssignment testId leadId v db)).
      { apply (findUniqueTest_frame db); [reflexivity | reflexivity | exact Hfind]. }
      split.
      * rewrite (assignVariant_running _ _ _ _ _ _ Hfind1 Hrun). simpl abTestResult.
        rewrite (find_app_None _ _ _ Hr (assignedTo_assignedRow testId leadId v)).
        reflexivity.
      * unfold countAssigned. simpl abTestResult.
        rewrite List.filter_app, (filter_find_None _ _ Hr). simpl.
        rewrite assignedTo_assignedRow. reflexivity.
  - intros Hne Hlead Hr u.
    rewrite (assignVariant_running _ _ _ _ _ _ Hfind Hrun), Hr.
    destruct (selectVariant_some (drawOf u) vs Hne) as [v [Hv _]]. rewrite Hv, Hlead.
    reflexivity.
Qed.

(** C5 (as the code has it). On a running experiment with at least one
    variant, for a stored lead with no Assigned row, the draw
    [Math.random() * 100] is compared with the cumulative traffic percentages
    (sums of doubles) in the order of the variants and the first variant
    whose cumulative sum reaches the draw is selected; when no cumulative sum
    reaches the draw the FIRST variant is selected.  The call returns a
    variant of the experiment and appends its Assigned row. *)
Theorem assignVariant_selection (db : Db) (testId leadId : string) (u : Q)
    (t : Test.t) (vs : list Variant.t) :
  findUniqueTest testId db = Ok (Some (t, vs), db) ->
  Test.status t = RUNNING ->
  find (assignedTo testId leadId) (abTestResult db) = None ->
  vs <> [] ->
  hasLead leadId db = true ->
  exists v db',
    assignVariant testId leadId u db = Ok (Variant.id v, db')
    /\ v ∈ vs
    /\ abTestResult db' = abTestResult db ++ [assignedRow testId leadId v]
    /\ (forall i w,
           vs !! i = Some w ->
           (drawOf u <=? cumulativeAt vs i)%num = true ->
           (forall j, (j < i)%nat -> (drawOf u <=? cumulativeAt vs j)%num = false) ->
           v = w)
    /\ ((forall j, (j < length vs)%nat -> (drawOf u <=? cumulativeAt vs j)%num = false) ->
        head vs = Some v).
Proof.
  intros Hfind Hrun Hnone Hne Hlead.
  destruct (selectVariant_some (drawOf u) vs Hne) as [v [Hv Hin]].
  exists v, (afterAssignment testId leadId v db).
  rewrite (assignVariant_running _ _ _ _ _ _ Hfind Hrun), Hnone, Hv, Hlead.
  split; [reflexivity|]. split; [exact Hin|]. split; [reflexivity|]. split.
  - intros i w Hi Hle Hlt.
    unfold selectVariant in Hv.
    rewrite (walk_first (drawOf u) vs (Fin 0) (head vs) i w Hi Hle Hlt) in Hv.
    congruence.
  - intros Hall. unfold selectVariant in Hv.
    rewrite (walk_none (drawOf u) vs (Fin 0) (head vs) Hall) in Hv. exact Hv.
Qed.


(** ** A sample experiment *)

Definition sampleA : Variant.t :=
  {| Variant.id := "vA"; Variant.testId := "t1"; Variant.name := "A";
     Variant.trafficPercent := 50; Variant.impressions := 200; Variant.clicks := 0;
     Variant.conversions := 130; Variant.revenue := 0 |}.

Definition sampleB : Variant.t :=
  {| Variant.id := "vB"; Variant.testId := "t1"; Variant.name := "B";
     Variant.trafficPercent := 50; Variant.impressions := 200;
     Variant.clicks := 0; Variant.conversions := 70; Variant.revenue := 0 |}.

Definition sampleTest : Test.t :=
  {| Test.id := "t1"; Test.name := "E1"; Test.status := RUNNING;
     Test.confidenceLevel := 95; Test.minSampleSize := 100;
     Test.startDate := None; Test.endDate := None |}.

Definition sampleDb : Db :=
  {| abTest := [sampleTest]; abTestVariant := [sampleA; sampleB];
     abTestResult := []; activity := []; lead := ["lead1"]; campaign := [] |}.

Lemma assignVariant_idempotent_witness :
  exists v db1,
    assignVariant "t1" "lead1" (1 # 4) sampleDb = Ok (v, db1)
    /\ assignVariant "t1" "lead1" (3 # 4) db1 = Ok (v, db1)
    /\ countAssigned "t1" "lead1" db1 = Nat.max 1 (countAssigned "t1" "lead1" sampleDb).
Proof.
  refine (proj1 (proj2 (assignVariant_idempotent sampleDb "t1" "lead1" sampleTest
                          [sampleA; sampleB] eq_refl eq_refl)) _ _ (1 # 4)%Q (3 # 4)%Q).
  - discriminate.
  - reflexivity.
Defined.

(** The sample experiment after two Assigned events for the same subject
    have been recorded through [trackEvent]. *)
Definition assignedTwice : Db :=
  {| abTest := [sampleTest]; abTestVariant := [sampleA; sampleB];
     abTestResult := [assignedRow "t1" "lead1" sampleA; assignedRow "t1" "lead1" sampleB];
     activity := []; lead := ["lead1"]; campaign := [] |}.

(** C1 as stated fails.  [trackEvent] accepts the event ASSIGNED, and no
    unique key stands on (experiment, subject, event): after two such events
    for one subject the store holds two Assigned rows for the pair; two
    calls of [assignVariant] return the same variant and write nothing, and
    the store still holds two Assigned rows, not exactly one.  And for a
    subject that is no stored lead the call returns no variant at all: the
    foreign key of the Assigned row refuses it. *)
Lemma assignVariant_keeps_two_assigned_rows :
  (exists db1,
      trackEvent "t1" "vA" "lead1" "ASSIGNED" None sampleDb = Ok (tt, db1)
      /\ trackEvent "t1" "vB" "lead1" "ASSIGNED" None db1 = Ok (tt, assignedTwice))
  /\ assignVariant "t1" "lead1" (1 # 4) assignedTwice = Ok ("vA", assignedTwice)
  /\ assignVariant "t1" "lead1" (3 # 4) assignedTwice = Ok ("vA", assignedTwice)
  /\ countAssigned "t1" "lead1" assignedTwice = 2%nat
  /\ assignVariant "t1" "nobody" (1 # 4) sampleDb = Throw foreignKey.
Proof.
  split; [eexists; split; reflexivity|].
  split; [reflexivity|]. split; [reflexivity|]. split; [reflexivity|].
  vm_compute. reflexivity.
Qed.

Lemma assignVariant_selection_witness :
  exists v db',
    assignVariant "t1" "lead1" (1 # 4) sampleDb = Ok (Variant.id v, db')
    /\ v ∈ [sampleA; sampleB]
    /\ abTestResult db' = abTestResult sampleDb ++ [assignedRow "t1" "lead1" v]
    /\ (forall i w,
           [sampleA; sampleB] !! i = Some w ->
           (drawOf (1 # 4) <=? cumulativeAt [sampleA; sampleB] i)%num = true ->
           (forall j, (j < i)%nat ->
                      (drawOf (1 # 4) <=? cumulativeAt [sampleA; sampleB] j)%num = false) ->
           v = w)
    /\ ((forall j, (j < length [sampleA; sampleB])%nat ->
                   (drawOf (1 # 4) <=? cumulativeAt [sampleA; sampleB] j)%num = false) ->
        head [sampleA; sampleB] = Some v).
Proof.
  apply (assignVariant_selection sampleDb "t1" "lead1" (1 # 4) sampleTest
           [sampleA; sampleB]);
    [reflexivity | reflexivity | reflexivity | discriminate | reflexivity].
Defined.

(** An experiment whose four traffic percentages are 64.46, 7.85, 19.15 and
    8.54: in decimals they add up to 100, as doubles added in this order
    they add up to 99.99999999999997. *)
Definition quarter (id name : string) (trafficPercent : Q) : Variant.t :=
  {| Variant.id := id; Variant.testId := "t4"; Variant.name := name;
     Variant.trafficPercent := double trafficPercent;
     Variant.impressions := 0; Variant.clicks := 0; Variant.conversions := 0;
     Variant.revenue := 0 |}.

Definition quarters : list Variant.t :=
  [quarter "qA" "A" (6446 # 100); quarter "qB" "B" (785 # 100);
   quarter "qC" "C" (1915 # 100); quarter "qD" "D" (854 # 100)].

Definition quartersDb : Db :=
  {| abTest := [{| Test.id := "t4"; Test.name := "E4"; Test.status := RUNNING;
                   Test.confidenceLevel := 95; Test.minSampleSize := 100;
                   Test.startDate := None; Test.endDate := None |}];
     abTestVariant := quarters;
     abTestResult := []; activity := []; lead := ["lead1"]; campaign := [] |}.

(** The largest double below 1, a value [Math.random()] can return. *)
Definition belowOne : Q := 9007199254740991 # 9007199254740992.

(** C5 as stated fails.  The four traffic percentages pass the check of
    [createAbTest]; the draw 99.99999999999999 is above every cumulative sum
    (the last one is 99.99999999999997, through rounding); the call returns
    the first variant, qA, and not the final one, qD. *)
Lemma assignVariant_fallback_is_first_variant :
  createAbTest_check (map Variant.trafficPercent quarters) = Ok tt
  /\ drawOf belowOne = Fin (7036874417766399 # 70368744177664)
  /\ cumulativeAt quarters 3 = Fin (3518437208883199 # 35184372088832)
  /\ (forall j, (j < 4)%nat -> (drawOf belowOne <=? cumulativeAt quarters j)%num = false)
  /\ last quarters = Some (quarter "qD" "D" (854 # 100))
  /\ assignVariant "t4" "lead1" belowOne quartersDb
     = Ok ("qA", afterAssignment "t4" "lead1" (quarter "qA" "A" (6446 # 100)) quartersDb).
Proof.
  split; [vm_compute; reflexivity|]. split; [vm_compute; reflexivity|].
  split; [vm_compute; reflexivity|]. split.
  - intros j Hj.
    destruct j as [|[|[|[|j]]]]; vm_compute; reflexivity.
  - split; vm_compute; reflexivity.
Qed.

(** ** trackEvent *)

Definition sameIdentity (v v' : Variant.t) : Prop :=
  Variant.id v' = Variant.id v /\ Variant.testId v' = Variant.testId v
  /\ Variant.name v' = Variant.name v
  /\ Variant.trafficPercent v' = Variant.trafficPercent v.

(** The amount [value || 0] adds to the revenue counter. *)
Definition revenueIncrement (value : option Q) : Q :=
  match value with Some x => x | None => 0%Q end.

Definition eventRow (testId variantId leadId : string) (ev : AbTestEvent)
    (value : option Q) : Row.t :=
  {| Row.testId := testId; Row.variantId := variantId; Row.leadId := leadId;
     Row.event := ev; Row.value := value |}.

Lemma orZero_increment value : (orZero value == revenueIncrement value)%Q.
Proof.
  destruct value as [x|]; simpl; [|reflexivity].
  destruct (Qeq_bool x 0) eqn:E; [|reflexivity].
  apply Qeq_bool_iff in E. symmetry. exact E.
Qed.

Lemma updateRows_find (variantId : string) (data : Variant.t -> Result Variant.t) :
  forall rows v v',
    find (fun x => String.eqb (Variant.id x) variantId) rows = Some v ->
    data v = Ok v' ->
    Variant.id v' = Variant.id v ->
    exists rows',
      updateRows variantId data rows = Ok rows'
      /\ find (fun x => String.eqb (Variant.id x) variantId) rows' = Some v'.
Proof.
  induction rows as [|y rows IH]; intros v v' Hv Hd Hid; simpl in *; [discriminate|].
  destruct (String.eqb (Variant.id y) variantId) eqn:E.
  - injection Hv as ->. rewrite Hd. eexists. split; [reflexivity|].
    simpl. rewrite Hid, E. reflexivity.
  - destruct (IH v v' Hv Hd Hid) as [rows' [Hu Hf]]. rewrite Hu.
    eexists. split; [reflexivity|]. simpl. rewrite E. exact Hf.
Qed.

Lemma trackEvent_counted db testId variantId leadId event ev value data v v' :
  parseEvent event = Some ev ->
  updateData ev value = Some data ->
  hasTest testId db = true ->
  getVariant variantId db = Some v ->
  hasLead leadId db = true ->
  data v = Ok v' ->
  Variant.id v' = Variant.id v ->
  exists db',
    trackEvent testId variantId leadId event value db = Ok (tt, db')
    /\ getVariant variantId db' = Some v'
    /\ abTestResult db' = abTestResult db ++ [eventRow testId variantId leadId ev value].
Proof.
  intros Hev Hdata Ht Hv Hl Hd Hid.
  unfold trackEvent. rewrite Hev. unfold mbind, M_bind, bind, createResult.
  cbn [Row.testId Row.variantId Row.leadId].
  unfold getVariant in Hv. pose proof (find_existsb _ _ _ Hv) as Hhas.
  fold (hasVariant variantId db) in Hhas. rewrite Ht, Hhas, Hl. cbn [andb].
  rewrite Hdata. unfold updateVariant, hasVariant. cbn [abTestVariant].
  fold (hasVariant variantId db). rewrite Hhas.
  destruct (updateRows_find variantId data _ v v' Hv Hd Hid) as [rows' [Hu Hf]].
  rewrite Hu. eexists. split; [reflexivity|]. split; [exact Hf | reflexivity].
Qed.

Lemma increment_below n : n < maxInt -> increment n = Ok (n + 1).
Proof.
  intros Hn. unfold increment. destruct (Z.leb_spec (n + 1) maxInt); [reflexivity | lia].
Qed.

(** C6 (as the code has it). Recording an event for an existing
    experiment, variant and lead never fails on the value: a Revenue event
    adds the value to the revenue counter as doubles are added, whatever its
    sign, and adds 0 when the value is absent (the call is refused only when
    the sum overflows); Impression, Click and Conversion add exactly 1 to
    their own counter, as long as the 32-bit column can hold the result;
    every other counter is left as it was, and the event row is appended. *)
Theorem trackEvent_increments (db : Db) (testId variantId leadId : string)
    (value : option Q) (v : Variant.t) :
  hasTest testId db = true ->
  getVariant variantId db = Some v ->
  hasLead leadId db = true ->
  (forall revenue',
      (Fin (Variant.revenue v) + Fin (revenueIncrement value))%num = Fin revenue' ->
      exists db' v',
        trackEvent testId variantId leadId "REVENUE" value db = Ok (tt, db')
        /\ getVariant variantId db' = Some v'
        /\ abTestResult db' = abTestResult db ++ [eventRow testId variantId leadId REVENUE value]
        /\ Variant.revenue v' = revenue'
        /\ Variant.impressions v' = Variant.impressions v
        /\ Variant.clicks v' = Variant.clicks v
        /\ Variant.conversions v' = Variant.conversions v
        /\ sameIdentity v v')
  /\ (Variant.impressions v < maxInt ->
      exists db' v',
        trackEvent testId variantId leadId "IMPRESSION" value db = Ok (tt, db')
        /\ getVariant variantId db' = Some v'
        /\ abTestResult db' = abTestResult db ++ [eventRow testId variantId leadId IMPRESSION value]
        /\ Variant.impressions v' = Variant.impressions v + 1
        /\ Variant.clicks v' = Variant.clicks v
        /\ Variant.conversions v' = Variant.conversions v
        /\ Variant.revenue v' = Variant.revenue v
        /\ sameIdentity v v')
  /\ (Variant.clicks v < maxInt ->
      exists db' v',
        trackEvent testId variantId leadId "CLICK" value db = Ok (tt, db')
        /\ getVariant variantId db' = Some v'
        /\ abTestResult db' = abTestResult db ++ [eventRow testId variantId leadId CLICK value]
        /\ Variant.impressions v' = Variant.impressions v
        /\ Variant.clicks v' = Variant.clicks v + 1
        /\ Variant.conversions v' = Variant.conversions v
        /\ Variant.revenue v' = Variant.revenue v
        /\ sameIdentity v v')
  /\ (Variant.conversions v < maxInt ->
      exists db' v',
        trackEvent testId variantId leadId "CONVERSION" value db = Ok (tt, db')
        /\ getVariant variantId db' = Some v'
        /\ abTestResult db' = abTestResult db ++ [eventRow testId variantId leadId CONVERSION value]
        /\ Variant.impressions v' = Variant.impressions v
        /\ Variant.clicks v' = Variant.clicks v
        /\ Variant.conversions v' = Variant.conversions v + 1
        /\ Variant.revenue v' = Variant.revenue v
        /\ sameIdentity v v').
Proof.
  intros Ht Hv Hl.
  split; [|split; [|split]].
  - intros revenue' Hsum.
    assert (Hinc : incrementBy (orZero value) (Variant.revenue v) = Ok revenue').
    { unfold incrementBy.
      change (Fin (Variant.revenue v) + Fin (orZero value))%num
        with (rnd (Variant.revenue v + orZero value)).
      rewrite (rnd_comp _ (Variant.revenue v + revenueIncrement value))
        by (rewrite orZero_increment; reflexivity).
      change (rnd (Variant.revenue v + revenueIncrement value))
        with (Fin (Variant.revenue v) + Fin (revenueIncrement value))%num.
      rewrite Hsum. reflexivity. }
    destruct (trackEvent_counted db testId variantId leadId "REVENUE" REVENUE value _ v _
                eq_refl eq_refl Ht Hv Hl ltac:(cbv beta; rewrite Hinc; reflexivity) eq_refl)
      as [db' [Hrun [Hget Hrows]]].
    eexists db', _. split; [exact Hrun|]. split; [exact Hget|]. split; [exact Hrows|].
    unfold sameIdentity; simpl; auto 10.
  - intros Hn.
    destruct (trackEvent_counted db testId variantId leadId "IMPRESSION" IMPRESSION value _ v _
                eq_refl eq_refl Ht Hv Hl
                ltac:(cbv beta; rewrite (increment_below _ Hn); reflexivity) eq_refl)
      as [db' [Hrun [Hget Hrows]]].
    eexists db', _. split; [exact Hrun|]. split; [exact Hget|]. split; [exact Hrows|].
    unfold sameIdentity; simpl; auto 10.
  - intros Hn.
    destruct (trackEvent_counted db testId variantId leadId "CLICK" CLICK value _ v _
                eq_refl eq_refl Ht Hv Hl
                ltac:(cbv beta; rewrite (increment_below _ Hn); reflexivity) eq_refl)
      as [db' [Hrun [Hget Hrows]]].
    eexists db', _. split; [exact Hrun|]. split; [exact Hget|]. split; [exact Hrows|].
    unfold sameIdentity; simpl; auto 10.
  - intros Hn.
    destruct (trackEvent_counted db testId variantId leadId "CONVERSION" CONVERSION value _ v _
                eq_refl eq_refl Ht Hv Hl
                ltac:(cbv beta; rewrite (increment_below _ Hn); reflexivity) eq_refl)
      as [db' [Hrun [Hget Hrows]]].
    eexists db', _. split; [exact Hrun|]. split; [exact Hget|]. split; [exact Hrows|].
    unfold sameIdentity; simpl; auto 10.
Qed.

(** C6 as stated fails: a Revenue event without a value, and one with a
    negative value, are both recorded without an exception; the first leaves
    the revenue counter at 0, the second takes it to -5. *)
Lemma trackEvent_revenue_never_rejected :
  (exists db',
      trackEvent "t1" "vA" "lead1" "REVENUE" None sampleDb = Ok (tt, db')
      /\ Variant.revenue <$> getVariant "vA" db' = Some 0%Q)
  /\ (exists db',
      trackEvent "t1" "vA" "lead1" "REVENUE" (Some (-5)%Q) sampleDb = Ok (tt, db')
      /\ Variant.revenue <$> getVariant "vA" db' = Some (-5)%Q).
Proof. split; eexists; split; vm_compute; reflexivity. Qed.

Lemma trackEvent_increments_witness :
  exists db' v',
    trackEvent "t1" "vA" "lead1" "REVENUE" (Some (5 # 2)) sampleDb = Ok (tt, db')
    /\ getVariant "vA" db' = Some v'
    /\ Variant.revenue v' = (5 # 2)%Q.
Proof.
  destruct (proj1 (trackEvent_increments sampleDb "t1" "vA" "lead1" (Some (5 # 2)%Q)
                     sampleA eq_refl eq_refl eq_refl) (5 # 2)%Q)
    as [db' [v' [Hrun [Hget [_ [Hrev _]]]]]].
  - vm_compute. reflexivity.
  - exists db', v'. split; [exact Hrun|]. split; [exact Hget|]. exact Hrev.
Defined.


(** ** getTestResults *)

Definition analysedResults `{Numerics} (t : Test.t) (vs : list Variant.t) : Results.t :=
  let variantResults := map variantResult vs in
  let analysis := performStatisticalAnalysis variantResults (Fin (Test.confidenceLevel t)) in
  {| Results.testId := Test.id t;
     Results.status := Test.status t;
     Results.variants := map (withConfidence (Fin (Test.confidenceLevel t))) variantResults;
     Results.winner := winner analysis;
     Results.statisticalSignificance := Some (significance analysis);
     Results.recommendedAction := Some (recommendation analysis);
     Results.startDate := Test.startDate t;
     Results.endDate := Test.endDate t |}.

Definition plainResults (t : Test.t) (vs : list Variant.t) : Results.t :=
  {| Results.testId := Test.id t;
     Results.status := Test.status t;
     Results.variants := map variantResult vs;
     Results.winner := None;
     Results.statisticalSignificance := None;
     Results.recommendedAction := None;
     Results.startDate := Test.startDate t;
     Results.endDate := Test.endDate t |}.

Definition unsupported : string :=
  "Statistical analysis only supported for 2-variant tests".
Definition promising : string :=
  "Test showing promising results but needs more data".
Definition continueTest : string :=
  "Continue test - not enough data for conclusive results".

Section GetTestResults.
Context `{Numerics}.

Lemma getTestResults_found db testId t vs :
  findUniqueTest testId db = Ok (Some (t, vs), db) ->
  getTestResults testId db
  = Ok (if enoughData (map variantResult vs) (Test.minSampleSize t)
        then analysedResults t vs else plainResults t vs, db).
Proof.
  intros Hfind. unfold getTestResults, mbind, M_bind, bind. rewrite Hfind.
  destruct (enoughData (map variantResult vs) (Test.minSampleSize t)); reflexivity.
Qed.

Lemma enoughData_two a b minSampleSize :
  enoughData (map variantResult [a; b]) minSampleSize
  = (Variant.impressions a >=? minSampleSize) && (Variant.impressions b >=? minSampleSize).
Proof. unfold enoughData. simpl. rewrite andb_true_r. reflexivity. Qed.

Lemma analysis_unsupported (l : list VariantResult.t) cl :
  length l <> 2%nat ->
  performStatisticalAnalysis l cl
  = {| significance := Fin 0; winner := None; recommendation := unsupported |}.
Proof.
  destruct l as [|a [|b [|c l]]]; simpl; intros Hlen; try reflexivity. congruence.
Qed.

(** C4 (as the code has it). With two variants of which at least one has
    fewer impressions than [minSampleSize], the evaluation returns, and the
    result has no winner, no significance and no recommendation: the three
    fields are left unset, whatever the counters are. *)
Theorem getTestResults_insufficient_data (db : Db) (testId : string) (t : Test.t)
    (a b : Variant.t) :
  findUniqueTest testId db = Ok (Some (t, [a; b]), db) ->
  Variant.impressions a < Test.minSampleSize t
  \/ Variant.impressions b < Test.minSampleSize t ->
  exists r,
    getTestResults testId db = Ok (r, db)
    /\ Results.winner r = None
    /\ Results.statisticalSignificance r = None
    /\ Results.recommendedAction r = None
    /\ Results.variants r = [variantResult a; variantResult b].
Proof.
  intros Hfind Hlow. rewrite (getTestResults_found _ _ _ _ Hfind), enoughData_two.
  assert (E : (Variant.impressions a >=? Test.minSampleSize t)
              && (Variant.impressions b >=? Test.minSampleSize t) = false).
  { apply andb_false_iff. rewrite !Z.geb_leb, !Z.leb_gt. exact Hlow. }
  rewrite E. exists (plainResults t [a; b]). repeat split.
Qed.

(** C7 (as the code has it). With a number of variants other than two the
    evaluation still returns a result, never an exception, and the result has
    no winner.  When every variant passes the sample-size gate (so there are
    three or more) the result carries significance 0 and the message that only
    two-variant tests are analysed; otherwise it carries neither. *)
Theorem getTestResults_other_variant_count (db : Db) (testId : string) (t : Test.t)
    (vs : list Variant.t) :
  findUniqueTest testId db = Ok (Some (t, vs), db) ->
  length vs <> 2%nat ->
  exists r,
    getTestResults testId db = Ok (r, db)
    /\ Results.winner r = None
    /\ (enoughData (map variantResult vs) (Test.minSampleSize t) = true ->
        Results.statisticalSignificance r = Some (Fin 0)
        /\ Results.recommendedAction r = Some unsupported)
    /\ (enoughData (map variantResult vs) (Test.minSampleSize t) = false ->
        Results.statisticalSignificance r = None
        /\ Results.recommendedAction r = None).
Proof.
  intros Hfind Hlen. rewrite (getTestResults_found _ _ _ _ Hfind).
  assert (Hmap : length (map variantResult vs) <> 2%nat) by (rewrite length_map; exact Hlen).
  destruct (enoughData (map variantResult vs) (Test.minSampleSize t)).
  - exists (analysedResults t vs). unfold analysedResults.
    rewrite (analysis_unsupported _ _ Hmap). simpl. repeat split; discriminate.
  - exists (plainResults t vs). simpl. repeat split; discriminate.
Qed.


(** The variant [performStatisticalAnalysis] names as the better one. *)
Definition betterOf (a b : Variant.t) : Variant.t :=
  if (rate (variantResult b) >? rate (variantResult a))%num then b else a.

(** The improvement it reports: the change of rate relative to the rate of
    the first variant, in percent, rounded to two decimals. *)
Definition improvementOverFirst (a b : Variant.t) : num :=
  let p1 := rate (variantResult a) in
  let p2 := rate (variantResult b) in
  (Math_round ((Math_abs ((p2 - p1) / p1) * Fin 100) * Fin 100) / Fin 100)%num.

Lemma analysis_two a b cl :
  performStatisticalAnalysis [variantResult a; variantResult b] cl
  = let sig := rawSignificance (variantResult a) (variantResult b) in
    {| significance := (Math_round (sig * Fin 100) / Fin 100)%num;
       winner :=
         if (sig >=? cl)%num
         then Some {| variantId := Variant.id (betterOf a b);
                      variantName := Variant.name (betterOf a b);
                      improvement := improvementOverFirst a b |}
         else None;
       recommendation :=
         if (sig >=? cl)%num
         then Variant.name (betterOf a b)
              +:+ " is significantly better. Implement this variant."
         else if (sig >=? Fin 80)%num then promising else continueTest |}.
Proof.
  unfold performStatisticalAnalysis, betterOf, improvementOverFirst. cbv zeta.
  destruct (rawSignificance (variantResult a) (variantResult b) >=? cl)%num.
  - destruct (rate (variantResult b) >? rate (variantResult a))%num; reflexivity.
  - destruct (rawSignificance (variantResult a) (variantResult b) >=? Fin 80)%num;
      reflexivity.
Qed.

(** When the rate of the first variant is positive and the rate of the
    second is not above it, the improvement is at most 100: the baseline is
    the higher rate. *)
Lemma improvement_over_higher_rate (a b : Variant.t) (x1 x2 : Q) :
  rate (variantResult a) = Fin x1 ->
  rate (variantResult b) = Fin x2 ->
  (0 < x1)%Q -> (0 <= x2)%Q -> (x2 <= x1)%Q ->
  within 0 100 (improvementOverFirst a b).
Proof.
  intros E1 E2 H1 H2 H3. unfold improvementOverFirst. rewrite E1, E2.
  pose proof (div_double _ _ _ E1) as D1.
  assert (Hd : within (- x1) 0 (Fin x2 - Fin x1)%num).
  { change (Fin x2 - Fin x1)%num with (rnd (x2 + Qred (- x1))).
    apply rnd_between; [apply isDouble_opp; exact D1 | apply isDouble_0 | |];
      rewrite Qred_correct; lra. }
  apply within_finite in Hd. destruct Hd as [d [-> [Hd1 Hd2]]].
  assert (Hq : within (- (1)) 1 (Fin d / Fin x1)%num).
  { assert (E : Qeq_bool x1 0 = false) by (apply Qeq_bool_false_iff; lra).
    unfold div. rewrite E.
    apply rnd_between; [apply isDouble_opp, isDouble_1 | apply isDouble_1 | |].
    - apply Qle_shift_div_l; [exact H1 | lra].
    - apply Qle_shift_div_r; [exact H1 | lra]. }
  apply abs_within in Hq.
  apply round2_within_100.
  apply (within_weaken (0 * 100) (1 * 100)); [|lra|lra].
  apply mul_within; [exact Hq | lra | vm_compute; reflexivity | vm_compute; reflexivity].
Qed.

(** C2 (as the code has it). For two variants that both pass the sample-size
    gate, a winner is declared exactly when the significance (as computed,
    before it is rounded for the report) is at least the confidence level.
    The winner is the second variant when its rate is strictly above the
    first's and the first variant otherwise.  The reported improvement is
    |(rate2 - rate1) / rate1| x 100 rounded to two decimals, computed in
    doubles as the code does, where rate1 is the rate of the FIRST variant
    whichever variant wins; so when the first variant has the higher rate
    the improvement is at most 100.  Without a winner the recommendation
    says "promising" from 80 up and "continue" below. *)
Theorem getTestResults_two_variants (db : Db) (testId : string) (t : Test.t)
    (a b : Variant.t) :
  findUniqueTest testId db = Ok (Some (t, [a; b]), db) ->
  Test.minSampleSize t <= Variant.impressions a ->
  Test.minSampleSize t <= Variant.impressions b ->
  let sig := rawSignificance (variantResult a) (variantResult b) in
  let cl := Fin (Test.confidenceLevel t) in
  let p1 := rate (variantResult a) in
  let p2 := rate (variantResult b) in
  let better := if (p2 >? p1)%num then b else a in
  exists r,
    getTestResults testId db = Ok (r, db)
    /\ Results.statisticalSignificance r
       = Some (Math_round (sig * Fin 100) / Fin 100)%num
    /\ (is_Some (Results.winner r) <-> (sig >=? cl)%num = true)
    /\ ((sig >=? cl)%num = true ->
        Results.winner r
        = Some {| variantId := Variant.id better;
                  variantName := Variant.name better;
                  improvement :=
                    (Math_round ((Math_abs ((p2 - p1) / p1) * Fin 100) * Fin 100)
                     / Fin 100)%num |}
        /\ Results.recommendedAction r
           = Some (Variant.name better
                   +:+ " is significantly better. Implement this variant.")
        /\ (forall x1 x2,
               p1 = Fin x1 -> p2 = Fin x2 -> (0 < x1)%Q -> (0 <= x2)%Q -> (x2 <= x1)%Q ->
               better = a
               /\ within 0 100
                    (Math_round ((Math_abs ((p2 - p1) / p1) * Fin 100) * Fin 100)
                     / Fin 100)%num))
    /\ ((sig >=? cl)%num = false -> (sig >=? Fin 80)%num = true ->
        Results.recommendedAction r = Some promising)
    /\ ((sig >=? cl)%num = false -> (sig >=? Fin 80)%num = false ->
        Results.recommendedAction r = Some continueTest).
Proof.
  intros Hfind Ha Hb sig cl p1 p2 better.
  rewrite (getTestResults_found _ _ _ _ Hfind), enoughData_two.
  assert (E : (Variant.impressions a >=? Test.minSampleSize t)
              && (Variant.impressions b >=? Test.minSampleSize t) = true).
  { apply andb_true_iff. rewrite !Z.geb_leb, !Z.leb_le. split; assumption. }
  rewrite E. exists (analysedResults t [a; b]).
  unfold analysedResults. change (map variantResult [a; b])
    with [variantResult a; variantResult b].
  rewrite analysis_two. cbv zeta. fold sig cl.
  cbn [Results.winner Results.statisticalSignificance Results.recommendedAction
       winner significance recommendation].
  split; [reflexivity|]. split; [reflexivity|]. split.
  { destruct (sig >=? cl)%num; split; intros Hw; try reflexivity; try discriminate.
    - eexists; reflexivity.
    - destruct Hw as [w Hw]; discriminate. }
  split.
  { intros Hsig. rewrite Hsig. split; [reflexivity|]. split; [reflexivity|].
    intros x1 x2 E1 E2 H1 H2 H3. split.
    - unfold better. rewrite E1, E2. unfold gtb, ltb.
      apply Qle_bool_iff in H3. rewrite H3. reflexivity.
    - apply (improvement_over_higher_rate a b x1 x2); assumption. }
  split.
  - intros Hsig H80. rewrite Hsig, H80. reflexivity.
  - intros Hsig H80. rewrite Hsig, H80. reflexivity.
Qed.

End GetTestResults.

(** A runtime that replays the answers of one run: the square root of
    0.0025 is 0.05, and the normal distribution function at
    6.000000000000001 is answered 0.999. *)
Definition replay : Numerics :=
  tableNumerics [(double (1 # 400), double (1 # 20))]
                [((6755399441055745 # 1125899906842624)%Q, double (999 # 1000))] [].

(** The improvement as C2 words it: relative to the lower of the two rates. *)
Definition liftOverLowerRate (rateA rateB : num) : num :=
  (Math_round ((Math_abs (rateB - rateA) / Math_min rateA rateB * Fin 100) * Fin 100)
   / Fin 100)%num.

(** C2 as stated fails.  The first variant converts 130 of 200 (65%), the
    second 70 of 200 (35%); both pass the gate of 100 impressions.  The first
    variant wins and the reported improvement is 46.15 = |35 - 65| / 65 x 100,
    relative to the winner's own, higher rate; relative to the lower rate it
    would be 85.71. *)
Lemma getTestResults_improvement_baseline_is_first :
  rate (variantResult sampleA) = lit (13 # 20)
  /\ rate (variantResult sampleB) = lit (7 # 20)
  /\ (exists r,
        @getTestResults replay "t1" sampleDb = Ok (r, sampleDb)
        /\ Results.statisticalSignificance r = Some (lit (998 # 10))
        /\ Results.winner r
           = Some {| variantId := "vA"; variantName := "A";
                     improvement := lit (4615 # 100) |})
  /\ liftOverLowerRate (rate (variantResult sampleA)) (rate (variantResult sampleB))
     = lit (8571 # 100).
Proof.
  split; [vm_compute; reflexivity|]. split; [vm_compute; reflexivity|].
  split; [|vm_compute; reflexivity].
  exists (@analysedResults replay sampleTest [sampleA; sampleB]).
  split; [|split]; vm_compute; reflexivity.
Qed.

Lemma getTestResults_two_variants_witness :
  exists r,
    @getTestResults replay "t1" sampleDb = Ok (r, sampleDb)
    /\ Results.winner r
       = Some {| variantId := "vA"; variantName := "A"; improvement := lit (4615 # 100) |}.
Proof.
  destruct (@getTestResults_two_variants replay sampleDb "t1" sampleTest sampleA sampleB
              eq_refl ltac:(vm_compute; discriminate) ltac:(vm_compute; discriminate))
    as [r [Hrun [_ [_ [Hwin _]]]]].
  exists r. split; [exact Hrun|].
  destruct (Hwin ltac:(vm_compute; reflexivity)) as [Hw _].
  rewrite Hw. vm_compute. reflexivity.
Defined.

(** Two variants with 10 and 20 impressions under a gate of 100. *)
Definition fewA : Variant.t :=
  {| Variant.id := "wA"; Variant.testId := "t2"; Variant.name := "A";
     Variant.trafficPercent := 50; Variant.impressions := 10; Variant.clicks := 0;
     Variant.conversions := 9; Variant.revenue := 0 |}.

Definition fewB : Variant.t :=
  {| Variant.id := "wB"; Variant.testId := "t2"; Variant.name := "B";
     Variant.trafficPercent := 50; Variant.impressions := 20; Variant.clicks := 0;
     Variant.conversions := 1; Variant.revenue := 0 |}.

Definition fewTest : Test.t :=
  {| Test.id := "t2"; Test.name := "E2"; Test.status := RUNNING;
     Test.confidenceLevel := 95; Test.minSampleSize := 100;
     Test.startDate := None; Test.endDate := None |}.

Definition fewDb : Db :=
  {| abTest := [fewTest]; abTestVariant := [fewA; fewB];
     abTestResult := []; activity := []; lead := []; campaign := [] |}.

(** C4 as stated fails: below the gate the result carries no significance at
    all (not the number 0) and no recommendation. *)
Lemma getTestResults_below_gate_fields_unset :
  exists r,
    @getTestResults replay "t2" fewDb = Ok (r, fewDb)
    /\ Results.statisticalSignificance r = None
    /\ Results.statisticalSignificance r <> Some (Fin 0)
    /\ Results.recommendedAction r = None.
Proof.
  exists (plainResults fewTest [fewA; fewB]).
  split; [vm_compute; reflexivity|]. repeat split. discriminate.
Qed.

Lemma getTestResults_insufficient_data_witness :
  exists r,
    @getTestResults replay "t2" fewDb = Ok (r, fewDb)
    /\ Results.winner r = None
    /\ Results.statisticalSignificance r = None
    /\ Results.recommendedAction r = None
    /\ Results.variants r = [variantResult fewA; variantResult fewB].
Proof.
  apply (@getTestResults_insufficient_data replay fewDb "t2" fewTest fewA fewB eq_refl).
  left. vm_compute. reflexivity.
Defined.

(** Three variants that all pass a gate of 100 impressions. *)
Definition triA : Variant.t :=
  {| Variant.id := "xA"; Variant.testId := "t3"; Variant.name := "A";
     Variant.trafficPercent := 40; Variant.impressions := 500; Variant.clicks := 0;
     Variant.conversions := 50; Variant.revenue := 0 |}.

Definition triB : Variant.t :=
  {| Variant.id := "xB"; Variant.testId := "t3"; Variant.name := "B";
     Variant.trafficPercent := 30; Variant.impressions := 400; Variant.clicks := 0;
     Variant.conversions := 60; Variant.revenue := 0 |}.

Definition triC : Variant.t :=
  {| Variant.id := "xC"; Variant.testId := "t3"; Variant.name := "C";
     Variant.trafficPercent := 30; Variant.impressions := 300; Variant.clicks := 0;
     Variant.conversions := 70; Variant.revenue := 0 |}.

Definition triTest : Test.t :=
  {| Test.id := "t3"; Test.name := "E3"; Test.status := RUNNING;
     Test.confidenceLevel := 95; Test.minSampleSize := 100;
     Test.startDate := None; Test.endDate := None |}.

Definition triDb : Db :=
  {| abTest := [triTest]; abTestVariant := [triA; triB; triC];
     abTestResult := []; activity := []; lead := []; campaign := [] |}.

(** C7 as stated fails: with three variants the evaluation returns a result
    (significance 0 and a message), it does not throw; with one variant it
    returns a result as well. *)
Lemma getTestResults_three_variants_returns :
  (exists r,
      @getTestResults replay "t3" triDb = Ok (r, triDb)
      /\ Results.statisticalSignificance r = Some (Fin 0)
      /\ Results.recommendedAction r = Some unsupported
      /\ Results.winner r = None)
  /\ (exists r,
      @getTestResults replay "t3"
        {| abTest := [triTest]; abTestVariant := [triA];
           abTestResult := []; activity := []; lead := []; campaign := [] |}
      = Ok (r, {| abTest := [triTest]; abTestVariant := [triA];
                  abTestResult := []; activity := []; lead := []; campaign := [] |})
      /\ Results.statisticalSignificance r = None).
Proof.
  split.
  - exists (@analysedResults replay triTest [triA; triB; triC]).
    split; [vm_compute; reflexivity|]. repeat split.
  - exists (plainResults triTest [triA]).
    split; [vm_compute; reflexivity|]. reflexivity.
Qed.

Lemma getTestResults_other_variant_count_witness :
  exists r,
    @getTestResults replay "t3" triDb = Ok (r, triDb)
    /\ Results.winner r = None
    /\ Results.statisticalSignificance r = Some (Fin 0)
    /\ Results.recommendedAction r = Some unsupported.
Proof.
  destruct (@getTestResults_other_variant_count replay triDb "t3" triTest
              [triA; triB; triC] eq_refl ltac:(discriminate))
    as [r [Hrun [Hwin [Hyes _]]]].
  exists r. split; [exact Hrun|]. split; [exact Hwin|].
  apply Hyes. reflexivity.
Defined.

End AbTestFacts.

(* ===================================================================== *)
(** * Facts about the weighted scoring *)
(* ===================================================================== *)

Module ScoringFacts.
Import Js JsFacts Scoring.

(** ** Normalized values *)

Lemma lit_12_10 : exists v, lit (12 # 10) = Fin v /\ (1 < v)%Q.
Proof. eexists. split; [vm_compute; reflexivity|]. reflexivity. Qed.

Lemma Math_min_1_within a :
  a = PosInf \/ (exists v, a = Fin v /\ (0 <= v)%Q) -> within 0 1 (Math_min (Fin 1) a).
Proof.
  intros [->|[v [-> Hv]]].
  - simpl. lra.
  - unfold Math_min, leb. destruct (Qle_bool 1 v) eqn:E.
    + simpl. lra.
    + apply Qle_bool_false_iff in E. simpl. lra.
Qed.

Lemma Math_max_0_rnd q :
  Math_max (Fin 0) (rnd q) = PosInf
  \/ exists v, Math_max (Fin 0) (rnd q) = Fin v /\ (0 <= v)%Q.
Proof.
  destruct (rnd_cases q) as [[E _]|[[E _]|[E _]]]; rewrite E.
  - left. reflexivity.
  - right. exists 0%Q. split; [reflexivity | lra].
  - right. unfold Math_max, leb. destruct (Qle_bool 0 (Qred (Binary64.sval q))) eqn:E0.
    + apply Qle_bool_iff in E0. eexists. split; [reflexivity | exact E0].
    + exists 0%Q. split; [reflexivity | lra].
Qed.

(** Every value normalizes to a finite number between 0 and 1. *)
Lemma normalizeFeatureValue_within value : within 0 1 (normalizeFeatureValue value).
Proof.
  destruct value as [| |q|b|items|s]; try (simpl; lra).
  - unfold normalizeFeatureValue.
    assert (E : Qeq_bool 100 0 = false) by reflexivity.
    unfold div. rewrite E. apply Math_min_1_within. apply Math_max_0_rnd.
  - destruct b; simpl; lra.
  - unfold normalizeFeatureValue. rewrite ofNat_Fin.
    assert (E : Qeq_bool 10 0 = false) by reflexivity.
    unfold div. rewrite E. apply Math_min_1_within.
    apply rnd_above; [apply isDouble_0|].
    apply Qle_shift_div_l; [reflexivity|]. rewrite Qmult_0_l. apply inject_nat_nonneg.
Qed.

(** ** The weighted sums *)

(** The present features whose weight is neither missing nor 0, each as
    its value and its weight, in the order of the vector. *)
Fixpoint weighted (features : LeadFeatures) (weights : gmap string Q)
    : list (FeatureValue * Q) :=
  match features with
  | [] => []
  | (feature, value) :: rest =>
      match weights !! feature with
      | Some w =>
          if negb (Qeq_bool w 0) && isPresent value
          then (value, w) :: weighted rest weights
          else weighted rest weights
      | None => weighted rest weights
      end
  end.

(** The sum of normalized value x weight, and the sum of the weights, over
    the weighted present features: sums of doubles, added one by one from
    0. *)
Definition numeratorFrom (start : num) (pairs : list (FeatureValue * Q)) : num :=
  fold_left (fun sum vw => (sum + normalizeFeatureValue (fst vw) * Fin (snd vw))%num)
            pairs start.

Definition denominatorFrom (start : num) (pairs : list (FeatureValue * Q)) : num :=
  fold_left (fun sum vw => (sum + Fin (snd vw))%num) pairs start.

Definition numerator (features : LeadFeatures) (weights : gmap string Q) : num :=
  numeratorFrom (Fin 0) (weighted features weights).

Definition denominator (features : LeadFeatures) (weights : gmap string Q) : num :=
  denominatorFrom (Fin 0) (weighted features weights).

Lemma truthy_Fin w : truthy (Fin w) = negb (Qeq_bool w 0).
Proof. reflexivity. Qed.

Lemma fold_accumulate_value weights : forall features acc,
  totalScore (fold_left (accumulate weights) features acc)
  = numeratorFrom (totalScore acc) (weighted features weights)
  /\ totalWeight (fold_left (accumulate weights) features acc)
     = denominatorFrom (totalWeight acc) (weighted features weights).
Proof.
  induction features as [|[feature value] rest IH]; intros acc; [split; reflexivity|].
  cbn [fold_left weighted]. unfold accumulate at 2 4.
  destruct (weights !! feature) as [w|]; [|apply IH].
  rewrite truthy_Fin.
  destruct (negb (Qeq_bool w 0) && isPresent value); [|apply IH].
  destruct (IH {| totalScore := (totalScore acc + normalizeFeatureValue value * Fin w)%num;
                  totalWeight := (totalWeight acc + Fin w)%num;
                  impacts := impacts acc
                             ++ [{| feature := feature;
                                    impact := (Math_round (normalizeFeatureValue value * Fin w
                                                           * Fin 100) / Fin 100)%num;
                                    value := value |}] |}) as [H1 H2].
  split; [exact H1 | exact H2].
Qed.

(** The two running totals are the two sums of the formula. *)
Lemma weightedSum_value features weights :
  totalScore (weightedSum features weights) = numerator features weights
  /\ totalWeight (weightedSum features weights) = denominator features weights.
Proof. apply fold_accumulate_value. Qed.

Section ApplyAlgorithm.
Context `{NumberFormat}.

Lemma score_unfold features algorithm :
  ScoringResult.score (applyAlgorithm features algorithm)
  = (Math_round (finalScore (weightedSum features (Algorithm.weights algorithm)) * Fin 100)
     / Fin 100)%num.
Proof. reflexivity. Qed.

Lemma confidence_unfold features algorithm :
  ScoringResult.confidence (applyAlgorithm features algorithm)
  = (Math_round
       (Math_min (Fin 1)
          (ofNat (presentCount features) / ofNat (size (Algorithm.weights algorithm))
           * lit (12 # 10)) * Fin 100) / Fin 100)%num.
Proof. reflexivity. Qed.

Lemma finalScore_value features weights :
  finalScore (weightedSum features weights)
  = if (denominator features weights >? Fin 0)%num
    then (numerator features weights / denominator features weights * Fin 100)%num
    else Fin 0.
Proof.
  unfold finalScore. destruct (weightedSum_value features weights) as [-> ->]. reflexivity.
Qed.

Lemma score_no_weighted features algorithm :
  weighted features (Algorithm.weights algorithm) = [] ->
  ScoringResult.score (applyAlgorithm features algorithm) = Fin 0.
Proof.
  intros Hw. rewrite score_unfold, finalScore_value.
  unfold denominator. rewrite Hw. reflexivity.
Qed.

Lemma ofNat_pos_inj n : n <> 0%nat -> Qeq_bool (inject_Z (Z.of_nat n)) 0 = false.
Proof.
  intros Hn. apply Qeq_bool_false_iff. intros E. apply Hn.
  unfold Qeq in E. simpl in E. lia.
Qed.

Lemma confidence_no_feature features algorithm :
  presentCount features = 0%nat ->
  size (Algorithm.weights algorithm) <> 0%nat ->
  ScoringResult.confidence (applyAlgorithm features algorithm) = Fin 0.
Proof.
  intros Hp Hs. rewrite confidence_unfold, Hp.
  rewrite (ofNat_Fin (size _)). change (ofNat 0) with (Fin 0).
  unfold div. rewrite (ofNat_pos_inj _ Hs).
  rewrite (rnd_0 (0 / inject_Z (Z.of_nat (size (Algorithm.weights algorithm)))))
    by (unfold Qdiv; apply Qmult_0_l).
  vm_compute. reflexivity.
Qed.

(** C3 (as the code has it). The two totals of the score are the sum of
    normalized value x weight and the sum of the weights over the present
    features that have a non-zero weight, added as doubles in the order of
    the vector; the score before rounding is the first total divided by the
    second, times 100, whenever the second is positive, and 0 otherwise; the
    reported score is this value rounded to two decimals.  An absent feature
    enters neither sum.  With no weighted feature present the score is 0.
    The confidence is computed from the number of present features of the
    whole vector, weighted or not, over the number of weight entries; it is
    0 when no feature at all is present and the weight map is not empty. *)
Theorem weighted_score_formula (features : LeadFeatures) (algorithm : Algorithm.t) :
  let weights := Algorithm.weights algorithm in
  let n := numerator features weights in
  let d := denominator features weights in
  let result := applyAlgorithm features algorithm in
  totalScore (weightedSum features weights) = n
  /\ totalWeight (weightedSum features weights) = d
  /\ finalScore (weightedSum features weights)
     = (if (d >? Fin 0)%num then (n / d * Fin 100)%num else Fin 0)
  /\ ScoringResult.score result
     = (Math_round ((if (d >? Fin 0)%num then (n / d * Fin 100)%num else Fin 0) * Fin 100)
        / Fin 100)%num
  /\ (forall feature value,
         isPresent value = false ->
         weighted ((feature, value) :: features) weights = weighted features weights)
  /\ (weighted features weights = [] -> ScoringResult.score result = Fin 0)
  /\ (presentCount features = 0%nat -> size weights <> 0%nat ->
      ScoringResult.confidence result = Fin 0)
  /\ ScoringResult.confidence result
     = (Math_round
          (Math_min (Fin 1)
             (ofNat (presentCount features) / ofNat (size weights) * lit (12 # 10))
           * Fin 100) / Fin 100)%num.
Proof.
  intros weights n d result.
  destruct (weightedSum_value features weights) as [Hn Hd].
  split; [exact Hn|]. split; [exact Hd|].
  split; [apply finalScore_value|].
  split; [unfold result; rewrite score_unfold, finalScore_value; reflexivity|].
  split.
  { intros feature value Hv. cbn [weighted]. rewrite Hv.
    destruct (weights !! feature) as [w|]; [rewrite andb_false_r|]; reflexivity. }
  split; [apply score_no_weighted|].
  split; [apply confidence_no_feature | reflexivity].
Qed.


(** ** Bounds *)

(** The weights as a JSON document gives them: doubles, here non-negative. *)
Definition weightsOk (weights : gmap string Q) : Prop :=
  forall feature w, weights !! feature = Some w -> isDouble w /\ (0 <= w)%Q.

Lemma weighted_weights features (weights : gmap string Q) vw :
  vw ∈ weighted features weights -> exists f, weights !! f = Some (snd vw).
Proof.
  induction features as [|[feature value] rest IH]; cbn [weighted]; intros Hin.
  - apply elem_of_nil in Hin. contradiction.
  - destruct (weights !! feature) as [w|] eqn:E; [|apply IH; exact Hin].
    destruct (negb (Qeq_bool w 0) && isPresent value); [|apply IH; exact Hin].
    apply elem_of_cons in Hin. destruct Hin as [->|Hin]; [|apply IH; exact Hin].
    exists feature. exact E.
Qed.

Lemma sums_step ts tw nv w :
  atLeastZero ts -> atLeastZero tw -> (ts <=? tw)%num = true ->
  within 0 1 nv -> isDouble w -> (0 <= w)%Q ->
  atLeastZero (ts + nv * Fin w)%num /\ atLeastZero (tw + Fin w)%num
  /\ (ts + nv * Fin w <=? tw + Fin w)%num = true.
Proof.
  intros Hts Htw Hle Hnv Hw Hw0.
  apply within_finite in Hnv. destruct Hnv as [n [-> [Hn0 Hn1]]].
  assert (Hi : within 0 w (Fin n * Fin w)%num).
  { change (Fin n * Fin w)%num with (rnd (n * w)).
    apply rnd_between; [apply isDouble_0 | exact Hw | |].
    - apply Qmult_le_0_compat; assumption.
    - rewrite <- (Qmult_1_l w) at 2. apply Qmult_le_compat_r; assumption. }
  apply within_finite in Hi. destruct Hi as [i [-> [Hi0 Hi1]]].
  split; [apply atLeastZero_add; assumption|]. split; [apply atLeastZero_add; assumption|].
  destruct Hts as [->|[a [-> Ha]]]; destruct Htw as [->|[b [-> Hb]]].
  - reflexivity.
  - discriminate.
  - change (PosInf + Fin w)%num with PosInf.
    change (Fin a + Fin i)%num with (rnd (a + i)).
    destruct (rnd (a + i)) eqn:E; try reflexivity. exfalso. exact (rnd_not_NaN _ E).
  - change (Fin a + Fin i)%num with (rnd (a + i)).
    change (Fin b + Fin w)%num with (rnd (b + w)).
    apply rnd_le. simpl in Hle. apply Qle_bool_iff in Hle. lra.
Qed.

Lemma sums_bounds (pairs : list (FeatureValue * Q)) :
  (forall vw, vw ∈ pairs -> isDouble (snd vw) /\ (0 <= snd vw)%Q) ->
  forall ts tw,
    atLeastZero ts -> atLeastZero tw -> (ts <=? tw)%num = true ->
    atLeastZero (numeratorFrom ts pairs) /\ atLeastZero (denominatorFrom tw pairs)
    /\ (numeratorFrom ts pairs <=? denominatorFrom tw pairs)%num = true.
Proof.
  induction pairs as [|[value w] rest IH]; intros Hw ts tw Hts Htw Hle.
  - auto.
  - destruct (Hw (value, w)) as [Hd H0]; [apply list_elem_of_here|].
    destruct (sums_step ts tw (normalizeFeatureValue value) w Hts Htw Hle
                (normalizeFeatureValue_within value) Hd H0) as [H1 [H2 H3]].
    apply (IH (fun vw Hin => Hw vw (list_elem_of_further _ _ _ Hin)) _ _ H1 H2 H3).
Qed.

Lemma weightedSum_bounds features weights :
  weightsOk weights ->
  atLeastZero (numerator features weights) /\ atLeastZero (denominator features weights)
  /\ (numerator features weights <=? denominator features weights)%num = true.
Proof.
  intros Hw. apply sums_bounds.
  - intros vw Hin. destruct (weighted_weights _ _ _ Hin) as [f Hf]. exact (Hw _ _ Hf).
  - right. exists 0%Q. split; [reflexivity | lra].
  - right. exists 0%Q. split; [reflexivity | lra].
  - reflexivity.
Qed.

(** With non-negative weights the score before rounding is between 0 and
    100, unless the sum of the products overflows: then it is NaN. *)
Lemma finalScore_bounds features weights :
  weightsOk weights ->
  (numerator features weights <> PosInf ->
   within 0 100 (finalScore (weightedSum features weights)))
  /\ (numerator features weights = PosInf ->
      finalScore (weightedSum features weights) = NaN).
Proof.
  intros Hw. destruct (weightedSum_bounds features weights Hw) as [Hn [Hd Hle]].
  rewrite finalScore_value. split.
  - intros Hfin. destruct Hn as [Hn|[n [En Hn]]]; [contradiction|]. rewrite En in *.
    destruct Hd as [Ed|[d [Ed Hd0]]]; rewrite Ed in *.
    + vm_compute. split; discriminate.
    + unfold gtb, ltb. destruct (Qle_bool d 0) eqn:E; cbn [negb].
      * simpl. lra.
      * apply Qle_bool_false_iff in E. simpl in Hle. apply Qle_bool_iff in Hle.
        apply (within_weaken (0 * 100) (1 * 100)); [|lra|lra].
        apply mul_within; [| lra | vm_compute; reflexivity | vm_compute; reflexivity].
        assert (Ez : Qeq_bool d 0 = false) by (apply Qeq_bool_false_iff; lra).
        unfold div. rewrite Ez.
        apply rnd_between; [apply isDouble_0 | apply isDouble_1 | |].
        -- apply Qle_shift_div_l; lra.
        -- apply Qle_shift_div_r; lra.
  - intros En. rewrite En in *.
    destruct Hd as [Ed|[d [Ed Hd0]]]; rewrite Ed in *; [reflexivity | discriminate].
Qed.

Lemma score_within features algorithm :
  weightsOk (Algorithm.weights algorithm) ->
  numerator features (Algorithm.weights algorithm) <> PosInf ->
  within 0 100 (ScoringResult.score (applyAlgorithm features algorithm)).
Proof.
  intros Hw Hfin. rewrite score_unfold. apply round2_within_100.
  apply (proj1 (finalScore_bounds features _ Hw)). exact Hfin.
Qed.

Lemma score_overflow features algorithm :
  weightsOk (Algorithm.weights algorithm) ->
  numerator features (Algorithm.weights algorithm) = PosInf ->
  ScoringResult.score (applyAlgorithm features algorithm) = NaN.
Proof.
  intros Hw Hinf. rewrite score_unfold.
  rewrite (proj2 (finalScore_bounds features _ Hw) Hinf). reflexivity.
Qed.

Lemma round2_within_1 a :
  within 0 1 a -> within 0 1 (Math_round (a * Fin 100) / Fin 100)%num.
Proof.
  intros Ha.
  assert (H1 : within 0 100 (a * Fin 100)%num).
  { apply (within_weaken (0 * 100) (1 * 100)); [|lra|lra].
    apply mul_within; [exact Ha | lra | vm_compute; reflexivity | vm_compute; reflexivity]. }
  apply (round_within 0 100) in H1.
  apply (within_weaken (0 / 100) (100 / 100));
    [| apply Qle_bool_iff; reflexivity | apply Qle_bool_iff; reflexivity].
  apply div_within; [exact H1 | lra | vm_compute; reflexivity | vm_compute; reflexivity].
Qed.

Lemma completeness_total features (weights : gmap string Q) :
  size weights <> 0%nat \/ presentCount features <> 0%nat ->
  atLeastZero (featureCompleteness features weights * lit (12 # 10))%num.
Proof.
  intros Hnd. destruct lit_12_10 as [c [Ec Hc]]. rewrite Ec.
  unfold featureCompleteness. rewrite !ofNat_Fin.
  assert (Hq : atLeastZero (Fin (inject_Z (Z.of_nat (presentCount features)))
                      / Fin (inject_Z (Z.of_nat (size weights))))%num).
  { destruct (Nat.eq_dec (size weights) 0%nat) as [Hz|Hnz].
    - destruct Hnd as [Hs|Hp]; [contradiction|]. rewrite Hz. left.
      unfold div. change (Qeq_bool (inject_Z (Z.of_nat 0)) 0) with true. cbv iota.
      assert (Hgt : (inject_Z (Z.of_nat (presentCount features)) ?= 0)%Q = Gt).
      { apply Qgt_alt. apply inject_nat_pos. lia. }
      rewrite Hgt. reflexivity.
    - unfold div. rewrite (ofNat_pos_inj _ Hnz).
      apply rnd_above; [apply isDouble_0|].
      apply Qle_shift_div_l; [apply inject_nat_pos; lia|].
      rewrite Qmult_0_l. apply inject_nat_nonneg. }
  destruct Hq as [->|[q [-> Hq]]].
  - left. simpl. assert (Hgt : (c ?= 0)%Q = Gt) by (apply Qgt_alt; lra).
    rewrite Hgt. reflexivity.
  - change (Fin q * Fin c)%num with (rnd (q * c)).
    apply rnd_above; [apply isDouble_0|]. apply Qmult_le_0_compat; lra.
Qed.

Lemma confidence_within features algorithm :
  size (Algorithm.weights algorithm) <> 0%nat \/ presentCount features <> 0%nat ->
  within 0 1 (ScoringResult.confidence (applyAlgorithm features algorithm)).
Proof.
  intros Hnd. rewrite confidence_unfold. apply round2_within_1.
  apply Math_min_1_within. apply (completeness_total features _ Hnd).
Qed.

(** The bounds of C8 hold as long as the sum of the products does not
    overflow: the score is in [0, 100] for non-negative weights, the
    confidence is in [0, 1] as soon as there is a weight entry or a present
    feature. *)
Lemma applyAlgorithm_bounds features algorithm :
  weightsOk (Algorithm.weights algorithm) ->
  (numerator features (Algorithm.weights algorithm) <> PosInf ->
   within 0 100 (ScoringResult.score (applyAlgorithm features algorithm)))
  /\ (size (Algorithm.weights algorithm) <> 0%nat \/ presentCount features <> 0%nat ->
      within 0 1 (ScoringResult.confidence (applyAlgorithm features algorithm))).
Proof.
  intros Hw. split; [apply score_within; exact Hw | apply confidence_within].
Qed.


(** ** A weight of 0 *)

Definition withWeights (algorithm : Algorithm.t) (weights : gmap string Q) : Algorithm.t :=
  {| Algorithm.name := Algorithm.name algorithm;
     Algorithm.weights := weights;
     Algorithm.thresholds := Algorithm.thresholds algorithm |}.

Lemma accumulate_delete_zero (weights : gmap string Q) f w acc entry :
  weights !! f = Some w -> (w == 0)%Q ->
  accumulate weights acc entry = accumulate (delete f weights) acc entry.
Proof.
  intros Hf Hw. destruct entry as [feature value]. unfold accumulate.
  destruct (decide (f = feature)) as [->|Hne].
  - rewrite Hf, lookup_delete_eq. rewrite truthy_Fin.
    apply Qeq_bool_iff in Hw. rewrite Hw. reflexivity.
  - rewrite lookup_delete_ne by exact Hne. reflexivity.
Qed.

Lemma weightedSum_delete_zero features (weights : gmap string Q) f w :
  weights !! f = Some w -> (w == 0)%Q ->
  weightedSum features weights = weightedSum features (delete f weights).
Proof.
  intros Hf Hw. unfold weightedSum.
  generalize ({| totalScore := Fin 0; totalWeight := Fin 0; impacts := [] |}).
  induction features as [|entry rest IH]; intros acc; [reflexivity|].
  simpl. rewrite (accumulate_delete_zero weights f w acc entry Hf Hw). apply IH.
Qed.

Lemma impacts_weighted (weights : gmap string Q) : forall features acc i,
  i ∈ impacts (fold_left (accumulate weights) features acc) ->
  i ∈ impacts acc
  \/ exists w, weights !! feature i = Some w /\ Qeq_bool w 0 = false.
Proof.
  induction features as [|[f value] rest IH]; intros acc i Hi; [left; exact Hi|].
  simpl in Hi. apply IH in Hi. destruct Hi as [Hi|Hi]; [|right; exact Hi].
  unfold accumulate in Hi.
  destruct (weights !! f) as [w|] eqn:Ef; [|left; exact Hi].
  destruct (Qeq_bool w 0) eqn:Ew; simpl in Hi; [left; exact Hi|].
  destruct (isPresent value); simpl in Hi; [|left; exact Hi].
  apply elem_of_app in Hi. destruct Hi as [Hi|Hi]; [left; exact Hi|].
  apply list_elem_of_singleton in Hi. subst i. right. exists w. simpl. auto.
Qed.

Lemma insertImpact_elem x : forall sorted i,
  i ∈ insertImpact x sorted -> i = x \/ i ∈ sorted.
Proof.
  induction sorted as [|y rest IH]; intros i Hi; simpl in Hi.
  - apply list_elem_of_singleton in Hi. left; exact Hi.
  - destruct (compareImpact y x <? Fin 0)%num.
    + apply elem_of_cons in Hi. destruct Hi as [->|Hi].
      * right. apply list_elem_of_here.
      * destruct (IH _ Hi) as [->|Hin]; [left; reflexivity|].
        right. apply list_elem_of_further. exact Hin.
    + apply elem_of_cons in Hi. destruct Hi as [->|Hi]; [left; reflexivity | right; exact Hi].
Qed.

Lemma sortImpacts_elem : forall l i, i ∈ sortImpacts l -> i ∈ l.
Proof.
  induction l as [|x l IH]; intros i Hi; simpl in Hi; [exact Hi|].
  destruct (insertImpact_elem _ _ _ Hi) as [->|Hin].
  - apply list_elem_of_here.
  - apply list_elem_of_further. apply IH. exact Hin.
Qed.

Lemma presentCount_middle pre f value post :
  isPresent value = true ->
  presentCount (pre ++ (f, value) :: post) = S (presentCount (pre ++ post)).
Proof.
  intros Hv. unfold presentCount.
  rewrite !map_app, !filter_app, !length_app. simpl map.
  rewrite filter_cons_True by exact Hv. simpl. lia.
Qed.

(** C10. A feature whose weight is 0 is treated like a feature without a
    weight entry: the running totals of the score, the impacts, the score,
    the category and the explanation are those of the weight map with the
    entry removed, and no explanation factor names the feature.  The feature
    still counts among the present features of the confidence ratio. *)
Theorem zero_weight_is_no_weight (features : LeadFeatures) (algorithm : Algorithm.t)
    (f : string) (w : Q) :
  Algorithm.weights algorithm !! f = Some w ->
  (w == 0)%Q ->
  let weights := Algorithm.weights algorithm in
  let without := withWeights algorithm (delete f weights) in
  weightedSum features weights = weightedSum features (delete f weights)
  /\ ScoringResult.score (applyAlgorithm features algorithm)
     = ScoringResult.score (applyAlgorithm features without)
  /\ ScoringResult.category (applyAlgorithm features algorithm)
     = ScoringResult.category (applyAlgorithm features without)
  /\ ScoringResult.explanation (applyAlgorithm features algorithm)
     = ScoringResult.explanation (applyAlgorithm features without)
  /\ (forall i, i ∈ impacts (weightedSum features weights) -> feature i <> f)
  /\ (forall i,
         i ∈ topFactors (ScoringResult.explanation (applyAlgorithm features algorithm)) ->
         feature i <> f)
  /\ (forall pre value post,
         features = pre ++ (f, value) :: post ->
         isPresent value = true ->
         presentCount features = S (presentCount (pre ++ post)))
  /\ ScoringResult.confidence (applyAlgorithm features algorithm)
     = (Math_round
          (Math_min (Fin 1)
             (ofNat (presentCount features) / ofNat (size weights) * lit (12 # 10))
           * Fin 100) / Fin 100)%num.
Proof.
  intros Hf Hw weights without.
  pose proof (weightedSum_delete_zero features weights f w Hf Hw) as Hsum.
  assert (Himp : forall i, i ∈ impacts (weightedSum features weights) -> feature i <> f).
  { intros i Hi Hfi. unfold weightedSum in Hi. apply impacts_weighted in Hi.
    destruct Hi as [Hi|[w' [Hw' Hne]]].
    - simpl in Hi. apply elem_of_nil in Hi. exact Hi.
    - rewrite Hfi in Hw'. fold weights in Hf. rewrite Hf in Hw'. injection Hw' as <-.
      apply Qeq_bool_iff in Hw. congruence. }
  split; [exact Hsum|].
  split; [unfold applyAlgorithm; simpl; fold weights; rewrite Hsum; reflexivity|].
  split; [unfold applyAlgorithm; simpl; fold weights; rewrite Hsum; reflexivity|].
  split; [unfold applyAlgorithm; simpl; fold weights; rewrite Hsum; reflexivity|].
  split; [exact Himp|].
  split.
  { intros i Hi. apply Himp. unfold applyAlgorithm in Hi. simpl in Hi.
    apply sortImpacts_elem. eapply subseteq_take. exact Hi. }
  split.
  { intros pre value post -> Hv. apply presentCount_middle. exact Hv. }
  reflexivity.
Qed.

End ApplyAlgorithm.

(** ** Sample runs *)

(** A formatter for the sample runs: a finite number is printed as a
    fraction. *)
Definition fractionFormat : NumberFormat :=
  {| Number_toString := fun a =>
       match a with
       | Fin q => pretty (Qnum q) +:+ "/" +:+ pretty (Z.pos (Qden q))
       | PosInf => "Infinity"
       | NegInf => "-Infinity"
       | NaN => "NaN"
       end |}.

Definition sampleThresholds : Thresholds.t :=
  {| Thresholds.hot := 70; Thresholds.warm := 40; Thresholds.cold := 0 |}.

(** One weighted feature, companySize, which the lead does not have; the
    lead has one feature that carries no weight. *)
Definition sizeOnly : Algorithm.t :=
  {| Algorithm.name := "size-only";
     Algorithm.weights := {[ "companySize" := (1 # 2)%Q ]};
     Algorithm.thresholds := sampleThresholds |}.

Definition formOnly : LeadFeatures := [("formSubmissions", VNumber 1)].

(** C3 as stated fails: no weighted feature is present and the score is 0,
    but the confidence is 1, because the unweighted feature counts as
    present. *)
Lemma confidence_counts_unweighted_feature :
  weighted formOnly (Algorithm.weights sizeOnly) = []
  /\ ScoringResult.score (@applyAlgorithm fractionFormat formOnly sizeOnly) = Fin 0
  /\ ScoringResult.confidence (@applyAlgorithm fractionFormat formOnly sizeOnly) = Fin 1.
Proof. split; [reflexivity|]. split; vm_compute; reflexivity. Qed.

(** A stored lead without company data: a chief executive with a business
    address, a LinkedIn profile, a website and a phone number.  The
    extractor gives the lead seniority 100 and contact quality 100. *)
Definition chiefExecutive : LeadScoring.Lead.t :=
  {| LeadScoring.Lead.email := "kim@acme.io";
     LeadScoring.Lead.industry := None;
     LeadScoring.Lead.jobTitle := Some "CEO";
     LeadScoring.Lead.phone := Some "555 0100";
     LeadScoring.Lead.website := Some "https://acme.io";
     LeadScoring.Lead.linkedinUrl := Some "https://linkedin.com/in/kim";
     LeadScoring.Lead.companyInfo := None;
     LeadScoring.Lead.activities := [];
     LeadScoring.Lead.campaigns := [];
     LeadScoring.Lead.formSubmission := None |}.

(** An algorithm with the weight 1e308 on two features. *)
Definition hugeWeights : Algorithm.t :=
  {| Algorithm.name := "huge";
     Algorithm.weights :=
       {[ "seniorityLevel" := double (10 ^ 308); "contactQuality" := double (10 ^ 308) ]};
     Algorithm.thresholds := sampleThresholds |}.

(** C8 at a failing input.  The two weights are non-negative doubles; the
    vector is the one the extractor computes for the lead; the two products
    are 1e308 each, their sum overflows, as does the sum of the weights, and
    the score is Infinity / Infinity x 100 = NaN, not a number in
    [0, 100]. *)
Theorem score_nan_on_overflow (format : NumberFormat) (now : Z) :
  weightsOk (Algorithm.weights hugeWeights)
  /\ exists features,
       LeadScoring.extractLeadFeatures LeadScoring.normalizeRevenue_missing
         chiefExecutive now = Ok features
       /\ totalScore (weightedSum features (Algorithm.weights hugeWeights)) = PosInf
       /\ totalWeight (weightedSum features (Algorithm.weights hugeWeights)) = PosInf
       /\ ScoringResult.score (applyAlgorithm features hugeWeights) = NaN
       /\ ScoringResult.category (applyAlgorithm features hugeWeights) = cold
       /\ ScoringResult.confidence (applyAlgorithm features hugeWeights) = Fin 1.
Proof.
  split.
  - intros feature w Hw. unfold hugeWeights in Hw. cbn [Algorithm.weights] in Hw.
    apply lookup_insert_Some in Hw. destruct Hw as [[_ <-]|[_ Hw]].
    + split; [vm_compute; reflexivity | apply Qle_bool_iff; vm_compute; reflexivity].
    + apply lookup_singleton_Some in Hw. destruct Hw as [_ <-].
      split; [vm_compute; reflexivity | apply Qle_bool_iff; vm_compute; reflexivity].
  - eexists. split; [reflexivity|].
    split; [vm_compute; reflexivity|]. split; [vm_compute; reflexivity|].
    split; [vm_compute; reflexivity|]. split; vm_compute; reflexivity.
Qed.

(** A weight map with a zero entry for seniorityLevel. *)
Definition zeroSeniority : Algorithm.t :=
  {| Algorithm.name := "zero-seniority";
     Algorithm.weights := {[ "companySize" := (1 # 2)%Q; "seniorityLevel" := 0%Q ]};
     Algorithm.thresholds := sampleThresholds |}.

Definition sampleLead : LeadFeatures :=
  [("companySize", VNumber 70); ("seniorityLevel", VNumber 90);
   ("techStack", VArray ["react"; "node"])].

Lemma zero_weight_is_no_weight_witness :
  weightedSum sampleLead (Algorithm.weights zeroSeniority)
  = weightedSum sampleLead (delete "seniorityLevel" (Algorithm.weights zeroSeniority))
  /\ ScoringResult.score (@applyAlgorithm fractionFormat sampleLead zeroSeniority)
     = ScoringResult.score
         (@applyAlgorithm fractionFormat sampleLead
            (withWeights zeroSeniority
               (delete "seniorityLevel" (Algorithm.weights zeroSeniority)))).
Proof.
  destruct (@zero_weight_is_no_weight fractionFormat sampleLead zeroSeniority
              "seniorityLevel" 0%Q eq_refl ltac:(reflexivity))
    as [Hsum [Hscore _]].
  split; [exact Hsum | exact Hscore].
Defined.

End ScoringFacts.

(* ===================================================================== *)
(** * Facts about the campaign metrics *)
(* ===================================================================== *)

Module CampaignFacts.
Import Js JsFacts Campaign.

(** The shape of the seven percentage rates: [count / total * 100] behind
    the guard [total > 0], rounded to two decimals. *)
Definition guardedPercent (count total : nat) : num :=
  (Math_round
     ((if (0 <? total)%nat then (ofNat count / ofNat total * Fin 100)%num else Fin 0)
      * Fin 100) / Fin 100)%num.

(** The shape of [averageRevenuePerLead]: no factor 100. *)
Definition guardedAverage (revenue : num) (total : nat) : num :=
  (Math_round
     ((if (0 <? total)%nat then (revenue / ofNat total)%num else Fin 0)
      * Fin 100) / Fin 100)%num.

(** The counters, from the executions. *)
Definition opened (es : list Execution.t) : nat :=
  count (fun e => isSet (Execution.openedAt e)) es.
Definition clicked (es : list Execution.t) : nat :=
  count (fun e => isSet (Execution.clickedAt e)) es.
Definition replied (es : list Execution.t) : nat :=
  count (fun e => isSet (Execution.repliedAt e)) es.

(** The Unsubscribed events of all the executions. *)
Definition unsubscribed (es : list Execution.t) : nat :=
  count isUnsubscribed (concat (map Execution.emailEvents es)).

(** The revenues of the executions, added as doubles in their order. *)
Definition revenueSum (es : list Execution.t) : num :=
  fold_left (fun sum execution => (sum + revenueOrZero execution)%num) es (Fin 0).

Lemma guardedPercent_zero count : guardedPercent count 0 = Fin 0.
Proof. reflexivity. Qed.

Lemma guardedAverage_zero revenue : guardedAverage revenue 0 = Fin 0.
Proof. reflexivity. Qed.

Lemma ofNat_positive n : (0 < n)%nat -> (0 < inject_Z (Z.of_nat n))%Q.
Proof. apply inject_nat_pos. Qed.

Lemma guardedPercent_not_NaN count total : guardedPercent count total <> NaN.
Proof.
  unfold guardedPercent. apply round2_not_NaN.
  destruct (0 <? total)%nat eqn:E; [|discriminate].
  apply Nat.ltb_lt in E. rewrite !ofNat_Fin.
  apply mul_pos_not_NaN; [|reflexivity].
  apply div_pos_not_NaN; [discriminate | apply ofNat_positive; exact E].
Qed.

Lemma guardedAverage_not_NaN revenue total :
  revenue <> NaN -> guardedAverage revenue total <> NaN.
Proof.
  intros Hr. unfold guardedAverage. apply round2_not_NaN.
  destruct (0 <? total)%nat eqn:E; [|discriminate].
  apply Nat.ltb_lt in E. rewrite ofNat_Fin.
  apply div_pos_not_NaN; [exact Hr | apply ofNat_positive; exact E].
Qed.

Lemma revenueOrZero_Fin e : exists r, revenueOrZero e = Fin r.
Proof.
  unfold revenueOrZero. destruct (Execution.revenue e) as [r|]; [|eauto].
  destruct (truthy (Fin r)); eauto.
Qed.

Lemma revenue_fold_not_NaN : forall (es : list Execution.t) start,
  start <> NaN ->
  fold_left (fun sum execution => (sum + revenueOrZero execution)%num) es start <> NaN.
Proof.
  induction es as [|e rest IH]; intros start Hs; [exact Hs|].
  cbn [fold_left]. apply IH. destruct (revenueOrZero_Fin e) as [r ->].
  apply add_Fin_not_NaN. exact Hs.
Qed.

Lemma revenueSum_not_NaN es : revenueSum es <> NaN.
Proof. apply revenue_fold_not_NaN. discriminate. Qed.

Lemma unsubscribed_fold : forall (es : list Execution.t) n,
  fold_left (fun n execution =>
               (n + count isUnsubscribed (Execution.emailEvents execution))%nat) es n
  = (n + unsubscribed es)%nat.
Proof.
  unfold unsubscribed, count.
  induction es as [|e rest IH]; intros n; cbn [fold_left map concat].
  - simpl. lia.
  - rewrite IH, List.filter_app, length_app. lia.
Qed.

(** The eight rates of a computed snapshot, from the executions. *)
Lemma rates_unfold (c : Campaign.t) (now : Z) :
  let m := computeMetrics c now in
  let es := executions c in
  Metrics.deliveryRate m = guardedPercent (count isDelivered es) (length es)
  /\ Metrics.openRate m = guardedPercent (opened es) (count isDelivered es)
  /\ Metrics.clickRate m = guardedPercent (clicked es) (opened es)
  /\ Metrics.replyRate m = guardedPercent (replied es) (count isDelivered es)
  /\ Metrics.bounceRate m = guardedPercent (count isBounced es) (length es)
  /\ Metrics.unsubscribeRate m = guardedPercent (unsubscribed es) (count isDelivered es)
  /\ Metrics.conversionRate m
     = guardedPercent (count isConverted es) (count isDelivered es)
  /\ Metrics.averageRevenuePerLead m
     = guardedAverage (revenueSum es) (count isConverted es).
Proof.
  cbv zeta. unfold computeMetrics. cbn [Metrics.deliveryRate Metrics.openRate
    Metrics.clickRate Metrics.replyRate Metrics.bounceRate Metrics.unsubscribeRate
    Metrics.conversionRate Metrics.averageRevenuePerLead].
  rewrite (unsubscribed_fold (executions c) 0). repeat split.
Qed.

Lemma counts_bounded (c : Campaign.t) (now : Z) :
  let m := computeMetrics c now in
  (Metrics.totalDelivered m <= Metrics.totalSent m)%nat
  /\ (Metrics.totalOpened m <= Metrics.totalSent m)%nat
  /\ (Metrics.totalConverted m <= Metrics.totalSent m)%nat.
Proof.
  simpl. unfold count. repeat split; apply List.filter_length_le.
Qed.

Definition allRates (m : Metrics.t) : list num :=
  [Metrics.deliveryRate m; Metrics.openRate m; Metrics.clickRate m; Metrics.replyRate m;
   Metrics.bounceRate m; Metrics.unsubscribeRate m; Metrics.conversionRate m;
   Metrics.averageRevenuePerLead m].

(** C9 (as the code has it). The counters of a computed snapshot are the
    counts over the executions of the campaign, and each of the eight rates
    is the guarded quotient of its two counters: count / total x 100 for the
    seven percentages, revenue / converted WITHOUT the factor 100 for the
    average revenue, computed in doubles and rounded to two decimals.  A rate
    is 0 whenever its denominator is 0; no rate is NaN; for a campaign that
    exists the method returns the snapshot, it does not throw; a campaign
    without executions has all eight rates 0. *)
Theorem campaign_rates_guarded (c : Campaign.t) (now : Z) :
  let m := computeMetrics c now in
  let es := executions c in
  let sent := length es in
  let delivered := count isDelivered es in
  let converted := count isConverted es in
  (Metrics.totalSent m = sent
   /\ Metrics.totalDelivered m = delivered
   /\ Metrics.totalOpened m = opened es
   /\ Metrics.totalClicked m = clicked es
   /\ Metrics.totalReplied m = replied es
   /\ Metrics.totalBounced m = count isBounced es
   /\ Metrics.totalUnsubscribed m = unsubscribed es
   /\ Metrics.totalConverted m = converted
   /\ Metrics.totalRevenue m = revenueSum es)
  /\ (Metrics.deliveryRate m = guardedPercent delivered sent
      /\ Metrics.openRate m = guardedPercent (opened es) delivered
      /\ Metrics.clickRate m = guardedPercent (clicked es) (opened es)
      /\ Metrics.replyRate m = guardedPercent (replied es) delivered
      /\ Metrics.bounceRate m = guardedPercent (count isBounced es) sent
      /\ Metrics.unsubscribeRate m = guardedPercent (unsubscribed es) delivered
      /\ Metrics.conversionRate m = guardedPercent converted delivered
      /\ Metrics.averageRevenuePerLead m = guardedAverage (revenueSum es) converted)
  /\ (sent = 0%nat ->
      Metrics.deliveryRate m = Fin 0 /\ Metrics.bounceRate m = Fin 0)
  /\ (delivered = 0%nat ->
      Metrics.openRate m = Fin 0 /\ Metrics.replyRate m = Fin 0
      /\ Metrics.unsubscribeRate m = Fin 0 /\ Metrics.conversionRate m = Fin 0)
  /\ (opened es = 0%nat -> Metrics.clickRate m = Fin 0)
  /\ (converted = 0%nat -> Metrics.averageRevenuePerLead m = Fin 0)
  /\ Forall (fun r => r <> NaN) (allRates m)
  /\ (forall db campaignId,
         find (fun c' => String.eqb (id c') campaignId) (campaign db) = Some c ->
         calculateCampaignMetrics campaignId now db = Ok (m, storeCampaignAnalytics m db))
  /\ (es = [] -> Forall (fun r => r = Fin 0) (allRates m)).
Proof.
  intros m es sent delivered converted.
  destruct (rates_unfold c now) as [Ed [Eo [Ec [Er [Eb [Eu [Ev Ea]]]]]]].
  fold m es in Ed, Eo, Ec, Er, Eb, Eu, Ev, Ea.
  fold sent delivered converted in Ed, Eo, Er, Eb, Eu, Ev, Ea.
  split.
  { repeat split. apply (unsubscribed_fold (executions c) 0). }
  split. { repeat split; assumption. }
  split. { intros Hz. rewrite Ed, Eb, Hz. split; reflexivity. }
  split. { intros Hz. rewrite Eo, Er, Eu, Ev, Hz. repeat split. }
  split. { intros Hz. rewrite Ec, Hz. reflexivity. }
  split. { intros Hz. rewrite Ea, Hz. reflexivity. }
  split.
  { unfold allRates. rewrite Ed, Eo, Ec, Er, Eb, Eu, Ev, Ea.
    repeat constructor;
      first [apply guardedPercent_not_NaN
            | apply guardedAverage_not_NaN; apply revenueSum_not_NaN]. }
  split.
  { intros db campaignId Hfind. unfold calculateCampaignMetrics. rewrite Hfind. reflexivity. }
  intros Hnil. unfold allRates. rewrite Ed, Eo, Ec, Er, Eb, Eu, Ev, Ea.
  unfold sent, delivered, converted. rewrite Hnil. repeat constructor.
Qed.

(** A campaign with three executions: one delivered, opened and converted
    with revenue 50, one delivered only, one bounced. *)
Definition sampleCampaign : Campaign.t :=
  {| id := "c1"; name := "Launch"; type := "EMAIL"; createdAt := 0;
     executions :=
       [{| Execution.status := ExecutionStatus.CONVERTED;
           Execution.openedAt := Some 10; Execution.clickedAt := None;
           Execution.repliedAt := None; Execution.convertedAt := Some 20;
           Execution.revenue := Some 50%Q; Execution.emailEvents := [] |};
        {| Execution.status := ExecutionStatus.DELIVERED;
           Execution.openedAt := None; Execution.clickedAt := None;
           Execution.repliedAt := None; Execution.convertedAt := None;
           Execution.revenue := None;
           Execution.emailEvents := [EmailEventType.UNSUBSCRIBED] |};
        {| Execution.status := ExecutionStatus.BOUNCED;
           Execution.openedAt := None; Execution.clickedAt := None;
           Execution.repliedAt := None; Execution.convertedAt := None;
           Execution.revenue := None; Execution.emailEvents := [] |}] |}.

Example sampleCampaign_rates :
  allRates (computeMetrics sampleCampaign 100)
  = [lit (6667 # 100); Fin 50; Fin 0; Fin 0; lit (3333 # 100); Fin 50; Fin 50; Fin 50].
Proof. vm_compute. reflexivity. Qed.

(** C9 as stated fails for the average revenue per conversion.  The sample
    campaign has one conversion, with revenue 50: the average is 50, the
    quotient itself; with the factor 100 of the seven percentages it would
    be 5000. *)
Lemma average_revenue_is_not_a_percentage :
  Metrics.totalConverted (computeMetrics sampleCampaign 100) = 1%nat
  /\ Metrics.totalRevenue (computeMetrics sampleCampaign 100) = Fin 50
  /\ Metrics.averageRevenuePerLead (computeMetrics sampleCampaign 100) = Fin 50
  /\ (Math_round ((Fin 50 / ofNat 1 * Fin 100) * Fin 100) / Fin 100)%num = Fin 5000.
Proof. repeat split; vm_compute; reflexivity. Qed.

End CampaignFacts.

(* ===================================================================== *)
(** * Facts: the experiment tables under assignVariant and trackEvent *)
(* ===================================================================== *)

Module AbTestLog.
Import Js JsFacts AbTest AbTestFacts.

(** ** What the two writers do to the tables *)

Lemma findUniqueTest_state db testId :
  exists x, findUniqueTest testId db = Ok (x, db).
Proof.
  unfold findUniqueTest. destruct (find _ (abTest db)); eauto.
Qed.

(** Every successful [assignVariant] found its experiment running, and
    ends in a state where the subject has an Assigned row of the returned
    variant, found first. *)
Lemma assignVariant_ok_inv db testId leadId u v db1 :
  assignVariant testId leadId u db = Ok (v, db1) ->
  exists t vs,
    findUniqueTest testId db = Ok (Some (t, vs), db)
    /\ Test.status t = RUNNING
    /\ ((exists r, find (assignedTo testId leadId) (abTestResult db) = Some r
                   /\ Row.variantId r = v /\ db1 = db)
        \/ (exists w, find (assignedTo testId leadId) (abTestResult db) = None
                      /\ selectVariant (drawOf u) vs = Some w
                      /\ v = Variant.id w
                      /\ db1 = afterAssignment testId leadId w db)).
Proof.
  intros Hrun.
  destruct (findUniqueTest_state db testId) as [[[t vs]|] Hfind].
  - destruct (isRunning (Test.status t)) eqn:Est.
    + assert (Hst : Test.status t = RUNNING) by (destruct (Test.status t); try discriminate; reflexivity).
      exists t, vs. split; [exact Hfind|]. split; [exact Hst|].
      rewrite (assignVariant_running _ _ _ _ _ _ Hfind Hst) in Hrun.
      destruct (find (assignedTo testId leadId) (abTestResult db)) as [r|].
      * left. exists r. injection Hrun as <- <-. auto.
      * right. destruct (selectVariant (drawOf u) vs) as [w|]; [|discriminate].
        destruct (hasLead leadId db); [|discriminate].
        exists w. injection Hrun as <- <-. auto.
    + unfold assignVariant, mbind, M_bind, bind in Hrun. rewrite Hfind, Est in Hrun.
      discriminate.
  - unfold assignVariant, mbind, M_bind, bind in Hrun. rewrite Hfind in Hrun. discriminate.
Qed.


(** The rows after an update of the row with the id. *)
Lemma updateRows_inv (variantId : string) (data : Variant.t -> Result Variant.t) :
  forall rows rows',
    updateRows variantId data rows = Ok rows' ->
    length rows' = length rows
    /\ forall i v, rows !! i = Some v ->
         exists v', rows' !! i = Some v'
                    /\ (v' = v \/ (Variant.id v = variantId /\ data v = Ok v')).
Proof.
  induction rows as [|y rows IH]; intros rows' Hu; cbn [updateRows] in Hu.
  - injection Hu as <-. split; [reflexivity|]. intros i v Hi. destruct i; discriminate.
  - destruct (String.eqb (Variant.id y) variantId) eqn:E.
    + destruct (data y) as [y'|msg] eqn:Ed; [|discriminate]. injection Hu as <-.
      split; [reflexivity|]. intros [|i] v Hi.
      * injection Hi as <-. exists y'. split; [reflexivity|]. right.
        apply String.eqb_eq in E. auto.
      * exists v. split; [exact Hi | left; reflexivity].
    + destruct (updateRows variantId data rows) as [rest'|msg] eqn:Er; [|discriminate].
      injection Hu as <-. destruct (IH rest' eq_refl) as [Hlen Hrows].
      split; [simpl; rewrite Hlen; reflexivity|]. intros [|i] v Hi.
      * injection Hi as <-. exists y. split; [reflexivity | left; reflexivity].
      * apply Hrows. exact Hi.
Qed.

Lemma trackEvent_ok_inv db testId variantId leadId event value db' :
  trackEvent testId variantId leadId event value db = Ok (tt, db') ->
  exists ev,
    parseEvent event = Some ev
    /\ abTest db' = abTest db
    /\ activity db' = activity db
    /\ abTestResult db' = abTestResult db ++ [eventRow testId variantId leadId ev value]
    /\ match updateData ev value with
       | Some data => updateRows variantId data (abTestVariant db) = Ok (abTestVariant db')
       | None => abTestVariant db' = abTestVariant db
       end.
Proof.
  unfold trackEvent. destruct (parseEvent event) as [ev|]; [|discriminate].
  unfold mbind, M_bind, bind, createResult.
  cbn [Row.testId Row.variantId Row.leadId].
  destruct (hasTest testId db && hasVariant variantId db && hasLead leadId db);
    [|discriminate].
  intros Hrun. exists ev. split; [reflexivity|].
  destruct (updateData ev value) as [data|].
  - unfold updateVariant, hasVariant in Hrun. cbn [abTestVariant] in Hrun.
    destruct (existsb _ (abTestVariant db)); [|discriminate].
    destruct (updateRows variantId data (abTestVariant db)) as [rows|msg];
      [|discriminate].
    injection Hrun as <-. cbn. auto.
  - injection Hrun as <-. cbn. auto.
Qed.

(** The counters of a row after an update: nothing but the counter of the
    event changes, and impressions, clicks and conversions never go down. *)
Definition countersAdvance (v v' : Variant.t) : Prop :=
  sameIdentity v v'
  /\ Variant.impressions v <= Variant.impressions v' <= Variant.impressions v + 1
  /\ Variant.clicks v <= Variant.clicks v' <= Variant.clicks v + 1
  /\ Variant.conversions v <= Variant.conversions v' <= Variant.conversions v + 1.

Lemma countersAdvance_refl v : countersAdvance v v.
Proof. unfold countersAdvance, sameIdentity. repeat split; lia. Qed.

Lemma increment_inv n n' : increment n = Ok n' -> n' = n + 1.
Proof. unfold increment. destruct (n + 1 <=? maxInt); congruence. Qed.

Lemma updateData_advances ev value data v v' :
  updateData ev value = Some data -> data v = Ok v' -> countersAdvance v v'.
Proof.
  destruct ev; cbn [updateData]; intros E; try discriminate; injection E as <-;
    cbv beta; intros Hd.
  - destruct (increment (Variant.impressions v)) as [n|] eqn:En; [|discriminate].
    apply increment_inv in En. injection Hd as <-.
    unfold countersAdvance, sameIdentity; cbn; repeat split; lia.
  - destruct (increment (Variant.clicks v)) as [n|] eqn:En; [|discriminate].
    apply increment_inv in En. injection Hd as <-.
    unfold countersAdvance, sameIdentity; cbn; repeat split; lia.
  - destruct (increment (Variant.conversions v)) as [n|] eqn:En; [|discriminate].
    apply increment_inv in En. injection Hd as <-.
    unfold countersAdvance, sameIdentity; cbn; repeat split; lia.
  - destruct (incrementBy (orZero value) (Variant.revenue v)) as [r|]; [|discriminate].
    injection Hd as <-.
    unfold countersAdvance, sameIdentity; cbn; repeat split; lia.
Qed.

Lemma assignVariant_frame db testId leadId u v db' :
  assignVariant testId leadId u db = Ok (v, db') ->
  abTest db' = abTest db
  /\ abTestVariant db' = abTestVariant db
  /\ exists more,
       abTestResult db' = abTestResult db ++ more
       /\ (length more <= 1)%nat
       /\ Forall (fun r => assignedTo testId leadId r = true /\ Row.variantId r = v) more.
Proof.
  intros Hrun.
  destruct (assignVariant_ok_inv _ _ _ _ _ _ Hrun)
    as [t [vs [_ [_ [[r [Hr [Hv ->]]]|[w [Hn [Hw [-> ->]]]]]]]]].
  - repeat split. exists []. rewrite app_nil_r. repeat split; [simpl; lia | constructor].
  - repeat split. exists [assignedRow testId leadId w].
    repeat split; [simpl; lia|]. constructor; [|constructor].
    split; [apply assignedTo_assignedRow | reflexivity].
Qed.

Lemma trackEvent_frame db testId variantId leadId event value db' :
  trackEvent testId variantId leadId event value db = Ok (tt, db') ->
  abTest db' = abTest db
  /\ activity db' = activity db
  /\ (exists ev, parseEvent event = Some ev
                 /\ abTestResult db'
                    = abTestResult db ++ [eventRow testId variantId leadId ev value])
  /\ length (abTestVariant db') = length (abTestVariant db)
  /\ (forall i v, abTestVariant db !! i = Some v ->
        exists v', abTestVariant db' !! i = Some v'
                   /\ countersAdvance v v'
                   /\ (Variant.id v <> variantId -> v' = v)).
Proof.
  intros Hrun.
  destruct (trackEvent_ok_inv _ _ _ _ _ _ _ Hrun) as [ev [Hev [Ht [Ha [Hr Hv]]]]].
  split; [exact Ht|]. split; [exact Ha|]. split; [exists ev; auto|].
  destruct (updateData ev value) as [data|] eqn:Hdata.
  - destruct (updateRows_inv _ _ _ _ Hv) as [Hlen Hrows]. split; [exact Hlen|].
    intros i v Hi. destruct (Hrows i v Hi) as [v' [Hi' [->|[Hid Hd]]]].
    + exists v. split; [exact Hi'|]. split; [apply countersAdvance_refl | reflexivity].
    + exists v'. split; [exact Hi'|].
      split; [apply (updateData_advances ev value data); assumption|].
      intros Hne. contradiction.
  - rewrite Hv. split; [reflexivity|].
    intros i v Hi. exists v. split; [exact Hi|].
    split; [apply countersAdvance_refl | reflexivity].
Qed.


Lemma find_app_Some {A} (p : A -> bool) l more x :
  find p l = Some x -> find p (l ++ more) = Some x.
Proof.
  induction l as [|y l IH]; simpl; [discriminate|].
  destruct (p y); [auto | exact IH].
Qed.

Lemma find_test_same db db' testId :
  abTest db' = abTest db ->
  forall t vs, findUniqueTest testId db = Ok (Some (t, vs), db) ->
  exists vs', findUniqueTest testId db' = Ok (Some (t, vs'), db').
Proof.
  intros Ht t vs. unfold findUniqueTest. rewrite Ht.
  destruct (find _ (abTest db)); intros E; [|discriminate].
  injection E as <- _. eauto.
Qed.

(** The subject's first Assigned row after a successful call. *)
Lemma assignVariant_leaves_row db testId leadId u v db1 :
  assignVariant testId leadId u db = Ok (v, db1) ->
  exists t vs r,
    findUniqueTest testId db1 = Ok (Some (t, vs), db1)
    /\ Test.status t = RUNNING
    /\ find (assignedTo testId leadId) (abTestResult db1) = Some r
    /\ Row.variantId r = v.
Proof.
  intros Hrun.
  destruct (assignVariant_ok_inv _ _ _ _ _ _ Hrun)
    as [t [vs [Hfind [Hst [[r [Hr [Hv ->]]]|[w [Hn [Hw [-> ->]]]]]]]]].
  - exists t, vs, r. auto.
  - exists t, vs, (assignedRow testId leadId w).
    split; [apply (findUniqueTest_frame db); [reflexivity | reflexivity | exact Hfind]|].
    split; [exact Hst|]. split; [|reflexivity]. simpl abTestResult.
    apply find_app_None; [exact Hn | apply assignedTo_assignedRow].
Qed.

(** X2. An assignment is stable under later writes: once [assignVariant]
    has returned a variant for a subject, no later successful [trackEvent]
    (for any experiment, variant, subject or event kind, an ASSIGNED event
    included) and no later assignment of any subject changes the variant the
    next [assignVariant] returns for the first subject, and that next call
    writes nothing. *)
Theorem assignment_survives_later_writes (db db1 db2 : Db) (testId leadId : string)
    (u u' : Q) (v : string) :
  assignVariant testId leadId u db = Ok (v, db1) ->
  (exists testId' variantId' leadId' event value,
      trackEvent testId' variantId' leadId' event value db1 = Ok (tt, db2))
  \/ (exists testId' leadId' u'' v',
      assignVariant testId' leadId' u'' db1 = Ok (v', db2)) ->
  assignVariant testId leadId u' db2 = Ok (v, db2).
Proof.
  intros Hfirst Hlater.
  destruct (assignVariant_leaves_row _ _ _ _ _ _ Hfirst) as [t [vs [r [Hfind [Hst [Hr Hv]]]]]].
  assert (Hkeep : abTest db2 = abTest db1
                  /\ exists more, abTestResult db2 = abTestResult db1 ++ more).
  { destruct Hlater as [[testId' [variantId' [leadId' [event [value Hrun]]]]]
                       |[testId' [leadId' [u'' [v' Hrun]]]]].
    - destruct (trackEvent_frame _ _ _ _ _ _ _ Hrun) as [Ht [_ [[ev [_ Hrows]] _]]].
      split; [exact Ht|]. eauto.
    - destruct (assignVariant_frame _ _ _ _ _ _ Hrun) as [Ht [_ [more [Hrows _]]]].
      split; [exact Ht|]. eauto. }
  destruct Hkeep as [Ht [more Hrows]].
  destruct (find_test_same db1 db2 testId Ht t vs Hfind) as [vs' Hfind2].
  rewrite (assignVariant_running _ _ _ _ _ _ Hfind2 Hst), Hrows.
  rewrite (find_app_Some _ _ more _ Hr), Hv. reflexivity.
Qed.


Lemma assignment_survives_later_writes_witness :
  exists db1 db2,
    assignVariant "t1" "lead1" (1 # 4) sampleDb = Ok ("vA", db1)
    /\ trackEvent "t1" "vB" "lead1" "ASSIGNED" None db1 = Ok (tt, db2)
    /\ countAssigned "t1" "lead1" db2 = 2%nat
    /\ assignVariant "t1" "lead1" (3 # 4) db2 = Ok ("vA", db2).
Proof.
  eexists (afterAssignment "t1" "lead1" sampleA sampleDb), _.
  split; [reflexivity|]. split; [reflexivity|]. split; [reflexivity|].
  apply (assignment_survives_later_writes sampleDb
           (afterAssignment "t1" "lead1" sampleA sampleDb) _ "t1" "lead1" (1 # 4) (3 # 4) "vA").
  - reflexivity.
  - left. exists "t1", "vB", "lead1", "ASSIGNED", None. reflexivity.
Defined.

(** X3. [assignVariant] serves running experiments only: when the
    experiment is missing, or is in any status other than RUNNING (draft,
    paused, completed, cancelled), the call throws "Test is not running",
    also for a subject that already has an Assigned row. *)
Theorem assignVariant_refuses_unless_running (db : Db) (testId leadId : string) (u : Q) :
  (findUniqueTest testId db = Ok (None, db) ->
   assignVariant testId leadId u db = Throw "Test is not running")
  /\ (forall t vs,
        findUniqueTest testId db = Ok (Some (t, vs), db) ->
        Test.status t <> RUNNING ->
        assignVariant testId leadId u db = Throw "Test is not running")
  /\ (forall v db', assignVariant testId leadId u db = Ok (v, db') ->
        exists t vs, findUniqueTest testId db = Ok (Some (t, vs), db)
                     /\ Test.status t = RUNNING).
Proof.
  split; [|split].
  - intros Hfind. unfold assignVariant, mbind, M_bind, bind. rewrite Hfind. reflexivity.
  - intros t vs Hfind Hst. unfold assignVariant, mbind, M_bind, bind. rewrite Hfind.
    destruct (Test.status t); try reflexivity. contradiction.
  - intros v db' Hrun.
    destruct (assignVariant_ok_inv _ _ _ _ _ _ Hrun) as [t [vs [Hfind [Hst _]]]].
    exists t, vs. auto.
Qed.


(** X4. The ledger does not protect the one-Assigned-row invariant:
    [trackEvent] accepts the kind ASSIGNED, and whenever such a call returns
    it has added one more Assigned row for the subject and has changed no
    counter. *)
Theorem trackEvent_accepts_assigned (db db' : Db) (testId variantId leadId : string)
    (value : option Q) :
  trackEvent testId variantId leadId "ASSIGNED" value db = Ok (tt, db') ->
  countAssigned testId leadId db' = S (countAssigned testId leadId db)
  /\ abTestVariant db' = abTestVariant db.
Proof.
  intros Hrun.
  destruct (trackEvent_ok_inv _ _ _ _ _ _ _ Hrun) as [ev [Hev [_ [_ [Hrows Hv]]]]].
  injection Hev as <-. cbn [updateData] in Hv. split; [|exact Hv].
  unfold countAssigned. rewrite Hrows, List.filter_app, length_app. simpl.
  unfold assignedTo at 2. simpl. rewrite !String.eqb_refl. simpl. lia.
Qed.

Lemma trackEvent_accepts_assigned_witness :
  countAssigned "t1" "lead1"
    {| abTest := abTest sampleDb; abTestVariant := abTestVariant sampleDb;
       abTestResult := abTestResult sampleDb
                       ++ [eventRow "t1" "vB" "lead1" ASSIGNED None];
       activity := activity sampleDb; lead := lead sampleDb;
       campaign := campaign sampleDb |}
  = S (countAssigned "t1" "lead1" sampleDb).
Proof.
  apply (trackEvent_accepts_assigned sampleDb _ "t1" "vB" "lead1" None eq_refl).
Defined.

(** ** Which variant the walk can select *)

Lemma cumulativeFrom_step start (vs : list Variant.t) k v :
  vs !! S k = Some v ->
  cumulativeFrom start vs (S k)
  = (cumulativeFrom start vs k + Fin (Variant.trafficPercent v))%num.
Proof.
  intros Hk. unfold cumulativeFrom.
  rewrite (take_S_r vs (S k) v Hk), map_app, fold_left_app. reflexivity.
Qed.

(** A finite cumulative sum is a double: it is the result of an addition. *)
Lemma cumulativeFrom_double start (vs : list Variant.t) k v c :
  vs !! k = Some v -> cumulativeFrom start vs k = Fin c -> isDouble c.
Proof.
  intros Hk. unfold cumulativeFrom.
  rewrite (take_S_r vs k v Hk), map_app, fold_left_app. cbn [map fold_left].
  destruct (fold_left _ (map Variant.trafficPercent (take k vs)) start) as [x| | |];
    try discriminate.
  apply rnd_double.
Qed.

(** Adding a share that is not positive does not raise a cumulative sum. *)
Lemma add_nonpositive a t :
  (forall c, a = Fin c -> isDouble c) -> (t <= 0)%Q ->
  a = NaN \/ (a + Fin t <=? a)%num = true.
Proof.
  intros Ha Ht. destruct a as [c| | |]; [| right; reflexivity | right; reflexivity | left; reflexivity].
  right. change (Fin c + Fin t)%num with (rnd (c + t)).
  pose proof (Ha c eq_refl) as Hc. unfold isDouble in Hc.
  assert (L : (rnd (c + t) <=? rnd c)%num = true) by (apply rnd_le; lra).
  rewrite Hc in L. destruct (rnd (c + t)) as [x| | |]; simpl in L |- *; try exact L.
  apply Qle_bool_iff. apply Qle_bool_iff in L. rewrite Qred_correct in L. exact L.
Qed.

Lemma walk_inv random : forall vs start selected w,
  walk random start vs selected = Some w ->
  (exists i, vs !! i = Some w
             /\ (random <=? cumulativeFrom start vs i)%num = true
             /\ forall j, (j < i)%nat -> (random <=? cumulativeFrom start vs j)%num = false)
  \/ (selected = Some w
      /\ forall j, (j < length vs)%nat ->
                   (random <=? cumulativeFrom start vs j)%num = false).
Proof.
  induction vs as [|v rest IH]; intros start selected w Hw; cbn [walk] in Hw.
  - right. split; [exact Hw|]. intros j Hj. simpl in Hj. lia.
  - destruct (random <=? start + Fin (Variant.trafficPercent v))%num eqn:E.
    + injection Hw as ->. left. exists 0%nat. split; [reflexivity|].
      split; [exact E | intros j Hj; lia].
    + destruct (IH _ _ _ Hw) as [[i [Hi [Hle Hlt]]]|[Hsel Hall]].
      * left. exists (S i). split; [exact Hi|]. split; [exact Hle|].
        intros [|j] Hj; [exact E | apply Hlt; lia].
      * right. split; [exact Hsel|].
        intros [|j] Hj; [exact E | apply Hall; simpl in Hj; lia].
Qed.

(** X5. A variant with no traffic share is never drawn unless it is the
    first one: for variants with pairwise different ids, a variant at a
    position after the first whose traffic percentage is zero (or negative)
    is not selected by any draw, so [assignVariant] never returns it to a
    subject without a prior assignment. *)
Theorem zero_traffic_variant_not_assigned (db : Db) (testId leadId : string) (u : Q)
    (t : Test.t) (vs : list Variant.t) (k : nat) (v : Variant.t) :
  findUniqueTest testId db = Ok (Some (t, vs), db) ->
  find (assignedTo testId leadId) (abTestResult db) = None ->
  NoDup (map Variant.id vs) ->
  vs !! S k = Some v ->
  (Variant.trafficPercent v <= 0)%Q ->
  ~ (exists db', assignVariant testId leadId u db = Ok (Variant.id v, db')).
Proof.
  intros Hfind Hnone Hnd Hk Hzero [db' Hrun].
  destruct (assignVariant_ok_inv _ _ _ _ _ _ Hrun)
    as [t' [vs' [Hfind' [_ [[r [Hr _]]|[w [_ [Hw [Hid _]]]]]]]]]; [congruence|].
  rewrite Hfind in Hfind'. injection Hfind' as <- <-.
  assert (Hsame : forall i, vs !! i = Some w -> i = S k).
  { intros i Hi. apply (NoDup_lookup (map Variant.id vs) i (S k) (Variant.id v)).
    - exact Hnd.
    - rewrite list_lookup_fmap, Hi. simpl. congruence.
    - rewrite list_lookup_fmap, Hk. reflexivity. }
  unfold selectVariant in Hw.
  destruct (walk_inv _ _ _ _ _ Hw) as [[i [Hi [Hle Hlt]]]|[Hsel _]].
  - pose proof (Hsame i Hi) as ->.
    rewrite Hk in Hi. injection Hi as <-.
    rewrite (cumulativeFrom_step (Fin 0) vs k v Hk) in Hle.
    pose proof (Hlt k ltac:(lia)) as Hprev.
    destruct (lookup_lt_is_Some_2 vs k) as [vk Hvk];
      [apply lookup_lt_Some in Hk; lia|].
    destruct (add_nonpositive (cumulativeFrom (Fin 0) vs k) (Variant.trafficPercent v))
      as [Enan|Hdown].
    + intros c Ec. exact (cumulativeFrom_double _ _ _ _ _ Hvk Ec).
    + exact Hzero.
    + rewrite Enan in Hle. destruct (drawOf u); discriminate.
    + rewrite (leb_trans _ _ _ Hle Hdown) in Hprev. discriminate.
  - destruct vs as [|v0 rest]; [discriminate|]. simpl in Hsel. injection Hsel as ->.
    pose proof (Hsame 0%nat eq_refl). discriminate.
Qed.

Definition idleC : Variant.t :=
  {| Variant.id := "vC"; Variant.testId := "t4"; Variant.name := "C";
     Variant.trafficPercent := 0; Variant.impressions := 0; Variant.clicks := 0;
     Variant.conversions := 0; Variant.revenue := 0 |}.

Definition idleDb : Db :=
  {| abTest := [{| Test.id := "t4"; Test.name := "E4"; Test.status := RUNNING;
                   Test.confidenceLevel := 95; Test.minSampleSize := 100;
                   Test.startDate := None; Test.endDate := None |}];
     abTestVariant :=
       [{| Variant.id := "vA"; Variant.testId := "t4"; Variant.name := "A";
           Variant.trafficPercent := 100; Variant.impressions := 0; Variant.clicks := 0;
           Variant.conversions := 0; Variant.revenue := 0 |}; idleC];
     abTestResult := []; activity := []; lead := ["lead1"]; campaign := [] |}.

Lemma zero_traffic_variant_not_assigned_witness :
  ~ (exists db', assignVariant "t4" "lead1" (1 # 2) idleDb = Ok ("vC", db')).
Proof.
  apply (zero_traffic_variant_not_assigned idleDb "t4" "lead1" (1 # 2) _ _ 0%nat idleC
           eq_refl eq_refl).
  - refine (bool_decide_unpack _ _). vm_compute. exact I.
  - reflexivity.
  - simpl. lra.
Defined.

End AbTestLog.

(* ===================================================================== *)
(** * Facts: createAbTest, startAbTest, concludeTest *)
(* ===================================================================== *)

Module AbLifecycleFacts.
Import Js JsFacts AbTest AbTestFacts AbLifecycle.

Lemma totalTraffic_nil_rejected : createAbTest_check [] <> Ok tt.
Proof. vm_compute. discriminate. Qed.

Definition isFresh (testId : string) (db : Db) : Prop :=
  Forall (fun t => Test.id t <> testId) (abTest db)
  /\ Forall (fun v => Variant.testId v <> testId) (abTestVariant db).

Definition afterCreate (config : Config.t) (testId : string) (variantId : nat -> string)
    (db : Db) : Db :=
  {| abTest := abTest db ++ [newTest config testId];
     abTestVariant := abTestVariant db ++ newVariants config testId variantId;
     abTestResult := abTestResult db;
     activity := activity db;
     lead := lead db;
     campaign := campaign db |}.

(** The sum of the traffic percentages, added as doubles in the order of
    the variants, is not further than 0.01 (the double) from 100. *)
Definition trafficAccepted (config : Config.t) : Prop :=
  (Math_abs (totalTraffic (map VariantConfig.trafficPercent (Config.variants config))
             - Fin 100) >? lit (1 # 100))%num = false.

Lemma createAbTest_check_spec l :
  createAbTest_check l = Ok tt
  <-> (Math_abs (totalTraffic l - Fin 100) >? lit (1 # 100))%num = false.
Proof.
  unfold createAbTest_check.
  destruct (Math_abs (totalTraffic l - Fin 100) >? lit (1 # 100))%num;
    split; congruence.
Qed.

Lemma createAbTest_ok config testId variantId db r :
  createAbTest config testId variantId db = Ok r ->
  r = (testId, afterCreate config testId variantId db)
  /\ trafficAccepted config
  /\ validArguments config = true
  /\ campaignExists config db = true
  /\ NoDup (map VariantConfig.name (Config.variants config))
  /\ Config.variants config <> [].
Proof.
  unfold createAbTest, trafficAccepted.
  pose proof (createAbTest_check_spec
                (map VariantConfig.trafficPercent (Config.variants config))) as Hspec.
  destruct (createAbTest_check (map VariantConfig.trafficPercent (Config.variants config)))
    as [[]|msg] eqn:Echeck; [|discriminate].
  destruct (validArguments config); [|discriminate]. cbn [negb].
  destruct (campaignExists config db); [|discriminate]. cbn [negb].
  destruct (bool_decide (NoDup (map VariantConfig.name (Config.variants config)))) eqn:End;
    [|discriminate].
  apply bool_decide_eq_true in End.
  intros Hr. injection Hr as <-. split; [reflexivity|].
  split; [apply Hspec; reflexivity|]. split; [reflexivity|]. split; [reflexivity|].
  split; [exact End|].
  intros Hnil. rewrite Hnil in Echeck. exact (totalTraffic_nil_rejected Echeck).
Qed.

Lemma createAbTest_accepted config testId variantId db :
  trafficAccepted config ->
  validArguments config = true ->
  campaignExists config db = true ->
  NoDup (map VariantConfig.name (Config.variants config)) ->
  createAbTest config testId variantId db
  = Ok (testId, afterCreate config testId variantId db).
Proof.
  intros Hacc Hval Hcamp Hnd. unfold createAbTest.
  apply createAbTest_check_spec in Hacc. rewrite Hacc, Hval.
  cbn [negb]. rewrite Hcamp. cbn [negb].
  rewrite (bool_decide_eq_true_2 _ Hnd). reflexivity.
Qed.

Lemma newVariants_zero config testId variantId :
  Forall (fun v => Variant.testId v = testId
                   /\ Variant.impressions v = 0 /\ Variant.clicks v = 0
                   /\ Variant.conversions v = 0 /\ Variant.revenue v = 0%Q)
         (newVariants config testId variantId).
Proof.
  unfold newVariants. apply Forall_lookup. intros i v Hi.
  rewrite list_lookup_imap in Hi.
  destruct (Config.variants config !! i); simpl in Hi; [|discriminate].
  injection Hi as <-. simpl. auto.
Qed.

(** X6. [createAbTest] succeeds exactly when the traffic percentages,
    added as doubles, are within 0.01 of 100, the arguments fit the schema
    (a test type of the enum, a 32-bit sample size, a content for every
    variant), the campaign, if one is named, exists, and the variant names
    are pairwise different.  It then returns the new id, appends one DRAFT
    experiment and one zero-counter variant per configured variant, and
    touches nothing else; a configuration it accepts has at least one
    variant. *)
Theorem createAbTest_accepts_iff (config : Config.t) (testId : string)
    (variantId : nat -> string) (db : Db) :
  ((exists r, createAbTest config testId variantId db = Ok r)
   <-> trafficAccepted config
       /\ validArguments config = true
       /\ campaignExists config db = true
       /\ NoDup (map VariantConfig.name (Config.variants config)))
  /\ (forall r, createAbTest config testId variantId db = Ok r ->
        r = (testId, afterCreate config testId variantId db)
        /\ Config.variants config <> []
        /\ length (newVariants config testId variantId) = length (Config.variants config)
        /\ Forall (fun v => Variant.testId v = testId
                            /\ Variant.impressions v = 0 /\ Variant.clicks v = 0
                            /\ Variant.conversions v = 0 /\ Variant.revenue v = 0%Q)
                  (newVariants config testId variantId)).
Proof.
  split.
  - split.
    + intros [r Hr].
      destruct (createAbTest_ok _ _ _ _ _ Hr) as [_ [Hacc [Hval [Hcamp [Hnd _]]]]]. auto.
    + intros [Hacc [Hval [Hcamp Hnd]]].
      rewrite (createAbTest_accepted _ _ _ _ Hacc Hval Hcamp Hnd). eauto.
  - intros r Hr. destruct (createAbTest_ok _ _ _ _ _ Hr) as [-> [_ [_ [_ [_ Hne]]]]].
    split; [reflexivity|]. split; [exact Hne|].
    split; [unfold newVariants; apply length_imap | apply newVariants_zero].
Qed.

(** Three variants of 33.33 each: in decimals the sum is 99.99, which is
    0.01 from 100; as doubles the distance is 0.010000000000005116 and the
    configuration is refused. *)
Definition thirds : Config.t :=
  {| Config.name := "Thirds";
     Config.campaignId := None;
     Config.testType := "EMAIL_SUBJECT";
     Config.variants :=
       [{| VariantConfig.name := "A"; VariantConfig.content := Some "a";
           VariantConfig.trafficPercent := double (3333 # 100) |};
        {| VariantConfig.name := "B"; VariantConfig.content := Some "b";
           VariantConfig.trafficPercent := double (3333 # 100) |};
        {| VariantConfig.name := "C"; VariantConfig.content := Some "c";
           VariantConfig.trafficPercent := double (3333 # 100) |}];
     Config.confidenceLevel := 95;
     Config.minSampleSize := 100 |}.

Example thirds_refused (testId : string) (variantId : nat -> string) (db : Db) :
  createAbTest thirds testId variantId db
  = Throw "Variant traffic percentages must add up to 100%".
Proof. vm_compute. reflexivity. Qed.

Lemma find_fresh_None (testId : string) (l : list Test.t) :
  Forall (fun t => Test.id t <> testId) l ->
  find (fun t => String.eqb (Test.id t) testId) l = None.
Proof.
  induction 1 as [|t l Ht _ IH]; simpl; [reflexivity|].
  destruct (String.eqb (Test.id t) testId) eqn:E; [|exact IH].
  apply String.eqb_eq in E. contradiction.
Qed.

Lemma filter_fresh_nil (testId : string) (l : list Variant.t) :
  Forall (fun v => Variant.testId v <> testId) l ->
  filter (fun v => Variant.testId v = testId) l = [].
Proof.
  induction 1 as [|v l Hv _ IH]; [reflexivity|].
  rewrite filter_cons_False by exact Hv. exact IH.
Qed.

Lemma filter_own_all (testId : string) (l : list Variant.t) :
  Forall (fun v => Variant.testId v = testId) l ->
  filter (fun v => Variant.testId v = testId) l = l.
Proof.
  induction 1 as [|v l Hv _ IH]; [reflexivity|].
  rewrite filter_cons_True by exact Hv. rewrite IH. reflexivity.
Qed.

Lemma newVariants_own config testId variantId :
  Forall (fun v => Variant.testId v = testId) (newVariants config testId variantId).
Proof.
  unfold newVariants. apply Forall_lookup. intros i v Hi.
  rewrite list_lookup_imap in Hi.
  destruct (Config.variants config !! i); simpl in Hi; [|discriminate].
  injection Hi as <-. reflexivity.
Qed.

Lemma findUniqueTest_afterCreate config testId variantId db :
  isFresh testId db ->
  findUniqueTest testId (afterCreate config testId variantId db)
  = Ok (Some (newTest config testId, newVariants config testId variantId),
        afterCreate config testId variantId db).
Proof.
  intros [Ht Hv]. unfold findUniqueTest, afterCreate. simpl.
  rewrite (find_app_None _ _ (newTest config testId) (find_fresh_None _ _ Ht))
    by (simpl; apply String.eqb_refl).
  rewrite filter_app, (filter_fresh_nil _ _ Hv), (filter_own_all _ _ (newVariants_own _ _ _)).
  reflexivity.
Qed.

Lemma find_map_data (testId : string) (data : Test.t -> Test.t) :
  (forall t, Test.id (data t) = Test.id t) ->
  forall l t,
    find (fun x => String.eqb (Test.id x) testId) l = Some t ->
    find (fun x => String.eqb (Test.id x) testId)
         (map (fun x => if String.eqb (Test.id x) testId then data x else x) l)
    = Some (data t).
Proof.
  intros Hid. induction l as [|y l IH]; intros t Ht; simpl in *; [discriminate|].
  destruct (String.eqb (Test.id y) testId) eqn:E.
  - injection Ht as ->. rewrite Hid, E. reflexivity.
  - rewrite E. apply IH. exact Ht.
Qed.

Definition afterUpdate (testId : string) (data : Test.t -> Test.t) (db : Db) : Db :=
  {| abTest := map (fun t => if String.eqb (Test.id t) testId then data t else t) (abTest db);
     abTestVariant := abTestVariant db;
     abTestResult := abTestResult db;
     activity := activity db;
     lead := lead db;
     campaign := campaign db |}.

Lemma updateTest_found testId data db t vs :
  (forall x, Test.id (data x) = Test.id x) ->
  findUniqueTest testId db = Ok (Some (t, vs), db) ->
  updateTest testId data db = Ok (tt, afterUpdate testId data db)
  /\ findUniqueTest testId (afterUpdate testId data db)
     = Ok (Some (data t, vs), afterUpdate testId data db).
Proof.
  intros Hid Hfind. unfold findUniqueTest in Hfind.
  destruct (find (fun x => String.eqb (Test.id x) testId) (abTest db)) as [t'|] eqn:E;
    [|discriminate].
  injection Hfind as -> <-. split.
  - unfold updateTest. rewrite (find_existsb _ _ _ E). reflexivity.
  - unfold findUniqueTest, afterUpdate. simpl.
    rewrite (find_map_data testId data Hid _ _ E). reflexivity.
Qed.

Lemma updateTest_missing testId data db :
  findUniqueTest testId db = Ok (None, db) ->
  updateTest testId data db = Throw "Record to update not found".
Proof.
  unfold findUniqueTest, updateTest.
  destruct (find (fun x => String.eqb (Test.id x) testId) (abTest db)) eqn:E; [discriminate|].
  intros _.
  assert (Hex : existsb (fun x => String.eqb (Test.id x) testId) (abTest db) = false).
  { induction (abTest db) as [|y l IH]; [reflexivity|]. simpl in *.
    destruct (String.eqb (Test.id y) testId); [discriminate | apply IH; exact E]. }
  rewrite Hex. reflexivity.
Qed.

(** X7. [startAbTest] does not look at the current status: for an
    experiment in any status (COMPLETED and CANCELLED included) it sets the
    status to RUNNING and the start date to now, keeps every other column,
    and leaves variants (with their counters), events and activities as they
    are; with no such experiment it throws. *)
Theorem startAbTest_from_any_status (db : Db) (testId : string) (now : Z) :
  (forall t vs,
      findUniqueTest testId db = Ok (Some (t, vs), db) ->
      exists db',
        startAbTest testId now db = Ok (tt, db')
        /\ findUniqueTest testId db' = Ok (Some (started now t, vs), db')
        /\ abTestVariant db' = abTestVariant db
        /\ abTestResult db' = abTestResult db
        /\ activity db' = activity db)
  /\ (findUniqueTest testId db = Ok (None, db) ->
      startAbTest testId now db = Throw "Record to update not found").
Proof.
  split.
  - intros t vs Hfind.
    destruct (updateTest_found testId (started now) db t vs (fun _ => eq_refl) Hfind)
      as [Hrun Hfind'].
    exists (afterUpdate testId (started now) db). unfold startAbTest. auto.
  - apply updateTest_missing.
Qed.

Lemma newVariants_id config testId variantId w :
  w ∈ newVariants config testId variantId ->
  exists k, (k < length (Config.variants config))%nat /\ Variant.id w = variantId k.
Proof.
  intros Hin. apply list_elem_of_lookup in Hin. destruct Hin as [k Hk].
  unfold newVariants in Hk. rewrite list_lookup_imap in Hk.
  destruct (Config.variants config !! k) as [vc|] eqn:E; simpl in Hk; [|discriminate].
  injection Hk as <-. exists k. split; [|reflexivity].
  apply lookup_lt_Some in E. exact E.
Qed.

(** X8. From creation to the first assignment.  For a fresh id, an accepted
    configuration and a stored lead without an Assigned row: right after
    [createAbTest] the experiment is a draft and [assignVariant] throws;
    after [startAbTest] the same call returns the id of one of the variants
    the creation made and leaves the subject with exactly one Assigned row. *)
Theorem create_start_assign (config : Config.t) (testId leadId : string)
    (variantId : nat -> string) (now : Z) (u : Q) (db db1 : Db) :
  isFresh testId db ->
  find (assignedTo testId leadId) (abTestResult db) = None ->
  hasLead leadId db = true ->
  createAbTest config testId variantId db = Ok (testId, db1) ->
  assignVariant testId leadId u db1 = Throw "Test is not running"
  /\ exists db2 k db3,
       startAbTest testId now db1 = Ok (tt, db2)
       /\ (k < length (Config.variants config))%nat
       /\ assignVariant testId leadId u db2 = Ok (variantId k, db3)
       /\ countAssigned testId leadId db3 = 1%nat.
Proof.
  intros Hfresh Hnone Hlead Hcreate.
  destruct (createAbTest_ok _ _ _ _ _ Hcreate) as [Hr [_ [_ [_ [_ Hne]]]]].
  injection Hr as ->.
  assert (Hlen : length (newVariants config testId variantId)
                 = length (Config.variants config)) by (unfold newVariants; apply length_imap).
  pose proof (findUniqueTest_afterCreate config testId variantId db Hfresh) as Hfind1.
  split.
  { unfold assignVariant, mbind, M_bind, bind. rewrite Hfind1. reflexivity. }
  destruct (updateTest_found testId (started now) _ _ _ (fun _ => eq_refl) Hfind1)
    as [Hstart Hfind2].
  assert (Hvs : newVariants config testId variantId <> []).
  { intros E. apply Hne. apply length_zero_iff_nil. rewrite <- Hlen, E. reflexivity. }
  destruct (selectVariant_some (drawOf u) _ Hvs) as [w [Hw Hin]].
  destruct (newVariants_id _ _ _ _ Hin) as [k [Hk Hid]].
  exists (afterUpdate testId (started now) (afterCreate config testId variantId db)), k,
    (afterAssignment testId leadId w
       (afterUpdate testId (started now) (afterCreate config testId variantId db))).
  split; [exact Hstart|]. split; [exact Hk|].
  rewrite (assignVariant_running _ testId leadId u _ _ Hfind2 eq_refl).
  simpl abTestResult. rewrite Hnone, Hw, Hid.
  change (hasLead leadId
            (afterUpdate testId (started now) (afterCreate config testId variantId db)))
    with (hasLead leadId db).
  rewrite Hlead. split; [reflexivity|].
  unfold countAssigned. simpl abTestResult.
  rewrite List.filter_app, (filter_find_None _ _ Hnone). simpl.
  rewrite assignedTo_assignedRow. reflexivity.
Qed.


Definition sampleConfig : Config.t :=
  {| Config.name := "Subject line";
     Config.campaignId := None;
     Config.testType := "EMAIL_SUBJECT";
     Config.variants :=
       [{| VariantConfig.name := "A"; VariantConfig.content := Some "Hello";
           VariantConfig.trafficPercent := 50 |};
        {| VariantConfig.name := "B"; VariantConfig.content := Some "Hi there";
           VariantConfig.trafficPercent := 50 |}];
     Config.confidenceLevel := 95;
     Config.minSampleSize := 100 |}.

Definition sampleIds (k : nat) : string := "n" +:+ pretty k.

(** No experiment yet, one lead. *)
Definition emptyDb : Db :=
  {| abTest := []; abTestVariant := []; abTestResult := []; activity := [];
     lead := ["lead1"]; campaign := [] |}.

Lemma create_start_assign_witness :
  assignVariant "t9" "lead1" (1 # 4) (afterCreate sampleConfig "t9" sampleIds emptyDb)
  = Throw "Test is not running"
  /\ exists db2 k db3,
       startAbTest "t9" 7 (afterCreate sampleConfig "t9" sampleIds emptyDb) = Ok (tt, db2)
       /\ (k < 2)%nat
       /\ assignVariant "t9" "lead1" (1 # 4) db2 = Ok (sampleIds k, db3)
       /\ countAssigned "t9" "lead1" db3 = 1%nat.
Proof.
  apply (create_start_assign sampleConfig "t9" "lead1" sampleIds 7 (1 # 4) emptyDb).
  - split; constructor.
  - reflexivity.
  - reflexivity.
  - vm_compute. reflexivity.
Defined.

Section Conclude.
Context `{Numerics}.

Lemma concludeTest_found db testId now t vs :
  findUniqueTest testId db = Ok (Some (t, vs), db) ->
  exists r,
    getTestResults testId db = Ok (r, db)
    /\ concludeTest testId now db = Ok (r, afterUpdate testId (concluded now) db)
    /\ r = (if enoughData (map variantResult vs) (Test.minSampleSize t)
            then analysedResults t vs else plainResults t vs).
Proof.
  intros Hfind. eexists. split; [apply (getTestResults_found _ _ _ _ Hfind)|].
  split; [|reflexivity].
  unfold concludeTest, mbind, M_bind, bind.
  rewrite (getTestResults_found _ _ _ _ Hfind).
  destruct (updateTest_found testId (concluded now) db t vs (fun _ => eq_refl) Hfind)
    as [Hup _].
  rewrite Hup. reflexivity.
Qed.

(** X9. [concludeTest] returns what [getTestResults] returns on the state
    before it, marks the experiment COMPLETED with the end date and changes
    no variant and no event row.  Afterwards [assignVariant] throws for every
    subject, but nothing else is frozen: [concludeTest] can be called again
    and returns the same winner, significance, recommendation and variants,
    and [trackEvent] still moves the counters of the concluded experiment
    (for a stored lead, as long as the 32-bit counter has room). *)
Theorem concludeTest_freezes_assignment_only (db : Db) (testId : string) (now : Z)
    (t : Test.t) (vs : list Variant.t) :
  findUniqueTest testId db = Ok (Some (t, vs), db) ->
  exists r db',
    getTestResults testId db = Ok (r, db)
    /\ concludeTest testId now db = Ok (r, db')
    /\ findUniqueTest testId db' = Ok (Some (concluded now t, vs), db')
    /\ abTestVariant db' = abTestVariant db
    /\ abTestResult db' = abTestResult db
    /\ (forall leadId u,
          assignVariant testId leadId u db' = Throw "Test is not running")
    /\ (forall now2, exists r2 db2,
          concludeTest testId now2 db' = Ok (r2, db2)
          /\ Results.status r2 = COMPLETED
          /\ Results.winner r2 = Results.winner r
          /\ Results.statisticalSignificance r2 = Results.statisticalSignificance r
          /\ Results.recommendedAction r2 = Results.recommendedAction r
          /\ Results.variants r2 = Results.variants r)
    /\ (forall variantId leadId v,
          getVariant variantId db = Some v ->
          hasLead leadId db = true ->
          Variant.impressions v < maxInt ->
          exists db2,
            trackEvent testId variantId leadId "IMPRESSION" None db' = Ok (tt, db2)
            /\ Variant.impressions <$> getVariant variantId db2
               = Some (Variant.impressions v + 1)).
Proof.
  intros Hfind.
  destruct (concludeTest_found db testId now t vs Hfind) as [r [Hget [Hrun Hr]]].
  destruct (updateTest_found testId (concluded now) db t vs (fun _ => eq_refl) Hfind)
    as [_ Hfind'].
  exists r, (afterUpdate testId (concluded now) db).
  split; [exact Hget|]. split; [exact Hrun|]. split; [exact Hfind'|].
  split; [reflexivity|]. split; [reflexivity|]. split; [|split].
  - intros leadId u. unfold assignVariant, mbind, M_bind, bind. rewrite Hfind'. reflexivity.
  - intros now2.
    destruct (concludeTest_found _ testId now2 _ vs Hfind') as [r2 [_ [Hrun2 Hr2]]].
    exists r2, (afterUpdate testId (concluded now2) (afterUpdate testId (concluded now) db)).
    split; [exact Hrun2|]. rewrite Hr2, Hr. simpl Test.minSampleSize.
    destruct (enoughData (map variantResult vs) (Test.minSampleSize t)); repeat split.
  - intros variantId leadId v Hv Hlead Hroom.
    destruct (findUniqueTest_found _ _ _ _ Hfind') as [Htest _].
    destruct (trackEvent_counted (afterUpdate testId (concluded now) db) testId variantId
                leadId "IMPRESSION" IMPRESSION None _ v _ eq_refl eq_refl Htest Hv Hlead
                ltac:(cbv beta; rewrite (increment_below _ Hroom); reflexivity) eq_refl)
      as [db2 [Hrun2 [Hget2 _]]].
    exists db2. split; [exact Hrun2|]. rewrite Hget2. reflexivity.
Qed.

End Conclude.

Lemma concludeTest_freezes_assignment_only_witness :
  exists r db',
    @concludeTest replay "t1" 9 sampleDb = Ok (r, db')
    /\ assignVariant "t1" "lead1" (1 # 4) db' = Throw "Test is not running".
Proof.
  destruct (@concludeTest_freezes_assignment_only replay sampleDb "t1" 9 sampleTest
              [sampleA; sampleB] eq_refl)
    as [r [db' [_ [Hrun [_ [_ [_ [Hno _]]]]]]]].
  exists r, db'. split; [exact Hrun | apply Hno].
Defined.

End AbLifecycleFacts.

(* ===================================================================== *)
(** * Facts: performStatisticalAnalysis and calculateConfidenceInterval *)
(* ===================================================================== *)

Module AnalysisFacts.
Import Js JsFacts AbTest AbTestFacts.

(** ** Arithmetic that does not depend on the order of the operands *)

Lemma add_comm (a b : num) : (a + b)%num = (b + a)%num.
Proof.
  destruct a as [x| | |], b as [y| | |]; try reflexivity.
  unfold add. apply rnd_comp. ring.
Qed.

Lemma abs_neg (a : num) : Math_abs (neg a) = Math_abs a.
Proof.
  destruct a as [x| | |]; try reflexivity.
  unfold neg, fin, Math_abs, fin. f_equal. apply Qred_complete.
  rewrite Qred_correct. apply Qabs_opp.
Qed.

Lemma abs_sub_swap (a b : num) : Math_abs (a - b)%num = Math_abs (b - a)%num.
Proof.
  destruct a as [x| | |], b as [y| | |]; try reflexivity.
  change (Fin x - Fin y)%num with (rnd (x + Qred (- y))).
  change (Fin y - Fin x)%num with (rnd (y + Qred (- x))).
  rewrite (rnd_comp (y + Qred (- x)) (- (x + Qred (- y))))
    by (rewrite !Qred_correct; ring).
  rewrite rnd_opp. symmetry. apply abs_neg.
Qed.

Section Symmetry.
Context `{Numerics}.

Lemma rawSignificance_swap (a b : VariantResult.t) :
  rawSignificance a b = rawSignificance b a.
Proof.
  unfold rawSignificance, pValue, zScore, se, pooledP.
  rewrite (abs_sub_swap (rate b) (rate a)).
  rewrite (add_comm (ofZ (VariantResult.conversions a))),
          (add_comm (ofZ (VariantResult.impressions a))),
          (add_comm (Fin 1 / ofZ (VariantResult.impressions a))%num).
  reflexivity.
Qed.

(** X10. The significance test does not depend on which of the two variants
    comes first: for every runtime, swapping control and treatment gives the
    same reported significance, the same decision to declare a winner and the
    same recommendation kind; when one rate is strictly above the other the
    same variant wins.  (Only the reported improvement depends on the order.) *)
Theorem analysis_order_independent (a b : Variant.t) (cl : num) :
  let ab := performStatisticalAnalysis [variantResult a; variantResult b] cl in
  let ba := performStatisticalAnalysis [variantResult b; variantResult a] cl in
  significance ab = significance ba
  /\ (is_Some (winner ab) <-> is_Some (winner ba))
  /\ (winner ab = None -> recommendation ab = recommendation ba)
  /\ ((rate (variantResult a) <? rate (variantResult b))%num = true
      \/ (rate (variantResult b) <? rate (variantResult a))%num = true ->
      variantId <$> winner ab = variantId <$> winner ba
      /\ variantName <$> winner ab = variantName <$> winner ba
      /\ recommendation ab = recommendation ba).
Proof.
  intros ab ba. unfold ab, ba. rewrite !analysis_two. cbv zeta.
  cbn [significance winner recommendation].
  rewrite (rawSignificance_swap (variantResult b) (variantResult a)).
  set (sig := rawSignificance (variantResult a) (variantResult b)).
  split; [reflexivity|]. split; [|split].
  - destruct (sig >=? cl)%num; split; intros [w Hw]; try discriminate; eauto.
  - destruct (sig >=? cl)%num; [discriminate|]. reflexivity.
  - intros Hord.
    assert (Hbetter : betterOf a b = betterOf b a).
    { unfold betterOf, gtb.
      destruct Hord as [Hlt|Hlt]; rewrite Hlt.
      - destruct (rate (variantResult a)) as [x| | |], (rate (variantResult b)) as [y| | |];
          simpl in *; try discriminate; try reflexivity.
        destruct (Qle_bool x y) eqn:E; [reflexivity|].
        apply Qle_bool_false_iff in E. apply negb_true_iff in Hlt.
        apply Qle_bool_false_iff in Hlt. lra.
      - destruct (rate (variantResult a)) as [x| | |], (rate (variantResult b)) as [y| | |];
          simpl in *; try discriminate; try reflexivity.
        destruct (Qle_bool y x) eqn:E; [reflexivity|].
        apply Qle_bool_false_iff in E. apply negb_true_iff in Hlt.
        apply Qle_bool_false_iff in Hlt. lra. }
    rewrite Hbetter. destruct (sig >=? cl)%num; repeat split.
Qed.


Lemma inject_Z_nonzero z : z <> 0 -> ~ (inject_Z z == 0)%Q.
Proof. intros Hz E. apply Hz. unfold Qeq in E. simpl in E. lia. Qed.

Lemma inject_Z_positive z : 0 < z -> (0 < inject_Z z)%Q.
Proof. intros Hz. change 0%Q with (inject_Z 0). rewrite <- Zlt_Qlt. exact Hz. Qed.

(** Zero divided by a positive number, finite or not. *)
Lemma zero_div_positive a :
  a = PosInf \/ (exists d, a = Fin d /\ (0 < d)%Q) -> (Fin 0 / a)%num = Fin 0.
Proof.
  intros [->|[d [-> Hd]]]; [reflexivity|].
  assert (E : Qeq_bool d 0 = false) by (apply Qeq_bool_false_iff; lra).
  unfold div. rewrite E. apply rnd_0. unfold Qdiv. apply Qmult_0_l.
Qed.

Lemma rate_zero (v : Variant.t) :
  0 < Variant.impressions v -> Variant.conversions v = 0 ->
  rate (variantResult v) = Fin 0.
Proof.
  intros Hi Hc. unfold rate, variantResult. cbn [VariantResult.conversions
    VariantResult.impressions]. rewrite Hc. apply zero_div_positive.
  right. eexists. split; [reflexivity | apply inject_Z_positive; exact Hi].
Qed.

(** The reciprocal of a positive count is between 0 and 1. *)
Lemma reciprocal_within z : 0 < z -> within 0 1 (Fin 1 / ofZ z)%num.
Proof.
  intros Hz. pose proof (inject_Z_positive z Hz) as Hq.
  assert (H1 : (1 <= inject_Z z)%Q).
  { change 1%Q with (inject_Z 1). rewrite <- Zle_Qle. lia. }
  assert (E : Qeq_bool (inject_Z z) 0 = false) by (apply Qeq_bool_false_iff; lra).
  unfold ofZ, div. rewrite E.
  apply rnd_between; [apply isDouble_0 | apply isDouble_1 | |].
  - apply Qle_shift_div_l; [exact Hq | lra].
  - apply Qle_shift_div_r; [exact Hq | lra].
Qed.

(** X11. Two variants without a single conversion give no verdict but a
    NaN: with positive impressions and zero conversions on both sides the
    standard error is the square root of 0, the z-score is 0/0, and for a
    runtime whose square root of 0 is 0 and whose distribution function
    passes NaN through, the reported significance is NaN, no winner is
    declared at any confidence level and the recommendation is to continue. *)
Theorem analysis_without_conversions (a b : Variant.t) (cl : num) :
  0 < Variant.impressions a -> 0 < Variant.impressions b ->
  Variant.conversions a = 0 -> Variant.conversions b = 0 ->
  Math_sqrt (Fin 0) = Fin 0 ->
  cumulativeStdNormalProbability NaN = NaN ->
  performStatisticalAnalysis [variantResult a; variantResult b] cl
  = {| significance := NaN; winner := None; recommendation := continueTest |}.
Proof.
  intros Hia Hib Hca Hcb Hsqrt Hcdf.
  pose proof (rate_zero a Hia Hca) as Hra.
  pose proof (rate_zero b Hib Hcb) as Hrb.
  assert (Hpool : pooledP (variantResult a) (variantResult b) = Fin 0).
  { unfold pooledP. cbn [variantResult VariantResult.conversions VariantResult.impressions].
    rewrite Hca, Hcb. change (ofZ 0 + ofZ 0)%num with (rnd (0 + 0)).
    rewrite (rnd_0 (0 + 0)) by reflexivity.
    apply zero_div_positive. unfold ofZ.
    change (Fin (inject_Z (Variant.impressions a)) + Fin (inject_Z (Variant.impressions b)))%num
      with (rnd (inject_Z (Variant.impressions a) + inject_Z (Variant.impressions b))).
    pose proof (inject_Z_positive _ Hia) as Ha. pose proof (inject_Z_positive _ Hib) as Hb.
    assert (H1 : (1 <= inject_Z (Variant.impressions a))%Q).
    { change 1%Q with (inject_Z 1). rewrite <- Zle_Qle. lia. }
    destruct (rnd_above 1 (inject_Z (Variant.impressions a) + inject_Z (Variant.impressions b)))
      as [E|[d [E Hd]]]; [apply isDouble_1 | lra | |]; rewrite E.
    - left. reflexivity.
    - right. exists d. split; [reflexivity | lra]. }
  assert (Hse : se (variantResult a) (variantResult b) = Fin 0).
  { unfold se. cbv zeta. rewrite Hpool.
    assert (E1 : (Fin 0 * (Fin 1 - Fin 0))%num = Fin 0) by (vm_compute; reflexivity).
    rewrite E1.
    cbn [variantResult VariantResult.impressions].
    pose proof (reciprocal_within _ Hia) as Wa. pose proof (reciprocal_within _ Hib) as Wb.
    apply within_finite in Wa. destruct Wa as [ra [Era [Ha0 Ha1]]].
    apply within_finite in Wb. destruct Wb as [rb [Erb [Hb0 Hb1]]].
    rewrite Era, Erb. change (Fin ra + Fin rb)%num with (rnd (ra + rb)).
    assert (W : within 0 2 (rnd (ra + rb))).
    { apply rnd_between; [apply isDouble_0 | vm_compute; reflexivity | lra | lra]. }
    apply within_finite in W. destruct W as [s [Es _]]. rewrite Es.
    change (Fin 0 * Fin s)%num with (rnd (0 * s)).
    rewrite (rnd_0 (0 * s)) by apply Qmult_0_l. exact Hsqrt. }
  assert (Hsig : rawSignificance (variantResult a) (variantResult b) = NaN).
  { unfold rawSignificance, pValue, zScore. rewrite Hse, Hra, Hrb.
    assert (E : Math_abs (Math_abs (Fin 0 - Fin 0) / Fin 0)%num = NaN)
      by (vm_compute; reflexivity).
    rewrite E, Hcdf. reflexivity. }
  rewrite analysis_two. cbv zeta. rewrite Hsig. destruct cl; reflexivity.
Qed.

(** X12. Equal rates are never significant: when the two variants have the
    same finite conversion rate, for a runtime that answers a finite non-zero
    standard error and 1/2 for the distribution function at 0, the z-score is
    0, the reported significance is 0, and at every positive confidence level
    no winner is declared and the recommendation is to continue. *)
Theorem analysis_equal_rates (a b : Variant.t) (cl p s : Q) :
  rate (variantResult a) = Fin p ->
  rate (variantResult b) = Fin p ->
  se (variantResult a) (variantResult b) = Fin s ->
  ~ (s == 0)%Q ->
  cumulativeStdNormalProbability (Fin 0) = Fin (1 # 2) ->
  (0 < cl)%Q ->
  performStatisticalAnalysis [variantResult a; variantResult b] (Fin cl)
  = {| significance := Fin 0; winner := None; recommendation := continueTest |}.
Proof.
  intros Hra Hrb Hse Hs Hcdf Hcl.
  assert (Hz : Math_abs (zScore (variantResult a) (variantResult b)) = Fin 0).
  { unfold zScore. rewrite Hse, Hra, Hrb.
    assert (E : (Fin p - Fin p)%num = Fin 0).
    { change (Fin p - Fin p)%num with (rnd (p + Qred (- p))).
      apply rnd_0. rewrite Qred_correct. ring. }
    rewrite E. change (Math_abs (Fin 0)) with (Fin 0).
    assert (Es : Qeq_bool s 0 = false) by (apply Qeq_bool_false_iff; exact Hs).
    unfold div. rewrite Es.
    rewrite (rnd_0 (0 / s)) by (unfold Qdiv; apply Qmult_0_l). reflexivity. }
  assert (Hsig : rawSignificance (variantResult a) (variantResult b) = Fin 0).
  { unfold rawSignificance, pValue. rewrite Hz, Hcdf. vm_compute. reflexivity. }
  rewrite analysis_two. cbv zeta. rewrite Hsig.
  assert (E0 : (Math_round (Fin 0 * Fin 100) / Fin 100)%num = Fin 0)
    by (vm_compute; reflexivity).
  rewrite E0. unfold geb, leb.
  assert (E : Qle_bool cl 0 = false) by (apply Qle_bool_false_iff; exact Hcl).
  rewrite E.
  assert (E80 : Qle_bool 80 0 = false) by reflexivity.
  rewrite E80. reflexivity.
Qed.

(** The two ends of the interval before they are clamped. *)
Definition endOf (x : num) : num := (Math_round (x * Fin 10000) / Fin 100)%num.

Lemma endOf_mono a b : (a <=? b)%num = true -> (endOf a <=? endOf b)%num = true.
Proof.
  intros Hle. unfold endOf. apply div_le_mono; [|reflexivity].
  apply round_le_mono. apply mul_le_mono; [exact Hle | reflexivity].
Qed.

Lemma endOf_0 : endOf (Fin 0) = Fin 0.
Proof. vm_compute. reflexivity. Qed.

Lemma endOf_1 : endOf (Fin 1) = Fin 100.
Proof. vm_compute. reflexivity. Qed.

Lemma clamp_ordered L U :
  (L <=? U)%num = true -> (L <=? Fin 100)%num = true -> (Fin 0 <=? U)%num = true ->
  exists lo hi,
    Math_max (Fin 0) L = Fin lo /\ Math_min (Fin 100) U = Fin hi
    /\ (0 <= lo)%Q /\ (lo <= hi)%Q /\ (hi <= 100)%Q.
Proof.
  intros H1 H2 H3.
  destruct L as [l| | |], U as [u| | |]; simpl in H1, H2, H3; try discriminate;
    unfold Math_max, Math_min, leb.
  - apply Qle_bool_iff in H1. apply Qle_bool_iff in H2. apply Qle_bool_iff in H3.
    destruct (Qle_bool 0 l) eqn:E0; destruct (Qle_bool 100 u) eqn:E1;
      try apply Qle_bool_iff in E0; try apply Qle_bool_false_iff in E0;
      try apply Qle_bool_iff in E1; try apply Qle_bool_false_iff in E1;
      eexists _, _; (split; [reflexivity|]); (split; [reflexivity|]);
      repeat split; lra.
  - apply Qle_bool_iff in H2.
    destruct (Qle_bool 0 l) eqn:E0;
      try apply Qle_bool_iff in E0; try apply Qle_bool_false_iff in E0;
      eexists _, _; (split; [reflexivity|]); (split; [reflexivity|]);
      repeat split; lra.
  - apply Qle_bool_iff in H3.
    destruct (Qle_bool 100 u) eqn:E1;
      try apply Qle_bool_iff in E1; try apply Qle_bool_false_iff in E1;
      eexists _, _; (split; [reflexivity|]); (split; [reflexivity|]);
      repeat split; lra.
  - eexists _, _. split; [reflexivity|]. split; [reflexivity|]. repeat split; lra.
Qed.

(** X13. The confidence interval is clamped and ordered: for
    0 <= conversions <= impressions with impressions > 0, and for a runtime
    that answers finite non-negative numbers for the quantile and the square
    root, the two bounds are finite and 0 <= lower <= upper <= 100.  With no
    impressions the interval is 0 to 0. *)
Theorem confidenceInterval_clamped (conversions impressions : Z) (cl : num) (z s : Q) :
  0 < impressions -> 0 <= conversions <= impressions ->
  probit ((Fin 1 + cl / Fin 100) / Fin 2)%num = Fin z -> (0 <= z)%Q ->
  Math_sqrt (((ofZ conversions / ofZ impressions)
              * (Fin 1 - ofZ conversions / ofZ impressions)) / ofZ impressions)%num
  = Fin s -> (0 <= s)%Q ->
  calculateConfidenceInterval conversions 0 cl = {| lower := Fin 0; upper := Fin 0 |}
  /\ exists lo hi,
       calculateConfidenceInterval conversions impressions cl
       = {| lower := Fin lo; upper := Fin hi |}
       /\ (0 <= lo)%Q /\ (lo <= hi)%Q /\ (hi <= 100)%Q.
Proof.
  intros Hi Hc Hprobit Hz Hsqrt Hs. split; [reflexivity|].
  unfold calculateConfidenceInterval.
  assert (Hi0 : (impressions =? 0) = false) by (apply Z.eqb_neq; lia).
  rewrite Hi0. cbv zeta. rewrite Hprobit, Hsqrt.
  assert (HP : within 0 1 (ofZ conversions / ofZ impressions)%num).
  { pose proof (inject_Z_positive _ Hi) as Hq.
    assert (E : Qeq_bool (inject_Z impressions) 0 = false)
      by (apply Qeq_bool_false_iff; lra).
    unfold ofZ, div. rewrite E.
    apply rnd_between; [apply isDouble_0 | apply isDouble_1 | |].
    - apply Qle_shift_div_l; [exact Hq|]. rewrite Qmult_0_l.
      change 0%Q with (inject_Z 0). rewrite <- Zle_Qle. lia.
    - apply Qle_shift_div_r; [exact Hq|]. rewrite Qmult_1_l. rewrite <- Zle_Qle. lia. }
  apply within_finite in HP. destruct HP as [p [Ep [Hp0 Hp1]]]. rewrite Ep.
  fold (endOf (Fin p - Fin z * Fin s)%num). fold (endOf (Fin p + Fin z * Fin s)%num).
  assert (Hm : atLeastZero (Fin z * Fin s)%num).
  { change (Fin z * Fin s)%num with (rnd (z * s)).
    apply rnd_above; [apply isDouble_0 | apply Qmult_le_0_compat; assumption]. }
  assert (Hlow : (Fin p - Fin z * Fin s <=? Fin 1)%num = true
                 /\ (Fin 0 <=? Fin p + Fin z * Fin s)%num = true
                 /\ (Fin p - Fin z * Fin s <=? Fin p + Fin z * Fin s)%num = true).
  { destruct Hm as [->|[m [-> Hm]]]; [repeat split|].
    change (Fin p - Fin m)%num with (rnd (p + Qred (- m))).
    change (Fin p + Fin m)%num with (rnd (p + m)).
    split; [|split].
    - assert (E1 : Fin 1 = rnd 1) by (vm_compute; reflexivity). rewrite E1.
      apply rnd_le. rewrite Qred_correct. lra.
    - rewrite <- (rnd_0 0) by reflexivity. apply rnd_le. lra.
    - apply rnd_le. rewrite Qred_correct. lra. }
  destruct Hlow as [H1 [H2 H3]].
  apply endOf_mono in H1. rewrite endOf_1 in H1.
  apply endOf_mono in H2. rewrite endOf_0 in H2.
  apply endOf_mono in H3.
  destruct (clamp_ordered _ _ H3 H1 H2) as [lo [hi [El [Eh Hb]]]].
  exists lo, hi. rewrite El, Eh. split; [reflexivity | exact Hb].
Qed.

(** ** The per-variant rates of [getTestResults] *)

Lemma gtb_Z_false (z : Z) : z <= 0 -> (z >? 0) = false.
Proof. intros Hz. rewrite Z.gtb_ltb. apply Z.ltb_ge. exact Hz. Qed.

Lemma gtb_Z_true (z : Z) : 0 < z -> (z >? 0) = true.
Proof. intros Hz. rewrite Z.gtb_ltb. apply Z.ltb_lt. exact Hz. Qed.

(** X14. The rates reported per variant are guarded: the conversion rate
    and the revenue per conversion are never NaN, the conversion rate is 0
    without impressions, the revenue per conversion is 0 without
    conversions, with impressions the conversion rate is
    conversions / impressions x 100, computed in doubles and rounded to two
    decimals, and for 0 <= conversions <= impressions it is a number between
    0 and 100. *)
Theorem variantResult_rates_guarded (v : Variant.t) :
  VariantResult.conversionRate (variantResult v) <> NaN
  /\ VariantResult.revenuePerConversion (variantResult v) <> NaN
  /\ (Variant.impressions v <= 0 ->
      VariantResult.conversionRate (variantResult v) = Fin 0)
  /\ (Variant.conversions v <= 0 ->
      VariantResult.revenuePerConversion (variantResult v) = Fin 0)
  /\ (0 < Variant.impressions v ->
      VariantResult.conversionRate (variantResult v)
      = (Math_round
           (ofZ (Variant.conversions v) / ofZ (Variant.impressions v) * Fin 100 * Fin 100)
         / Fin 100)%num)
  /\ (0 <= Variant.conversions v <= Variant.impressions v ->
      0 < Variant.impressions v ->
      within 0 100 (VariantResult.conversionRate (variantResult v))).
Proof.
  assert (Hrate : 0 < Variant.impressions v ->
            VariantResult.conversionRate (variantResult v)
            = (Math_round
                 (ofZ (Variant.conversions v) / ofZ (Variant.impressions v)
                  * Fin 100 * Fin 100) / Fin 100)%num).
  { intros Hi. unfold variantResult. cbn [VariantResult.conversionRate].
    rewrite (gtb_Z_true _ Hi). reflexivity. }
  assert (Hzero : Variant.impressions v <= 0 ->
            VariantResult.conversionRate (variantResult v) = Fin 0).
  { intros Hi. unfold variantResult. cbn [VariantResult.conversionRate].
    rewrite (gtb_Z_false _ Hi). vm_compute. reflexivity. }
  assert (Hrev0 : Variant.conversions v <= 0 ->
            VariantResult.revenuePerConversion (variantResult v) = Fin 0).
  { intros Hc. unfold variantResult. cbn [VariantResult.revenuePerConversion].
    rewrite (gtb_Z_false _ Hc). vm_compute. reflexivity. }
  split; [|split; [|split; [|split; [|split]]]].
  - destruct (Z_lt_le_dec 0 (Variant.impressions v)) as [Hi|Hi].
    + rewrite (Hrate Hi). apply round2_not_NaN.
      apply mul_pos_not_NaN; [|reflexivity].
      apply div_pos_not_NaN; [discriminate | apply inject_Z_positive; exact Hi].
    + rewrite (Hzero Hi). discriminate.
  - destruct (Z_lt_le_dec 0 (Variant.conversions v)) as [Hc|Hc].
    + unfold variantResult. cbn [VariantResult.revenuePerConversion].
      rewrite (gtb_Z_true _ Hc). apply round2_not_NaN.
      apply div_pos_not_NaN; [discriminate | apply inject_Z_positive; exact Hc].
    + rewrite (Hrev0 Hc). discriminate.
  - exact Hzero.
  - exact Hrev0.
  - exact Hrate.
  - intros Hc Hi. rewrite (Hrate Hi). apply round2_within_100.
    apply (within_weaken (0 * 100) (1 * 100)); [|lra|lra].
    apply mul_within; [| lra | vm_compute; reflexivity | vm_compute; reflexivity].
    pose proof (inject_Z_positive _ Hi) as Hq.
    assert (E : Qeq_bool (inject_Z (Variant.impressions v)) 0 = false)
      by (apply Qeq_bool_false_iff; lra).
    unfold ofZ, div. rewrite E.
    apply rnd_between; [apply isDouble_0 | apply isDouble_1 | |].
    + apply Qle_shift_div_l; [exact Hq|]. rewrite Qmult_0_l.
      change 0%Q with (inject_Z 0). rewrite <- Zle_Qle. lia.
    + apply Qle_shift_div_r; [exact Hq|]. rewrite Qmult_1_l. rewrite <- Zle_Qle. lia.
Qed.

End Symmetry.

Definition evenA : Variant.t :=
  {| Variant.id := "vA"; Variant.testId := "t1"; Variant.name := "A";
     Variant.trafficPercent := 50; Variant.impressions := 200; Variant.clicks := 0;
     Variant.conversions := 50; Variant.revenue := 0 |}.

Definition evenB : Variant.t :=
  {| Variant.id := "vB"; Variant.testId := "t1"; Variant.name := "B";
     Variant.trafficPercent := 50; Variant.impressions := 200; Variant.clicks := 0;
     Variant.conversions := 50; Variant.revenue := 0 |}.

(** Answers of a run on two variants with 50 conversions out of 200: the
    standard error (the root of 0.001875) as 0.0433, the distribution
    function at 0 as 1/2, the 97.5% quantile as 1.96 and the root of
    0.0009375 as 0.0306. *)
Definition evenRun : Numerics :=
  tableNumerics [(double (3 # 1600), double (433 # 10000));
                 (double (3 # 3200), double (306 # 10000))]
                [(0%Q, (1 # 2)%Q)]
                [(double (39 # 40), double (49 # 25))].

Lemma analysis_equal_rates_witness :
  @performStatisticalAnalysis evenRun [variantResult evenA; variantResult evenB] (Fin 95)
  = {| significance := Fin 0; winner := None; recommendation := continueTest |}.
Proof.
  apply (@analysis_equal_rates evenRun evenA evenB 95 (1 # 4) (double (433 # 10000)));
    first [vm_compute; reflexivity | vm_compute; discriminate].
Defined.

Lemma confidenceInterval_clamped_witness :
  exists lo hi,
    @calculateConfidenceInterval evenRun 50 200 (Fin 95)
    = {| lower := Fin lo; upper := Fin hi |}
    /\ (0 <= lo)%Q /\ (lo <= hi)%Q /\ (hi <= 100)%Q.
Proof.
  refine (proj2 (@confidenceInterval_clamped evenRun 50 200 (Fin 95)
                   (double (49 # 25)) (double (306 # 10000)) _ _ _ _ _ _));
    first [lia | vm_compute; reflexivity | vm_compute; discriminate].
Defined.

Example confidenceInterval_sample :
  @calculateConfidenceInterval evenRun 50 200 (Fin 95)
  = {| lower := Fin 19; upper := Fin 31 |}.
Proof. vm_compute. reflexivity. Qed.

Lemma analysis_without_conversions_witness :
  @performStatisticalAnalysis (tableNumerics [(0%Q, 0%Q)] [] [])
    [variantResult
       {| Variant.id := "vA"; Variant.testId := "t1"; Variant.name := "A";
          Variant.trafficPercent := 50; Variant.impressions := 150; Variant.clicks := 3;
          Variant.conversions := 0; Variant.revenue := 0 |};
     variantResult
       {| Variant.id := "vB"; Variant.testId := "t1"; Variant.name := "B";
          Variant.trafficPercent := 50; Variant.impressions := 120; Variant.clicks := 1;
          Variant.conversions := 0; Variant.revenue := 0 |}] (Fin 95)
  = {| significance := NaN; winner := None; recommendation := continueTest |}.
Proof.
  apply (@analysis_without_conversions (tableNumerics [(0%Q, 0%Q)] [] []));
    first [reflexivity | lia].
Defined.

End AnalysisFacts.

(* ===================================================================== *)
(** * Facts: extractLeadFeatures and its scorers *)
(* ===================================================================== *)

Module LeadScoringFacts.
Import Js JsFacts Scoring ScoringFacts LeadScoring.

(** ** Substrings *)

Lemma append_cons c (a q : string) : String c a +:+ q = String c (a +:+ q).
Proof. reflexivity. Qed.

Lemma append_nil (q : string) : "" +:+ q = q.
Proof. reflexivity. Qed.

Lemma prefix_spec : forall a s,
  String.prefix a s = true <-> exists q, s = a +:+ q.
Proof.
  induction a as [|c a IH]; intros s.
  - destruct s; simpl; (split; [intros _; eexists; reflexivity | reflexivity]).
  - destruct s as [|d s]; simpl.
    + split; [discriminate | intros [q E]; discriminate].
    + destruct (Ascii.ascii_dec c d) as [->|Hne].
      * rewrite IH. split; intros [q E]; exists q;
          [rewrite E; reflexivity | rewrite append_cons in E; congruence].
      * split; [discriminate | intros [q E]; rewrite append_cons in E; congruence].
Qed.

Lemma includes_nil sub : includes "" sub = String.prefix sub "".
Proof. unfold includes. apply orb_false_r. Qed.

Lemma includes_cons c s sub :
  includes (String c s) sub = String.prefix sub (String c s) || includes s sub.
Proof. reflexivity. Qed.

Lemma includes_spec : forall s sub,
  includes s sub = true <-> exists p q, s = p +:+ sub +:+ q.
Proof.
  induction s as [|c s IH]; intros sub.
  - rewrite includes_nil, prefix_spec. split.
    + intros [q E]. exists "", q. exact E.
    + intros [p [q E]].
      destruct p; [exists q; exact E | rewrite append_cons in E; discriminate].
  - rewrite includes_cons, orb_true_iff, prefix_spec, IH. split.
    + intros [[q E] | [p [q E]]].
      * exists "", q. exact E.
      * exists (String c p), q. rewrite E. reflexivity.
    + intros [p [q E]]. destruct p as [|d p].
      * left. exists q. exact E.
      * right. exists p, q. rewrite append_cons in E. congruence.
Qed.

Lemma append_assoc (a b c : string) : (a +:+ b) +:+ c = a +:+ (b +:+ c).
Proof. induction a as [|d a IH]; [reflexivity | rewrite !append_cons, IH; reflexivity]. Qed.

(** A substring of a substring is a substring. *)
Lemma includes_trans s mid sub :
  includes s mid = true -> includes mid sub = true -> includes s sub = true.
Proof.
  rewrite !includes_spec. intros [p [q ->]] [p' [q' ->]].
  exists (p +:+ p'), (q' +:+ q). rewrite !append_assoc. reflexivity.
Qed.

Lemma includes_nonempty s sub :
  includes s sub = true -> sub <> "" -> s <> "".
Proof.
  intros Hi Hsub ->. rewrite includes_nil in Hi.
  destruct sub; [congruence | discriminate].
Qed.

Lemma toLowerCase_nonempty s : toLowerCase s <> "" -> given (Some s) = true.
Proof. destruct s; simpl; [congruence | reflexivity]. Qed.


(** ** The scorers *)

Lemma min2_spec a b : (min2 a b <= a /\ min2 a b <= b /\ (min2 a b == a \/ min2 a b == b))%Q.
Proof.
  unfold min2. destruct (Qle_bool a b) eqn:E.
  - apply Qle_bool_iff in E. split; [lra | split; [lra | left; reflexivity]].
  - apply Qle_bool_false_iff in E. split; [lra | split; [lra | right; reflexivity]].
Qed.

Lemma normalizeCompanySize_range employeeCount :
  (0 <= normalizeCompanySize employeeCount <= 100)%Q.
Proof.
  unfold normalizeCompanySize. destruct employeeCount as [n|]; [|lra].
  repeat match goal with |- context [if ?c then _ else _] => destruct c end; lra.
Qed.

Lemma getIndustryScore_range industry : (0 <= getIndustryScore industry <= 100)%Q.
Proof.
  unfold getIndustryScore.
  repeat match goal with |- context [if ?c then _ else _] => destruct c end; lra.
Qed.

Lemma getSeniorityLevel_range jobTitle : (0 <= getSeniorityLevel jobTitle <= 100)%Q.
Proof.
  unfold getSeniorityLevel.
  repeat match goal with |- context [if ?c then _ else _] => destruct c end; lra.
Qed.

Lemma getDepartmentRelevance_range jobTitle :
  (0 <= getDepartmentRelevance jobTitle <= 100)%Q.
Proof.
  unfold getDepartmentRelevance.
  repeat match goal with |- context [if ?c then _ else _] => destruct c end; lra.
Qed.

Lemma assessContactQuality_range lead : (50 <= assessContactQuality lead <= 100)%Q.
Proof.
  unfold assessContactQuality. cbv zeta.
  match goal with |- (_ <= min2 100 ?q <= _)%Q =>
    assert (Hq : (50 <= q)%Q);
    [| destruct (min2_spec 100 q) as [H1 [H2 [H3|H3]]]; lra]
  end.
  repeat match goal with |- context [if ?c then _ else _] => destruct c end; lra.
Qed.

Lemma assessBuyingIntent_range lead now : (30 <= assessBuyingIntent lead now <= 100)%Q.
Proof.
  unfold assessBuyingIntent. cbv zeta.
  set (recent := inject_Z (Z.of_nat (length (List.filter (isRecent now) (Lead.activities lead))))).
  assert (Hr : (0 <= recent)%Q) by apply inject_nat_nonneg.
  assert (Hm : (0 <= min2 30 (recent * 5))%Q).
  { destruct (min2_spec 30 (recent * 5)) as [_ [_ [E|E]]]; lra. }
  match goal with |- (_ <= min2 100 ?q <= _)%Q =>
    assert (Hq : (30 <= q)%Q);
    [| destruct (min2_spec 100 q) as [H1 [H2 [H3|H3]]]; lra]
  end.
  repeat match goal with |- context [if ?c then _ else _] => destruct c end; lra.
Qed.

(** X15. The company-size score never decreases with the head count and
    stays between 0 and 100. *)
Theorem normalizeCompanySize_monotone (a b : Q) :
  (0 <= a)%Q -> (a <= b)%Q ->
  (normalizeCompanySize (Some a) <= normalizeCompanySize (Some b))%Q
  /\ (0 <= normalizeCompanySize (Some b) <= 100)%Q.
Proof.
  intros Ha Hab. split; [|apply normalizeCompanySize_range].
  unfold normalizeCompanySize.
  repeat match goal with
         | |- context [if Qeq_bool ?x ?y then _ else _] =>
             let E := fresh "E" in
             destruct (Qeq_bool x y) eqn:E;
             [apply Qeq_bool_iff in E | apply Qeq_bool_false_iff in E]
         | |- context [if Qle_bool ?x ?y then _ else _] =>
             let E := fresh "E" in
             destruct (Qle_bool x y) eqn:E;
             [apply Qle_bool_iff in E | apply Qle_bool_false_iff in E]
         end; lra.
Qed.

Lemma normalizeCompanySize_monotone_witness :
  (normalizeCompanySize (Some 60) <= normalizeCompanySize (Some 750))%Q
  /\ (0 <= normalizeCompanySize (Some 750) <= 100)%Q.
Proof. apply normalizeCompanySize_monotone; lra. Defined.

(** X16. A job title that mentions "vice president" mentions "president":
    it is scored 100, as a president, by the first test of
    [getSeniorityLevel], and never reaches the test that would score it
    90. *)
Theorem vice_president_scored_as_president (jobTitle : string) :
  includes (toLowerCase jobTitle) "vice president" = true ->
  getSeniorityLevel (Some jobTitle) = 100%Q.
Proof.
  intros Hvp.
  assert (Hp : includes (toLowerCase jobTitle) "president" = true).
  { apply (includes_trans _ _ _ Hvp). vm_compute. reflexivity. }
  assert (Hg : given (Some jobTitle) = true).
  { apply toLowerCase_nonempty. apply (includes_nonempty _ _ Hvp). discriminate. }
  unfold getSeniorityLevel. rewrite Hg. simpl negb. cbv iota zeta.
  change (default "" (Some jobTitle)) with jobTitle.
  rewrite Hp, !orb_true_r. reflexivity.
Qed.

Lemma vice_president_scored_as_president_witness :
  getSeniorityLevel (Some "Senior Vice President of Sales") = 100%Q.
Proof.
  apply vice_president_scored_as_president. vm_compute. reflexivity.
Defined.


(** ** The extracted vector *)

(** A number between 0 and 100 is divided by 100 and not clamped. *)
Lemma normalizeFeatureValue_unclamped q :
  (0 <= q <= 100)%Q -> eqv (normalizeFeatureValue (VNumber q)) (Fin q / Fin 100)%num.
Proof.
  intros [H0 H1]. unfold normalizeFeatureValue.
  assert (W : within 0 1 (Fin q / Fin 100)%num).
  { apply (within_weaken (0 / 100) (100 / 100));
      [| apply Qle_bool_iff; reflexivity | apply Qle_bool_iff; reflexivity].
    apply div_within; [simpl; lra | lra | vm_compute; reflexivity | vm_compute; reflexivity]. }
  apply within_finite in W. destruct W as [x [-> [Hx0 Hx1]]].
  unfold Math_max, leb.
  assert (E0 : Qle_bool 0 x = true) by (apply Qle_bool_iff; exact Hx0). rewrite E0.
  unfold Math_min, leb. destruct (Qle_bool 1 x) eqn:E1; simpl.
  - apply Qle_bool_iff in E1. lra.
  - reflexivity.
Qed.

Lemma presentCount_app a b : presentCount (a ++ b) = (presentCount a + presentCount b)%nat.
Proof. unfold presentCount. rewrite map_app, filter_app, length_app. reflexivity. Qed.

Lemma presentCount_ownFeatures lead now : presentCount (ownFeatures lead now) = 10%nat.
Proof. reflexivity. Qed.

Ltac elem_cases H :=
  repeat (apply elem_of_cons in H; destruct H as [H|H]);
  [..| apply elem_of_nil in H; contradiction].

Section Extracted.
Variable normalizeRevenue : option Q -> Result FeatureValue.

Lemma extractLeadFeatures_inv lead now features :
  extractLeadFeatures normalizeRevenue lead now = Ok features ->
  exists company,
    companyFeatures normalizeRevenue lead = Ok company
    /\ features = company ++ ownFeatures lead now.
Proof.
  unfold extractLeadFeatures. intros E.
  destruct (companyFeatures normalizeRevenue lead) as [company|msg]; [|discriminate].
  exists company. split; [reflexivity | congruence].
Qed.

Lemma extracted_presentCount lead now features :
  extractLeadFeatures normalizeRevenue lead now = Ok features ->
  (10 <= presentCount features)%nat.
Proof.
  intros E. destruct (extractLeadFeatures_inv _ _ _ E) as [company [_ ->]].
  rewrite presentCount_app, presentCount_ownFeatures. lia.
Qed.

(** X17. Whatever the lead, the extractor sets each key once, sets at least
    ten features, and every number it computes itself, the count of campaign
    interactions apart, lies between 0 and 100, so that [applyAlgorithm]
    divides it by 100 without clamping. *)
Theorem extractLeadFeatures_ranges (lead : Lead.t) (now : Z) (features : LeadFeatures) :
  extractLeadFeatures normalizeRevenue lead now = Ok features ->
  NoDup features.*1
  /\ (10 <= presentCount features)%nat
  /\ forall name v,
       (name, v) ∈ features ->
       name <> "revenueEstimate" -> name <> "techStack" ->
       name <> "campaignInteractions" ->
       exists q, v = VNumber q /\ (0 <= q <= 100)%Q
                 /\ eqv (normalizeFeatureValue v) (Fin q / Fin 100)%num.
Proof.
  intros E. split; [|split; [exact (extracted_presentCount _ _ _ E)|]].
  - destruct (extractLeadFeatures_inv _ _ _ E) as [company [Ec ->]].
    unfold companyFeatures in Ec.
    destruct (Lead.companyInfo lead) as [c|].
    + destruct (normalizeRevenue (Company.revenue c)) as [r|]; [|discriminate].
      injection Ec as <-. refine (bool_decide_unpack _ _). vm_compute. exact I.
    + injection Ec as <-. refine (bool_decide_unpack _ _). vm_compute. exact I.
  - intros name v Hin Hrev Htech Hcamp.
    assert (Hq : exists q, v = VNumber q /\ (0 <= q <= 100)%Q).
    { destruct (extractLeadFeatures_inv _ _ _ E) as [company [Ec ->]].
      apply elem_of_app in Hin. destruct Hin as [Hin|Hin].
      - unfold companyFeatures in Ec.
        destruct (Lead.companyInfo lead) as [c|].
        + destruct (normalizeRevenue (Company.revenue c)) as [r|]; [|discriminate].
          injection Ec as <-. elem_cases Hin; injection Hin as -> ->; try congruence.
          * eexists. split; [reflexivity | apply normalizeCompanySize_range].
          * eexists. split; [reflexivity | apply getIndustryScore_range].
        + injection Ec as <-. apply elem_of_nil in Hin. contradiction.
      - unfold ownFeatures in Hin.
        elem_cases Hin; injection Hin as -> ->; try congruence;
          (eexists; split; [reflexivity|]).
        + apply getSeniorityLevel_range.
        + apply getDepartmentRelevance_range.
        + pose proof (assessContactQuality_range lead). lra.
        + unfold emailEngagement. lra.
        + unfold websiteVisits. lra.
        + unfold contentDownloads. lra.
        + unfold calculateResponseTime. lra.
        + pose proof (assessBuyingIntent_range lead now). lra.
        + destruct (attached (Lead.formSubmission lead)); lra. }
    destruct Hq as [q [-> Hq]]. exists q. split; [reflexivity|]. split; [exact Hq|].
    apply normalizeFeatureValue_unclamped. exact Hq.
Qed.

Section Scored.
Context `{NumberFormat}.

Lemma confidence_saturated features algorithm :
  (10 <= presentCount features)%nat ->
  (size (Algorithm.weights algorithm) <= 12)%nat ->
  ScoringResult.confidence (applyAlgorithm features algorithm) = Fin 1.
Proof.
  intros Hp Hs. rewrite confidence_unfold.
  assert (Hone : (Fin 1 <=? ofNat (presentCount features)
                            / ofNat (size (Algorithm.weights algorithm))
                            * lit (12 # 10))%num = true).
  { destruct lit_12_10 as [c [Ec Hc]]. rewrite Ec.
    assert (Hc' : Fin c = lit (12 # 10)) by (symmetry; exact Ec).
    destruct (Nat.eq_dec (size (Algorithm.weights algorithm)) 0%nat) as [Hz|Hnz].
    - rewrite Hz. rewrite !ofNat_Fin. unfold div.
      change (Qeq_bool (inject_Z (Z.of_nat 0)) 0) with true. cbv iota.
      assert (Hgt : (inject_Z (Z.of_nat (presentCount features)) ?= 0)%Q = Gt).
      { apply Qgt_alt. apply inject_nat_pos. lia. }
      rewrite Hgt. simpl.
      assert (Hgc : (c ?= 0)%Q = Gt) by (apply Qgt_alt; lra). rewrite Hgc. reflexivity.
    - rewrite !ofNat_Fin. unfold div. rewrite (ofNat_pos_inj _ Hnz).
      apply (leb_trans _ (rnd (10 # 12) * Fin c)%num).
      + rewrite Hc'. vm_compute. reflexivity.
      + apply mul_le_mono; [|lra]. apply rnd_le.
        apply Qle_shift_div_l; [apply inject_nat_pos; lia|].
        assert (Hs' : (inject_Z (Z.of_nat (size (Algorithm.weights algorithm))) <= 12)%Q).
        { change 12%Q with (inject_Z 12). rewrite <- Zle_Qle. lia. }
        assert (Hp' : (10 <= inject_Z (Z.of_nat (presentCount features)))%Q).
        { change 10%Q with (inject_Z 10). rewrite <- Zle_Qle. lia. }
        assert (Hs0 : (0 < inject_Z (Z.of_nat (size (Algorithm.weights algorithm))))%Q)
          by (apply inject_nat_pos; lia).
        lra. }
  unfold Math_min.
  destruct (ofNat (presentCount features) / ofNat (size (Algorithm.weights algorithm))
            * lit (12 # 10))%num as [x| | |] eqn:E; try discriminate.
  - rewrite Hone. vm_compute. reflexivity.
  - vm_compute. reflexivity.
Qed.

(** X18. For a vector that comes from the extractor and weights that are
    non-negative doubles, the score lies in [0, 100] unless the sum of the
    weighted values overflows, and then it is NaN; the confidence lies in
    [0, 1] whatever the weight map (the empty one included); with at most
    twelve weight entries the confidence is 1. *)
Theorem extracted_lead_bounds (lead : Lead.t) (now : Z) (features : LeadFeatures)
    (algorithm : Algorithm.t) :
  extractLeadFeatures normalizeRevenue lead now = Ok features ->
  weightsOk (Algorithm.weights algorithm) ->
  (numerator features (Algorithm.weights algorithm) <> PosInf ->
   within 0 100 (ScoringResult.score (applyAlgorithm features algorithm)))
  /\ (numerator features (Algorithm.weights algorithm) = PosInf ->
      ScoringResult.score (applyAlgorithm features algorithm) = NaN)
  /\ within 0 1 (ScoringResult.confidence (applyAlgorithm features algorithm))
  /\ ((size (Algorithm.weights algorithm) <= 12)%nat ->
      ScoringResult.confidence (applyAlgorithm features algorithm) = Fin 1).
Proof.
  intros E Hw. pose proof (extracted_presentCount _ _ _ E) as Hp.
  split; [apply score_within; exact Hw|].
  split; [apply score_overflow; exact Hw|]. split.
  - apply confidence_within. right. lia.
  - intros Hs. apply confidence_saturated; assumption.
Qed.

End Scored.
End Extracted.

(** A lead without company data. *)
Definition plainLead : Lead.t :=
  {| Lead.email := "dana@acme.io";
     Lead.industry := Some "Fintech";
     Lead.jobTitle := Some "Director of Marketing";
     Lead.phone := None;
     Lead.website := Some "https://acme.io";
     Lead.linkedinUrl := None;
     Lead.companyInfo := None;
     Lead.activities := [1000; 900000000];
     Lead.campaigns := ["e1"];
     Lead.formSubmission := Some "f1" |}.

(** A lead with company data: the extractor calls the method the class
    does not have, and throws. *)
Definition enrichedLead : Lead.t :=
  {| Lead.email := "lee@gmail.com";
     Lead.industry := Some "Retail";
     Lead.jobTitle := None;
     Lead.phone := Some "555";
     Lead.website := None;
     Lead.linkedinUrl := None;
     Lead.companyInfo :=
       Some {| Company.employeeCount := Some 250%Q;
               Company.revenue := Some 40%Q;
               Company.technologies := None |};
     Lead.activities := [];
     Lead.campaigns := [];
     Lead.formSubmission := None |}.

Example enrichedLead_throws (now : Z) :
  extractLeadFeatures normalizeRevenue_missing enrichedLead now
  = Throw "TypeError: this.normalizeRevenue is not a function".
Proof. reflexivity. Qed.

Definition contactWeights : Algorithm.t :=
  {| Algorithm.name := "contact";
     Algorithm.weights := {[ "seniorityLevel" := 2%Q; "contactQuality" := 1%Q ]};
     Algorithm.thresholds :=
       {| Thresholds.hot := 70; Thresholds.warm := 40; Thresholds.cold := 0 |} |}.

Lemma contactWeights_ok : weightsOk (Algorithm.weights contactWeights).
Proof.
  intros feature w Hw. unfold contactWeights in Hw. cbn [Algorithm.weights] in Hw.
  apply lookup_insert_Some in Hw. destruct Hw as [[_ <-]|[_ Hw]].
  - split; [vm_compute; reflexivity | lra].
  - apply lookup_singleton_Some in Hw. destruct Hw as [_ <-].
    split; [vm_compute; reflexivity | lra].
Qed.

Lemma extractLeadFeatures_ranges_witness :
  exists features,
    extractLeadFeatures normalizeRevenue_missing plainLead 900000000 = Ok features
    /\ NoDup features.*1
    /\ (10 <= presentCount features)%nat.
Proof.
  eexists. split; [reflexivity|].
  destruct (extractLeadFeatures_ranges normalizeRevenue_missing plainLead 900000000 _ eq_refl)
    as [Hd [Hp _]].
  split; [exact Hd | exact Hp].
Defined.

Lemma extracted_lead_bounds_witness :
  exists features,
    extractLeadFeatures normalizeRevenue_missing plainLead 900000000 = Ok features
    /\ within 0 100
         (ScoringResult.score (@applyAlgorithm fractionFormat features contactWeights))
    /\ ScoringResult.confidence (@applyAlgorithm fractionFormat features contactWeights)
       = Fin 1.
Proof.
  eexists. split; [reflexivity|].
  destruct (@extracted_lead_bounds normalizeRevenue_missing fractionFormat plainLead
              900000000 _ contactWeights eq_refl contactWeights_ok)
    as [Hscore [_ [_ Hconf]]].
  split.
  - apply Hscore. vm_compute. discriminate.
  - apply Hconf. vm_compute. lia.
Defined.

End LeadScoringFacts.

(* ===================================================================== *)
(** * Facts: applyAlgorithm, order and monotonicity *)
(* ===================================================================== *)

Module RankingFacts.
Import Js JsFacts Scoring ScoringFacts.

(** ** The order of the explanation factors *)

(** The size of a finite impact, as the comparator of the sort sees it. *)
Definition magnitude (a : Impact) : Q :=
  match impact a with
  | Fin q => Qabs q
  | _ => 0
  end.

(** A recorded impact that is a finite double. *)
Definition finiteImpact (a : Impact) : Prop :=
  exists q, impact a = Fin q /\ isDouble q.

Definition noSmaller (a b : Impact) : Prop := (magnitude b <= magnitude a)%Q.

(** Weights up to this size keep every recorded impact finite. *)
Definition weightBound : Q := (2 ^ 1000)%Q.

Lemma compareImpact_before x y :
  finiteImpact x -> finiteImpact y ->
  (compareImpact y x <? Fin 0)%num = true <-> (magnitude x < magnitude y)%Q.
Proof.
  intros [qx [Ex Dx]] [qy [Ey Dy]]. unfold compareImpact, magnitude. rewrite Ex, Ey.
  unfold Math_abs, fin.
  rewrite sub_double_sign by (apply isDouble_Qred, isDouble_abs; assumption).
  rewrite !Qred_correct. reflexivity.
Qed.

Lemma insertImpact_perm x : forall l, insertImpact x l ≡ₚ x :: l.
Proof.
  induction l as [|y rest IH]; simpl; [reflexivity|].
  destruct (compareImpact y x <? Fin 0)%num; [|reflexivity].
  rewrite IH. apply Permutation_swap.
Qed.

Lemma sortImpacts_perm : forall l, sortImpacts l ≡ₚ l.
Proof.
  induction l as [|x l IH]; simpl; [reflexivity|].
  rewrite insertImpact_perm, IH. reflexivity.
Qed.

Lemma insertImpact_sorted x : forall l,
  finiteImpact x -> Forall finiteImpact l ->
  StronglySorted noSmaller l -> StronglySorted noSmaller (insertImpact x l).
Proof.
  induction l as [|y rest IH]; intros Hx Hl Hs; simpl.
  - constructor; [constructor | constructor].
  - apply Forall_cons in Hl. destruct Hl as [Hy Hrest].
    apply StronglySorted_inv in Hs. destruct Hs as [Hs Hall].
    destruct (compareImpact y x <? Fin 0)%num eqn:E.
    + apply (compareImpact_before x y Hx Hy) in E.
      constructor; [apply IH; assumption|].
      rewrite insertImpact_perm. constructor; [unfold noSmaller; lra | exact Hall].
    + assert (Hge : (magnitude y <= magnitude x)%Q).
      { apply Qnot_lt_le. intros Hlt. apply (compareImpact_before x y Hx Hy) in Hlt.
        congruence. }
      constructor; [constructor; assumption|].
      constructor; [exact Hge|].
      eapply Forall_impl; [exact Hall|]. intros z Hz. unfold noSmaller in *. lra.
Qed.

Lemma sortImpacts_sorted : forall l,
  Forall finiteImpact l -> StronglySorted noSmaller (sortImpacts l).
Proof.
  induction l as [|x l IH]; intros Hl; simpl; [constructor|].
  apply Forall_cons in Hl. destruct Hl as [Hx Hl].
  apply insertImpact_sorted; [exact Hx | | apply IH; exact Hl].
  rewrite sortImpacts_perm. exact Hl.
Qed.

Lemma weightBound_facts :
  (1 <= weightBound)%Q /\ isDouble weightBound /\ isDouble (- weightBound)
  /\ isDouble (weightBound * 100) /\ isDouble (- weightBound * 100)
  /\ isDouble (2 * weightBound) /\ isDouble (- (2 * weightBound)).
Proof.
  split; [apply Qle_bool_iff; vm_compute; reflexivity|].
  repeat split; vm_compute; reflexivity.
Qed.

(** The impact recorded for a value under a weight within the bound. *)
Lemma recorded_impact_finite value w :
  (Qabs w <= weightBound)%Q ->
  exists q,
    (Math_round (normalizeFeatureValue value * Fin w * Fin 100) / Fin 100)%num = Fin q
    /\ isDouble q.
Proof.
  intros Hw. apply Qabs_Qle_condition in Hw. destruct Hw as [Hw1 Hw2].
  destruct weightBound_facts as [HB [D1 [D2 [D3 [D4 [D5 D6]]]]]].
  pose proof (normalizeFeatureValue_within value) as Hn.
  apply within_finite in Hn. destruct Hn as [n [-> [Hn0 Hn1]]].
  set (B := weightBound) in *.
  assert (H1 : within (- B) B (Fin n * Fin w)%num).
  { change (Fin n * Fin w)%num with (rnd (n * w)).
    apply rnd_between; [exact D2 | exact D1 | nra | nra]. }
  assert (H2 : within (- B * 100) (B * 100) (Fin n * Fin w * Fin 100)%num).
  { apply mul_within; [exact H1 | lra | exact D4 | exact D3]. }
  apply within_finite in H2. destruct H2 as [x [-> [Hx1 Hx2]]].
  cbn [Math_round]. unfold ofZ.
  pose proof (Qfloor_le (x + (1 # 2))) as F1.
  pose proof (Qlt_floor (x + (1 # 2))) as F2.
  rewrite inject_Z_plus in F2. change (inject_Z 1) with 1%Q in F2.
  set (z := inject_Z (Qfloor (x + (1 # 2)))) in *.
  assert (H3 : within (- (2 * B)) (2 * B) (Fin z / Fin 100)%num).
  { assert (E : Qeq_bool 100 0 = false) by reflexivity.
    unfold div. rewrite E.
    apply rnd_between; [exact D6 | exact D5 | |].
    - apply Qle_shift_div_l; [reflexivity | lra].
    - apply Qle_shift_div_r; [reflexivity | lra]. }
  apply within_finite in H3. destruct H3 as [q [Eq _]].
  exists q. split; [exact Eq | exact (div_double _ _ _ Eq)].
Qed.

Lemma impacts_finite (weights : gmap string Q) :
  (forall f w, weights !! f = Some w -> (Qabs w <= weightBound)%Q) ->
  forall features acc,
    Forall finiteImpact (impacts acc) ->
    Forall finiteImpact (impacts (fold_left (accumulate weights) features acc)).
Proof.
  intros Hb. induction features as [|[f value] rest IH]; intros acc Hacc; [exact Hacc|].
  cbn [fold_left]. apply IH. unfold accumulate.
  destruct (weights !! f) as [w|] eqn:Ef; [|exact Hacc].
  match goal with |- context [if ?c then _ else _] => destruct c end; [|exact Hacc].
  cbn [impacts]. apply Forall_app. split; [exact Hacc|].
  constructor; [|constructor].
  unfold finiteImpact. cbn [impact].
  apply recorded_impact_finite. exact (Hb _ _ Ef).
Qed.

Lemma sorted_app_order {A} (R : A -> A -> Prop) : forall l1 l2,
  StronglySorted R (l1 ++ l2) ->
  StronglySorted R l1 /\ forall a b, a ∈ l1 -> b ∈ l2 -> R a b.
Proof.
  induction l1 as [|x l1 IH]; intros l2 Hs.
  - split; [constructor|]. intros a b Ha. apply elem_of_nil in Ha. contradiction.
  - simpl in Hs. apply StronglySorted_inv in Hs. destruct Hs as [Hs Hall].
    destruct (IH _ Hs) as [Hs1 Hord]. apply Forall_app in Hall. destruct Hall as [H1 H2].
    split; [constructor; assumption|].
    intros a b Ha Hb. apply elem_of_cons in Ha. destruct Ha as [->|Ha].
    + rewrite Forall_forall in H2. apply H2. exact Hb.
    + apply Hord; assumption.
Qed.

Section TopFactors.
Context `{NumberFormat}.

(** X19. The reported factors together with the ones left out are the
    recorded impacts, and there are five of them or all if fewer.  When no
    weight exceeds 2^1000 in absolute value, every recorded impact is a
    finite number, the reported factors are in descending order of absolute
    impact, and none left out is larger than a reported one. *)
Theorem topFactors_are_largest (features : LeadFeatures) (algorithm : Algorithm.t) :
  let all := impacts (weightedSum features (Algorithm.weights algorithm)) in
  let top := topFactors (ScoringResult.explanation (applyAlgorithm features algorithm)) in
  exists rest,
    top ++ rest ≡ₚ all
    /\ length top = Nat.min 5 (length all)
    /\ ((forall f w, Algorithm.weights algorithm !! f = Some w ->
                     (Qabs w <= weightBound)%Q) ->
        Forall finiteImpact all
        /\ StronglySorted noSmaller top
        /\ forall a b, a ∈ top -> b ∈ rest -> noSmaller a b).
Proof.
  intros all top.
  pose proof (sortImpacts_perm all) as Hp.
  change top with (take 5 (sortImpacts all)).
  exists (drop 5 (sortImpacts all)).
  rewrite take_drop. split; [exact Hp|]. split.
  - rewrite length_take. rewrite (Permutation_length Hp). reflexivity.
  - intros Hb.
    assert (Hfin : Forall finiteImpact all).
    { apply impacts_finite; [exact Hb | constructor]. }
    split; [exact Hfin|].
    pose proof (sortImpacts_sorted all Hfin) as Hs.
    rewrite <- (take_drop 5 (sortImpacts all)) in Hs.
    apply sorted_app_order in Hs. exact Hs.
Qed.

End TopFactors.

(** Beyond the bound a recorded impact can be Infinity: under the weight
    1e307 the impact of a feature at 100 is 1e307, and the rounding to two
    decimals multiplies it by 100 first. *)
Example recorded_impact_infinite :
  impacts (weightedSum [("seniorityLevel", VNumber 100)]
             {[ "seniorityLevel" := double (10 ^ 307) ]})
  = [{| feature := "seniorityLevel"; impact := PosInf; value := VNumber 100 |}].
Proof. vm_compute. reflexivity. Qed.


(** ** Raising one feature *)

Definition rank (c : Category) : nat :=
  match c with cold => 0 | warm => 1 | hot => 2 end.

Lemma weighted_app a b weights :
  weighted (a ++ b) weights = weighted a weights ++ weighted b weights.
Proof.
  induction a as [|[f v] a IH]; [reflexivity|].
  cbn [app weighted]. destruct (weights !! f) as [w|]; [|exact IH].
  destruct (negb (Qeq_bool w 0) && isPresent v); [|exact IH].
  rewrite IH. reflexivity.
Qed.

Lemma add_le_mono a b c :
  atLeastZero a -> atLeastZero b -> (a <=? b)%num = true ->
  (a + Fin c <=? b + Fin c)%num = true.
Proof.
  intros [->|[x [-> Hx]]] [->|[y [-> Hy]]] Hle; try reflexivity; try discriminate.
  - change (Fin x + Fin c)%num with (rnd (x + c)). change (PosInf + Fin c)%num with PosInf.
    destruct (rnd (x + c)) eqn:E; try reflexivity. exfalso. exact (rnd_not_NaN _ E).
  - apply rnd_le. simpl in Hle. apply Qle_bool_iff in Hle. lra.
Qed.

Lemma numeratorFrom_mono pairs :
  (forall vw, vw ∈ pairs -> isDouble (snd vw) /\ (0 <= snd vw)%Q) ->
  forall a b,
    atLeastZero a -> atLeastZero b -> (a <=? b)%num = true ->
    (numeratorFrom a pairs <=? numeratorFrom b pairs)%num = true.
Proof.
  induction pairs as [|[value w] rest IH]; intros Hw a b Ha Hb Hle; [exact Hle|].
  destruct (Hw (value, w)) as [Hd H0]; [apply list_elem_of_here|].
  cbn [numeratorFrom fold_left fst snd].
  pose proof (normalizeFeatureValue_within value) as Hn.
  apply within_finite in Hn. destruct Hn as [n [En [Hn0 Hn1]]]. rewrite En.
  assert (Hi : within 0 w (Fin n * Fin w)%num).
  { change (Fin n * Fin w)%num with (rnd (n * w)).
    apply rnd_between; [apply isDouble_0 | exact Hd | |].
    - apply Qmult_le_0_compat; assumption.
    - rewrite <- (Qmult_1_l w) at 2. apply Qmult_le_compat_r; assumption. }
  apply within_finite in Hi. destruct Hi as [i [Ei [Hi0 Hi1]]]. rewrite Ei.
  apply (IH (fun vw Hin => Hw vw (list_elem_of_further _ _ _ Hin))).
  - apply atLeastZero_add; assumption.
  - apply atLeastZero_add; assumption.
  - apply add_le_mono; assumption.
Qed.

Ltac decide_order :=
  repeat match goal with
         | |- context [Qle_bool ?x ?y] => destruct (Qle_bool x y) eqn:?
         end;
  cbn [leb];
  repeat match goal with
         | E : Qle_bool _ _ = true |- _ => apply Qle_bool_iff in E
         | E : Qle_bool _ _ = false |- _ => apply Qle_bool_false_iff in E
         end;
  try reflexivity; try discriminate; try (apply Qle_bool_iff; lra); try (exfalso; lra).

Lemma Math_max_mono c a b :
  (a <=? b)%num = true -> (Math_max (Fin c) a <=? Math_max (Fin c) b)%num = true.
Proof.
  destruct a as [x| | |], b as [y| | |]; cbn [leb]; intros Hle; try discriminate;
    unfold Math_max; cbn [leb]; try reflexivity; decide_order.
Qed.

Lemma Math_min_mono c a b :
  (a <=? b)%num = true -> (Math_min (Fin c) a <=? Math_min (Fin c) b)%num = true.
Proof.
  destruct a as [x| | |], b as [y| | |]; cbn [leb]; intros Hle; try discriminate;
    unfold Math_min; cbn [leb]; try reflexivity; decide_order.
Qed.

(** The normalized value never decreases with the number. *)
Lemma normalizeFeatureValue_monotone q1 q2 :
  (q1 <= q2)%Q ->
  (normalizeFeatureValue (VNumber q1) <=? normalizeFeatureValue (VNumber q2))%num = true.
Proof.
  intros Hq. unfold normalizeFeatureValue.
  apply Math_min_mono, Math_max_mono.
  assert (E : Qeq_bool 100 0 = false) by reflexivity.
  unfold div. rewrite E.
  apply rnd_le. unfold Qdiv. apply Qmult_le_compat_r; [exact Hq|].
  apply Qle_bool_iff. reflexivity.
Qed.

Lemma round2_le_mono a b :
  (a <=? b)%num = true ->
  (Math_round (a * Fin 100) / Fin 100 <=? Math_round (b * Fin 100) / Fin 100)%num = true.
Proof.
  intros Hle. apply div_le_mono; [|reflexivity]. apply round_le_mono.
  apply mul_le_mono; [exact Hle | reflexivity].
Qed.

Lemma categorize_monotone a b thresholds :
  (a <=? b)%num = true ->
  (rank (categorize a thresholds) <= rank (categorize b thresholds))%nat.
Proof.
  intros Hle. unfold categorize, geb.
  destruct (Fin (Thresholds.hot thresholds) <=? b)%num eqn:Hb; cbn [rank].
  - destruct (Fin (Thresholds.hot thresholds) <=? a)%num; [simpl; lia|].
    destruct (Fin (Thresholds.warm thresholds) <=? a)%num; simpl; lia.
  - assert (Ha : (Fin (Thresholds.hot thresholds) <=? a)%num = false).
    { destruct (Fin (Thresholds.hot thresholds) <=? a)%num eqn:Ha; [|reflexivity].
      rewrite (leb_trans _ _ _ Ha Hle) in Hb. discriminate. }
    rewrite Ha.
    destruct (Fin (Thresholds.warm thresholds) <=? b)%num eqn:Wb; cbn [rank].
    + destruct (Fin (Thresholds.warm thresholds) <=? a)%num; simpl; lia.
    + assert (Wa : (Fin (Thresholds.warm thresholds) <=? a)%num = false).
      { destruct (Fin (Thresholds.warm thresholds) <=? a)%num eqn:Wa; [|reflexivity].
        rewrite (leb_trans _ _ _ Wa Hle) in Wb. discriminate. }
      rewrite Wa. simpl. lia.
Qed.

Section Raising.
Context `{NumberFormat}.

Lemma category_unfold features algorithm :
  ScoringResult.category (applyAlgorithm features algorithm)
  = categorize (finalScore (weightedSum features (Algorithm.weights algorithm)))
      (Algorithm.thresholds algorithm).
Proof. reflexivity. Qed.

(** The two sums for the two vectors: the same sum of weights, and a sum
    of products that does not go down. *)
Lemma sums_raised (pre post : LeadFeatures) (name : string) (q1 q2 : Q)
    (weights : gmap string Q) :
  weightsOk weights -> (q1 <= q2)%Q ->
  denominator (pre ++ (name, VNumber q1) :: post) weights
  = denominator (pre ++ (name, VNumber q2) :: post) weights
  /\ (numerator (pre ++ (name, VNumber q1) :: post) weights
      <=? numerator (pre ++ (name, VNumber q2) :: post) weights)%num = true.
Proof.
  intros Hw Hq. unfold denominator, numerator.
  rewrite !weighted_app.
  change ((name, VNumber q1) :: post) with ([(name, VNumber q1)] ++ post).
  change ((name, VNumber q2) :: post) with ([(name, VNumber q2)] ++ post).
  rewrite !weighted_app.
  assert (Hok : forall l vw, vw ∈ weighted l weights -> isDouble (snd vw) /\ (0 <= snd vw)%Q).
  { intros l vw Hin. destruct (weighted_weights _ _ _ Hin) as [f Hf]. exact (Hw _ _ Hf). }
  destruct (sums_bounds (weighted pre weights) (Hok pre) (Fin 0) (Fin 0))
    as [Hn0 _].
  { right. exists 0%Q. split; [reflexivity | lra]. }
  { right. exists 0%Q. split; [reflexivity | lra]. }
  { reflexivity. }
  assert (Hsame : (numeratorFrom (Fin 0) (weighted pre weights ++ [] ++ weighted post weights)
                   <=? numeratorFrom (Fin 0)
                         (weighted pre weights ++ [] ++ weighted post weights))%num = true).
  { destruct (sums_bounds (weighted pre weights ++ [] ++ weighted post weights))
      with (ts := Fin 0) (tw := Fin 0) as [Hz _].
    - intros vw Hin. apply elem_of_app in Hin. destruct Hin as [Hin|Hin].
      + exact (Hok pre vw Hin).
      + exact (Hok post vw Hin).
    - right. exists 0%Q. split; [reflexivity | lra].
    - right. exists 0%Q. split; [reflexivity | lra].
    - reflexivity.
    - destruct Hz as [->|[x [-> Hx]]]; [reflexivity|].
      apply Qle_bool_iff. lra. }
  cbn [weighted]. destruct (weights !! name) as [w|] eqn:Ew.
  - cbn [isPresent]. rewrite andb_true_r.
    destruct (negb (Qeq_bool w 0)).
    + split.
      * unfold denominatorFrom. rewrite !fold_left_app. reflexivity.
      * unfold numeratorFrom. rewrite !fold_left_app.
        fold (numeratorFrom (Fin 0) (weighted pre weights)).
        set (n0 := numeratorFrom (Fin 0) (weighted pre weights)) in *.
        cbn [fold_left fst snd app].
        destruct (Hw _ _ Ew) as [Hd H0].
        pose proof (normalizeFeatureValue_within (VNumber q1)) as W1.
        pose proof (normalizeFeatureValue_within (VNumber q2)) as W2.
        pose proof (normalizeFeatureValue_monotone q1 q2 Hq) as Hm.
        apply within_finite in W1. destruct W1 as [n1 [E1 [A1 B1]]].
        apply within_finite in W2. destruct W2 as [n2 [E2 [A2 B2]]].
        rewrite E1, E2 in *. simpl in Hm. apply Qle_bool_iff in Hm.
        assert (I1 : within 0 w (Fin n1 * Fin w)%num).
        { change (Fin n1 * Fin w)%num with (rnd (n1 * w)).
          apply rnd_between; [apply isDouble_0 | exact Hd | |].
          - apply Qmult_le_0_compat; assumption.
          - rewrite <- (Qmult_1_l w) at 2. apply Qmult_le_compat_r; assumption. }
        assert (I2 : within 0 w (Fin n2 * Fin w)%num).
        { change (Fin n2 * Fin w)%num with (rnd (n2 * w)).
          apply rnd_between; [apply isDouble_0 | exact Hd | |].
          - apply Qmult_le_0_compat; assumption.
          - rewrite <- (Qmult_1_l w) at 2. apply Qmult_le_compat_r; assumption. }
        assert (I12 : (Fin n1 * Fin w <=? Fin n2 * Fin w)%num = true).
        { apply rnd_le. apply Qmult_le_compat_r; assumption. }
        apply within_finite in I1. destruct I1 as [i1 [Ei1 [C1 _]]].
        apply within_finite in I2. destruct I2 as [i2 [Ei2 [C2 _]]].
        rewrite Ei1, Ei2 in *. simpl in I12. apply Qle_bool_iff in I12.
        apply (numeratorFrom_mono _ (Hok post)).
        -- apply atLeastZero_add; assumption.
        -- apply atLeastZero_add; assumption.
        -- destruct Hn0 as [->|[x [-> Hx]]]; [reflexivity|].
           apply rnd_le. lra.
    + split; [reflexivity | exact Hsame].
  - split; [reflexivity | exact Hsame].
Qed.

(** X20. With weights that are non-negative doubles, and as long as the
    sum of the weighted values does not overflow, a higher value of one
    numeric feature, everything else equal, never lowers the reported score,
    never demotes the category, and leaves the confidence as it was. *)
Theorem raising_a_feature_never_lowers_score (pre post : LeadFeatures) (name : string)
    (q1 q2 : Q) (algorithm : Algorithm.t) :
  weightsOk (Algorithm.weights algorithm) ->
  (q1 <= q2)%Q ->
  numerator (pre ++ (name, VNumber q2) :: post) (Algorithm.weights algorithm) <> PosInf ->
  let low := applyAlgorithm (pre ++ (name, VNumber q1) :: post) algorithm in
  let high := applyAlgorithm (pre ++ (name, VNumber q2) :: post) algorithm in
  (ScoringResult.score low <=? ScoringResult.score high)%num = true
  /\ (rank (ScoringResult.category low) <= rank (ScoringResult.category high))%nat
  /\ ScoringResult.confidence low = ScoringResult.confidence high.
Proof.
  intros Hw Hq Hfin low high. set (weights := Algorithm.weights algorithm) in *.
  destruct (sums_raised pre post name q1 q2 weights Hw Hq) as [Hd Hn].
  set (f1 := pre ++ (name, VNumber q1) :: post) in *.
  set (f2 := pre ++ (name, VNumber q2) :: post) in *.
  assert (Hfinal : (finalScore (weightedSum f1 weights)
                    <=? finalScore (weightedSum f2 weights))%num = true).
  { rewrite !finalScore_value, Hd.
    destruct (weightedSum_bounds f1 weights Hw) as [N1 _].
    destruct (weightedSum_bounds f2 weights Hw) as [N2 [D2 _]].
    destruct N2 as [N2|[n2 [N2 P2]]]; [contradiction|].
    rewrite N2 in *.
    destruct N1 as [N1|[n1 [N1 P1]]]; rewrite N1 in Hn |- *; [discriminate|].
    destruct D2 as [->|[d [-> Pd]]].
    - vm_compute. reflexivity.
    - unfold gtb, ltb. destruct (Qle_bool d 0) eqn:E; cbn [negb]; [reflexivity|].
      apply Qle_bool_false_iff in E.
      apply mul_le_mono; [|reflexivity]. apply div_le_mono; [exact Hn | exact E]. }
  split; [|split].
  - unfold low, high. rewrite !score_unfold. fold weights.
    apply round2_le_mono. exact Hfinal.
  - unfold low, high. rewrite !category_unfold. fold weights.
    apply categorize_monotone. exact Hfinal.
  - unfold low, high. rewrite !confidence_unfold. unfold f1, f2.
    rewrite !presentCount_middle by reflexivity. reflexivity.
Qed.

End Raising.

Definition contactFirst : Algorithm.t :=
  {| Algorithm.name := "contact-first";
     Algorithm.weights := {[ "contactQuality" := 3%Q; "buyingIntent" := 1%Q ]};
     Algorithm.thresholds :=
       {| Thresholds.hot := 70; Thresholds.warm := 40; Thresholds.cold := 0 |} |}.

Lemma contactFirst_ok : weightsOk (Algorithm.weights contactFirst).
Proof.
  intros feature w Hw. unfold contactFirst in Hw. cbn [Algorithm.weights] in Hw.
  apply lookup_insert_Some in Hw. destruct Hw as [[_ <-]|[_ Hw]].
  - split; [vm_compute; reflexivity | lra].
  - apply lookup_singleton_Some in Hw. destruct Hw as [_ <-].
    split; [vm_compute; reflexivity | lra].
Qed.

Lemma raising_a_feature_never_lowers_score_witness :
  (ScoringResult.score
     (@applyAlgorithm fractionFormat
        ([("buyingIntent", VNumber 30)] ++ ("contactQuality", VNumber 50) :: []) contactFirst)
   <=? ScoringResult.score
         (@applyAlgorithm fractionFormat
            ([("buyingIntent", VNumber 30)] ++ ("contactQuality", VNumber 85) :: [])
            contactFirst))%num = true.
Proof.
  refine (proj1 (@raising_a_feature_never_lowers_score fractionFormat
                   [("buyingIntent", VNumber 30)] [] "contactQuality" 50 85 contactFirst
                   contactFirst_ok _ _)).
  - lra.
  - vm_compute. discriminate.
Defined.

End RankingFacts.

(* ===================================================================== *)
(** * Facts: scoreLeadWithAlgorithm and batchScoreLeads *)
(* ===================================================================== *)

Module StoredScoreFacts.
Import Js JsFacts Scoring ScoringFacts LeadScoring LeadScoringFacts.

(** ** The result map of the batch *)




Section Stored.
Variable normalizeRevenue : option Q -> Result FeatureValue.
Context `{NumberFormat}.









(** ** The batch *)



End Stored.

(** Two leads and one algorithm, nothing scored yet. *)
Definition scoringDb : Db :=
  {| lead := {[ "lead-1" := plainLead; "lead-2" := enrichedLead ]};
     scoringAlgorithm := {[ "alg-1" := contactWeights ]};
     scoringResult := ∅;
     activity := [] |}.


(** The feature [buyingIntent] in a vector. *)
Definition buyingIntentOf (features : LeadFeatures) : option FeatureValue :=
  snd <$> find (fun entry => String.eqb (fst entry) "buyingIntent") features.

(** Scoring the first lead twice at the same clock reading: the second
    call counts the activity the first one logged among the recent ones, and
    the buying intent goes from 75 to 80. *)
Example rescoring_counts_the_logged_activity :
  exists first db' second db'',
    @scoreLeadWithAlgorithm normalizeRevenue_missing fractionFormat
      "lead-1" "alg-1" 900000000 scoringDb = Ok (first, db')
    /\ @scoreLeadWithAlgorithm normalizeRevenue_missing fractionFormat
         "lead-1" "alg-1" 900000000 db' = Ok (second, db'')
    /\ buyingIntentOf (ScoringResult.features first) = Some (VNumber 75)
    /\ buyingIntentOf (ScoringResult.features second) = Some (VNumber 80).
Proof.
  eexists _, _, _, _. split; [reflexivity|]. split; [reflexivity|].
  split; vm_compute; reflexivity.
Qed.

(** The second lead has company data: it cannot be scored, and a batch
    over both leads returns the first only. *)
Example batch_skips_the_enriched_lead :
  map fst (fst (@batchScoreLeads normalizeRevenue_missing fractionFormat
                  (fun _ => 900000000) ["lead-1"; "lead-2"] "alg-1" scoringDb))
  = ["lead-1"].
Proof. vm_compute. reflexivity. Qed.

End StoredScoreFacts.

(* ===================================================================== *)
(** * Facts: campaign snapshots, comparison and email events *)
(* ===================================================================== *)

Module CampaignEventsFacts.
Import Js JsFacts Campaign CampaignFacts CampaignEvents.

(** ** Delivered and bounced *)

Lemma guardedPercent_within count total :
  (count <= total)%nat -> within 0 100 (guardedPercent count total).
Proof.
  intros Hle. destruct total as [|t].
  - rewrite guardedPercent_zero. simpl. lra.
  - unfold guardedPercent. cbn [Nat.ltb Nat.leb]. apply round2_within_100.
    apply (within_weaken (0 * 100) (1 * 100)); [|lra|lra].
    apply mul_within; [| lra | vm_compute; reflexivity | vm_compute; reflexivity].
    pose proof (inject_nat_pos (S t) ltac:(lia)) as Hpos.
    pose proof (inject_nat_nonneg count) as Hc.
    assert (Hct : (inject_Z (Z.of_nat count) <= inject_Z (Z.of_nat (S t)))%Q).
    { rewrite <- Zle_Qle. lia. }
    assert (E : Qeq_bool (inject_Z (Z.of_nat (S t))) 0 = false)
      by (apply Qeq_bool_false_iff; lra).
    rewrite !ofNat_Fin. unfold div. rewrite E.
    apply rnd_between; [apply isDouble_0 | apply isDouble_1 | |].
    + apply Qle_shift_div_l; lra.
    + apply Qle_shift_div_r; lra.
Qed.

Lemma delivered_bounced_le (es : list Execution.t) :
  (count isDelivered es + count isBounced es <= length es)%nat.
Proof.
  unfold count. induction es as [|e es IH]; simpl; [lia|].
  unfold isDelivered at 1, isBounced at 1.
  destruct (Execution.status e); simpl; lia.
Qed.

(** X23. In every snapshot the delivered and the bounced executions are
    disjoint parts of the sent ones, so the delivery rate and the bounce rate
    both lie between 0 and 100. *)
Theorem delivery_and_bounce_bounded (c : Campaign.t) (now : Z) :
  let m := computeMetrics c now in
  (Metrics.totalDelivered m + Metrics.totalBounced m <= Metrics.totalSent m)%nat
  /\ within 0 100 (Metrics.deliveryRate m)
  /\ within 0 100 (Metrics.bounceRate m).
Proof.
  intros m. pose proof (delivered_bounced_le (executions c)) as Hle.
  destruct (rates_unfold c now) as [Ed [_ [_ [_ [Eb _]]]]]. fold m in Ed, Eb.
  split; [exact Hle|]. rewrite Ed, Eb.
  split; apply guardedPercent_within.
  - change (count isDelivered (executions c) <= length (executions c))%nat. lia.
  - change (count isBounced (executions c) <= length (executions c))%nat. lia.
Qed.

(** ** The stored snapshot *)

Lemma find_id_eq campaignId (cs : list Campaign.t) c :
  find (fun c' => String.eqb (id c') campaignId) cs = Some c -> id c = campaignId.
Proof.
  intros Hf. apply find_some in Hf. destruct Hf as [_ E].
  apply String.eqb_eq in E. exact E.
Qed.

Lemma calculateCampaignMetrics_inv campaignId now db m db' :
  calculateCampaignMetrics campaignId now db = Ok (m, db') ->
  exists c,
    find (fun c' => String.eqb (id c') campaignId) (campaign db) = Some c
    /\ m = computeMetrics c now
    /\ db' = storeCampaignAnalytics m db.
Proof.
  unfold calculateCampaignMetrics. intros E.
  destruct (find _ (campaign db)) as [c|] eqn:Hf; [|discriminate].
  injection E as <- <-. exists c. repeat split; reflexivity.
Qed.

(** A rate the comparison can order: a double that is 0 at least, or
    +Infinity. *)
Definition properRate (a : num) : Prop :=
  match a with
  | Fin q => isDouble q /\ (0 <= q)%Q
  | PosInf => True
  | _ => False
  end.

Lemma properRate_div a : atLeastZero a -> properRate (Math_round a / Fin 100)%num.
Proof.
  intros [->|[x [-> Hx]]]; [exact I|].
  cbn [Math_round]. unfold ofZ.
  assert (Hz : (0 <= inject_Z (Qfloor (x + (1 # 2))))%Q).
  { change 0%Q with (inject_Z 0). rewrite <- Zle_Qle.
    change 0 with (Qfloor 0). apply Qfloor_resp_le. lra. }
  assert (E : Qeq_bool 100 0 = false) by reflexivity.
  unfold div. rewrite E.
  destruct (rnd_above 0 (inject_Z (Qfloor (x + (1 # 2))) / 100)) as [Ei|[v [Ev Hv]]].
  - apply isDouble_0.
  - apply Qle_shift_div_l; [reflexivity | lra].
  - rewrite Ei. exact I.
  - rewrite Ev. split; [exact (rnd_double _ _ Ev) | exact Hv].
Qed.

Lemma atLeastZero_mul a c : atLeastZero a -> (0 < c)%Q -> atLeastZero (a * Fin c)%num.
Proof.
  intros [->|[x [-> Hx]]] Hc.
  - left. simpl. assert (Hgt : (c ?= 0)%Q = Gt) by (apply Qgt_alt; exact Hc).
    rewrite Hgt. reflexivity.
  - change (Fin x * Fin c)%num with (rnd (x * c)).
    apply rnd_above; [apply isDouble_0|]. apply Qmult_le_0_compat; lra.
Qed.

Lemma guardedPercent_proper count total : properRate (guardedPercent count total).
Proof.
  unfold guardedPercent. apply properRate_div.
  apply atLeastZero_mul; [|reflexivity].
  destruct (0 <? total)%nat eqn:E.
  - apply Nat.ltb_lt in E. apply atLeastZero_mul; [|reflexivity].
    rewrite !ofNat_Fin.
    pose proof (inject_nat_pos total E) as Hpos.
    assert (E0 : Qeq_bool (inject_Z (Z.of_nat total)) 0 = false)
      by (apply Qeq_bool_false_iff; lra).
    unfold div. rewrite E0.
    apply rnd_above; [apply isDouble_0|].
    apply Qle_shift_div_l; [exact Hpos|]. rewrite Qmult_0_l. apply inject_nat_nonneg.
  - right. exists 0%Q. split; [reflexivity | lra].
Qed.

Lemma calculateCampaignMetrics_frame campaignId now db m db' :
  calculateCampaignMetrics campaignId now db = Ok (m, db') ->
  Metrics.campaignId m = campaignId
  /\ campaign db' = campaign db
  /\ campaignAnalytics db' = <[campaignId := m]> (campaignAnalytics db)
  /\ properRate (Metrics.conversionRate m).
Proof.
  intros E. destruct (calculateCampaignMetrics_inv _ _ _ _ _ E) as [c [Hf [Hm Hdb]]].
  assert (Hid : Metrics.campaignId m = campaignId).
  { rewrite Hm. simpl. apply (find_id_eq _ _ _ Hf). }
  split; [exact Hid|]. subst db'. unfold storeCampaignAnalytics. simpl.
  rewrite Hid. split; [reflexivity|]. split; [reflexivity|].
  rewrite Hm. destruct (rates_unfold c now) as [_ [_ [_ [_ [_ [_ [Ev _]]]]]]].
  rewrite Ev. apply guardedPercent_proper.
Qed.



(** ** The comparison *)

Definition orderedRate (m : Metrics.t) : Prop := properRate (Metrics.conversionRate m).

Definition atLeast (a b : Metrics.t) : Prop :=
  (Metrics.conversionRate b <=? Metrics.conversionRate a)%num = true.

Definition found (db : Db) (campaignId : string) : Prop :=
  is_Some (find (fun c => String.eqb (id c) campaignId) (campaign db)).

Lemma compareConversion_before x y :
  orderedRate x -> orderedRate y ->
  ((compareConversion y x <? Fin 0)%num = true -> atLeast y x)
  /\ ((compareConversion y x <? Fin 0)%num = false -> atLeast x y).
Proof.
  unfold orderedRate, compareConversion, atLeast.
  destruct (Metrics.conversionRate x) as [qx| | |], (Metrics.conversionRate y) as [qy| | |];
    cbn [properRate]; intros Hx Hy; try contradiction;
    try (split; intros E; try reflexivity; discriminate).
  destruct Hx as [Dx _], Hy as [Dy _].
  pose proof (sub_double_sign qx qy Dx Dy) as Hs. split; intros E.
  - apply Hs in E. cbn [leb]. apply Qle_bool_iff. lra.
  - cbn [leb]. apply Qle_bool_iff. apply Qnot_lt_le. intros Hlt.
    apply Hs in Hlt. congruence.
Qed.

Lemma atLeast_trans x y z : atLeast x y -> atLeast y z -> atLeast x z.
Proof. unfold atLeast. intros H1 H2. exact (leb_trans _ _ _ H2 H1). Qed.

Lemma insertMetrics_perm x : forall l, insertMetrics x l ≡ₚ x :: l.
Proof.
  induction l as [|y rest IH]; simpl; [reflexivity|].
  destruct (compareConversion y x <? Fin 0)%num; [|reflexivity].
  rewrite IH. apply Permutation_swap.
Qed.

Lemma sortMetrics_perm : forall l, sortMetrics l ≡ₚ l.
Proof.
  induction l as [|x l IH]; simpl; [reflexivity|].
  rewrite insertMetrics_perm, IH. reflexivity.
Qed.

Lemma insertMetrics_sorted x : forall l,
  orderedRate x -> Forall orderedRate l ->
  StronglySorted atLeast l -> StronglySorted atLeast (insertMetrics x l).
Proof.
  induction l as [|y rest IH]; intros Hx Hl Hs; simpl.
  - constructor; [constructor | constructor].
  - apply Forall_cons in Hl. destruct Hl as [Hy Hrest].
    apply StronglySorted_inv in Hs. destruct Hs as [Hs Hall].
    destruct (compareConversion_before x y Hx Hy) as [Hlt Hge].
    destruct (compareConversion y x <? Fin 0)%num.
    + constructor; [apply IH; assumption|].
      rewrite insertMetrics_perm. constructor; [apply Hlt; reflexivity | exact Hall].
    + constructor; [constructor; assumption|].
      constructor; [apply Hge; reflexivity|].
      rewrite Forall_forall in Hall, Hrest. apply Forall_forall. intros z Hz.
      apply (atLeast_trans x y z); [apply Hge; reflexivity|].
      apply Hall. exact Hz.
Qed.

Lemma sortMetrics_sorted : forall l,
  Forall orderedRate l -> StronglySorted atLeast (sortMetrics l).
Proof.
  induction l as [|x l IH]; intros Hl; simpl; [constructor|].
  apply Forall_cons in Hl. destruct Hl as [Hx Hl].
  apply insertMetrics_sorted; [exact Hx | | apply IH; exact Hl].
  rewrite sortMetrics_perm. exact Hl.
Qed.

Lemma calculateEach_spec (now : nat -> Z) : forall campaignIds i db,
  match calculateEach i now campaignIds db with
  | Ok (metrics, db') =>
      map Metrics.campaignId metrics = campaignIds
      /\ Forall orderedRate metrics
      /\ Forall (found db) campaignIds
      /\ campaign db' = campaign db
  | Throw _ => exists campaignId, campaignId ∈ campaignIds /\ ~ found db campaignId
  end.
Proof.
  induction campaignIds as [|campaignId rest IH]; intros i db; simpl.
  - repeat split; constructor.
  - destruct (calculateCampaignMetrics campaignId (now i) db) as [[m db1]|msg] eqn:E.
    + destruct (calculateCampaignMetrics_frame _ _ _ _ _ E) as [Hid [Hc [_ Hfin]]].
      destruct (calculateCampaignMetrics_inv _ _ _ _ _ E) as [c [Hf _]].
      specialize (IH (S i) db1).
      destruct (calculateEach (S i) now rest db1) as [[ms db2]|msg'].
      * destruct IH as [Hids [Hfins [Hfound Hc2]]].
        split; [simpl; congruence|].
        split; [constructor; [exact Hfin | exact Hfins]|].
        split; [|congruence].
        constructor; [unfold found; rewrite Hf; eauto|].
        eapply Forall_impl; [exact Hfound|]. intros x. unfold found. rewrite Hc. auto.
      * destruct IH as [x [Hin Hno]]. exists x.
        split; [apply list_elem_of_further; exact Hin|].
        unfold found in *. rewrite <- Hc. exact Hno.
    + exists campaignId. split; [apply list_elem_of_here|].
      unfold calculateCampaignMetrics in E. unfold found.
      destruct (find _ (campaign db)); [discriminate|].
      intros [x Hx]. discriminate.
Qed.

(** X25. A comparison that returns has one snapshot for each requested
    campaign, ordered from the highest conversion rate to the lowest, and
    every requested campaign exists; a comparison that fails was asked for a
    campaign that does not exist.  The campaigns are not changed. *)
Theorem getCampaignComparison_sorted (now : nat -> Z) (campaignIds : list string)
    (db : Db) :
  match getCampaignComparison now campaignIds db with
  | Ok (metrics, db') =>
      map Metrics.campaignId metrics ≡ₚ campaignIds
      /\ StronglySorted atLeast metrics
      /\ Forall (found db) campaignIds
      /\ campaign db' = campaign db
  | Throw _ => exists campaignId, campaignId ∈ campaignIds /\ ~ found db campaignId
  end.
Proof.
  unfold getCampaignComparison.
  pose proof (calculateEach_spec now campaignIds 0%nat db) as Hspec.
  destruct (calculateEach 0 now campaignIds db) as [[ms db']|msg]; [|exact Hspec].
  destruct Hspec as [Hids [Hfin [Hfound Hc]]].
  split; [rewrite sortMetrics_perm, Hids; reflexivity|].
  split; [apply sortMetrics_sorted; exact Hfin|].
  split; assumption.
Qed.


(** ** Email events *)

(** The row after an event: the event appended, then the update. *)
Definition afterEvent (executionId eventType : string) (ev : EmailEventType.t)
    (revenue : option Q) (now : Z) (r : Row.t) : Row.t :=
  if hasId executionId r then
    {| Row.id := Row.id r;
       Row.campaignId := Row.campaignId r;
       Row.execution := updateData eventType now revenue (withEvent ev (Row.execution r)) |}
  else r.

Lemma trackEmailEvent_inv executionId eventType revenue now rows rows' :
  trackEmailEvent executionId eventType revenue now rows = Ok rows' ->
  exists ev,
    parseEventType eventType = Some ev
    /\ existsb (hasId executionId) rows = true
    /\ rows' = map (afterEvent executionId eventType ev revenue now) rows.
Proof.
  unfold trackEmailEvent. intros E.
  destruct (parseEventType eventType) as [ev|]; [|discriminate].
  destruct (existsb (hasId executionId) rows); [|discriminate].
  injection E as <-. exists ev. repeat split; reflexivity.
Qed.

Lemma afterEvent_keys executionId eventType ev revenue now r :
  Row.id (afterEvent executionId eventType ev revenue now r) = Row.id r
  /\ Row.campaignId (afterEvent executionId eventType ev revenue now r) = Row.campaignId r.
Proof. unfold afterEvent. destruct (hasId executionId r); split; reflexivity. Qed.

Lemma positive_revenue_counts x :
  truthy (Fin x) && (Fin x >? Fin 0)%num = true <-> (0 < x)%Q.
Proof.
  unfold truthy, gtb, ltb. rewrite andb_true_iff, !negb_true_iff.
  rewrite Qeq_bool_false_iff, Qle_bool_false_iff. split; [tauto|].
  intros Hx. split; [lra | exact Hx].
Qed.

(** X26. A conversion event on an execution that exists marks it CONVERTED
    at the clock reading, keeps every row and its id, and the execution counts
    as converted in the campaign metrics exactly when the revenue sent with
    the event is positive: without a revenue, or with 0 or less, the
    execution is CONVERTED but not counted. *)
Theorem conversion_needs_positive_revenue (executionId : string) (revenue : option Q)
    (now : Z) (rows : list Row.t) :
  existsb (hasId executionId) rows = true ->
  exists rows',
    trackEmailEvent executionId "CONVERTED" revenue now rows = Ok rows'
    /\ map Row.id rows' = map Row.id rows
    /\ forall r',
         r' ∈ rows' -> Row.id r' = executionId ->
         Execution.status (Row.execution r') = ExecutionStatus.CONVERTED
         /\ Execution.convertedAt (Row.execution r') = Some now
         /\ isDelivered (Row.execution r') = true
         /\ (isConverted (Row.execution r') = true <-> (0 < revenueOf revenue)%Q).
Proof.
  intros Hex. unfold trackEmailEvent.
  change (parseEventType "CONVERTED") with (Some EmailEventType.CONVERTED).
  rewrite Hex. eexists. split; [reflexivity|]. split.
  - rewrite map_map. apply map_ext. intros r. destruct (hasId executionId r); reflexivity.
  - intros r' Hin Hid. apply list_elem_of_fmap in Hin. destruct Hin as [r [-> Hr]].
    destruct (hasId executionId r) eqn:Eh.
    + change (updateData "CONVERTED" now revenue
                (withEvent EmailEventType.CONVERTED (Row.execution r)))
        with {| Execution.status := ExecutionStatus.CONVERTED;
                Execution.openedAt := Execution.openedAt (Row.execution r);
                Execution.clickedAt := Execution.clickedAt (Row.execution r);
                Execution.repliedAt := Execution.repliedAt (Row.execution r);
                Execution.convertedAt := Some now;
                Execution.revenue := Some (revenueOf revenue);
                Execution.emailEvents :=
                  Execution.emailEvents (Row.execution r) ++ [EmailEventType.CONVERTED] |}.
      cbn [Row.execution Execution.status Execution.convertedAt].
      split; [reflexivity|]. split; [reflexivity|]. split; [reflexivity|].
      unfold isConverted. cbn [Execution.convertedAt Execution.revenue isSet].
      rewrite andb_true_l. apply positive_revenue_counts.
    + unfold hasId in Eh. rewrite Hid, String.eqb_refl in Eh. discriminate.
Qed.

(** ** Counts under events *)

Definition unsubscribes (e : Execution.t) : nat :=
  count isUnsubscribed (Execution.emailEvents e).

(** What an event can do to the engagement columns of an execution. *)
Definition grows (e e' : Execution.t) : Prop :=
  (isSet (Execution.openedAt e) = true -> isSet (Execution.openedAt e') = true)
  /\ (isSet (Execution.clickedAt e) = true -> isSet (Execution.clickedAt e') = true)
  /\ (isSet (Execution.repliedAt e) = true -> isSet (Execution.repliedAt e') = true)
  /\ (unsubscribes e <= unsubscribes e')%nat.

Lemma grows_refl e : grows e e.
Proof. unfold grows. repeat split; auto. Qed.

Lemma updateData_grows eventType now revenue ev e :
  grows e (updateData eventType now revenue (withEvent ev e)).
Proof.
  assert (Hu : (unsubscribes e <= unsubscribes (withEvent ev e))%nat).
  { unfold unsubscribes, withEvent, count. simpl.
    rewrite List.filter_app, List.length_app. lia. }
  unfold updateData.
  repeat match goal with |- context [if ?c then _ else _] => destruct c end;
    unfold grows; simpl; repeat split; auto.
Qed.

Lemma afterEvent_grows executionId eventType ev revenue now r :
  grows (Row.execution r)
        (Row.execution (afterEvent executionId eventType ev revenue now r)).
Proof.
  unfold afterEvent. destruct (hasId executionId r); [|apply grows_refl].
  apply updateData_grows.
Qed.

Lemma filter_map_keys {A} (q : A -> bool) (f : A -> A) :
  (forall x, q (f x) = q x) ->
  forall l, List.filter q (map f l) = map f (List.filter q l).
Proof.
  intros Hq. induction l as [|x l IH]; simpl; [reflexivity|].
  rewrite Hq. destruct (q x); simpl; rewrite IH; reflexivity.
Qed.

Lemma count_grows (p : Execution.t -> bool) (f : Row.t -> Row.t) :
  (forall r, p (Row.execution r) = true -> p (Row.execution (f r)) = true) ->
  forall l,
    (count p (map Row.execution l) <= count p (map Row.execution (map f l)))%nat.
Proof.
  intros Hp. unfold count. induction l as [|r l IH]; simpl; [lia|].
  destruct (p (Row.execution r)) eqn:E.
  - rewrite (Hp r E). simpl. lia.
  - destruct (p (Row.execution (f r))); simpl; lia.
Qed.

Lemma totalUnsubscribed_grows (f : Row.t -> Row.t) :
  (forall r, (unsubscribes (Row.execution r) <= unsubscribes (Row.execution (f r)))%nat) ->
  forall l a b,
    (a <= b)%nat ->
    (fold_left (fun n execution =>
                  (n + count isUnsubscribed (Execution.emailEvents execution))%nat)
               (map Row.execution l) a
     <= fold_left (fun n execution =>
                     (n + count isUnsubscribed (Execution.emailEvents execution))%nat)
                  (map Row.execution (map f l)) b)%nat.
Proof.
  intros Hf. induction l as [|r l IH]; intros a b Hab; simpl; [exact Hab|].
  apply IH. specialize (Hf r). unfold unsubscribes in Hf. lia.
Qed.

Definition withExecutions (c : Campaign.t) (es : list Execution.t) : Campaign.t :=
  {| id := id c; name := name c; type := type c; createdAt := createdAt c;
     executions := es |}.

(** X27. An email event never takes an execution away from a campaign and
    never undoes an open, a click, a reply or an unsubscribe: in the metrics
    computed after the event the sent count is the same and the opened,
    clicked, replied and unsubscribed counts are at least what they were. *)
Theorem events_keep_engagement (executionId eventType : string) (revenue : option Q)
    (now : Z) (rows rows' : list Row.t) (c : Campaign.t) (t : Z) :
  trackEmailEvent executionId eventType revenue now rows = Ok rows' ->
  let before := computeMetrics (withExecutions c (executionsOf (id c) rows)) t in
  let after := computeMetrics (withExecutions c (executionsOf (id c) rows')) t in
  Metrics.totalSent after = Metrics.totalSent before
  /\ (Metrics.totalOpened before <= Metrics.totalOpened after)%nat
  /\ (Metrics.totalClicked before <= Metrics.totalClicked after)%nat
  /\ (Metrics.totalReplied before <= Metrics.totalReplied after)%nat
  /\ (Metrics.totalUnsubscribed before <= Metrics.totalUnsubscribed after)%nat.
Proof.
  intros E before after.
  destruct (trackEmailEvent_inv _ _ _ _ _ _ E) as [ev [_ [_ ->]]].
  set (f := afterEvent executionId eventType ev revenue now).
  assert (Hes : executionsOf (id c) (map f rows)
                = map Row.execution
                    (map f (List.filter (fun r => String.eqb (Row.campaignId r) (id c)) rows))).
  { unfold executionsOf. rewrite filter_map_keys; [reflexivity|].
    intros r. unfold f. rewrite (proj2 (afterEvent_keys _ _ _ _ _ r)). reflexivity. }
  unfold before, after, computeMetrics.
  cbn [Metrics.totalSent Metrics.totalOpened Metrics.totalClicked Metrics.totalReplied
       Metrics.totalUnsubscribed withExecutions executions].
  unfold f in Hes. rewrite Hes. unfold executionsOf.
  split; [rewrite !length_map; reflexivity|].
  split; [apply count_grows; intros r; apply (afterEvent_grows executionId eventType ev)|].
  split; [apply count_grows; intros r; apply (afterEvent_grows executionId eventType ev)|].
  split; [apply count_grows; intros r; apply (afterEvent_grows executionId eventType ev)|].
  apply totalUnsubscribed_grows; [|lia].
  intros r. apply (afterEvent_grows executionId eventType ev).
Qed.

(** Two executions of one campaign. *)
Definition quiet : Execution.t :=
  {| Execution.status := ExecutionStatus.SENT;
     Execution.openedAt := None; Execution.clickedAt := None;
     Execution.repliedAt := None; Execution.convertedAt := None;
     Execution.revenue := None; Execution.emailEvents := [] |}.

Definition mailRows : list Row.t :=
  [{| Row.id := "x1"; Row.campaignId := "c1"; Row.execution := quiet |};
   {| Row.id := "x2"; Row.campaignId := "c1"; Row.execution := quiet |}].

Definition launch : Campaign.t :=
  {| id := "c1"; name := "Launch"; type := "EMAIL"; createdAt := 0; executions := [] |}.



Lemma conversion_needs_positive_revenue_witness :
  exists rows',
    trackEmailEvent "x2" "CONVERTED" None 40 mailRows = Ok rows'
    /\ map Row.id rows' = map Row.id mailRows.
Proof.
  destruct (conversion_needs_positive_revenue "x2" None 40 mailRows eq_refl)
    as [rows' [E [Hids _]]].
  exists rows'. split; [exact E | exact Hids].
Defined.

Lemma events_keep_engagement_witness :
  exists rows',
    trackEmailEvent "x1" "OPENED" None 40 mailRows = Ok rows'
    /\ Metrics.totalSent (computeMetrics (withExecutions launch (executionsOf "c1" rows')) 50)
       = Metrics.totalSent
           (computeMetrics (withExecutions launch (executionsOf "c1" mailRows)) 50).
Proof.
  eexists. split; [reflexivity|].
  exact (proj1 (events_keep_engagement "x1" "OPENED" None 40 mailRows _ launch 50 eq_refl)).
Defined.

End CampaignEventsFacts.

